(** * The MAR augmentation tracker (src/augment/mar_augment.cpp)

    A shallow embedding of the descriptor matcher, the ellipse predicate,
    the per-frame tracker and the augmentation registry, together with the
    properties of the specification that were checked against them.

    Conventions of the embedding:
    - a C [float] is an element of an abstract arithmetic [F] (class
      [FloatOps]): the code is written once and run over the rationals
      (where it computes) and over the reals (where [sin] and [cos] are the
      true functions).  Rounding, infinities and NaN are not modelled;
    - a C [int] counter is a [nat]; the index returned by
      [get_best_keypoint_match], which can be [-1], is a [Z];
    - a C array is a [list]; a read past the end of one of the two buffers
      whose size the code gets wrong is the outcome [OutOfBounds];
    - [pinv] (Armadillo) is a parameter of the development. *)

From Stdlib Require Import List Bool Arith ZArith Lia.
From Stdlib Require Import QArith Qabs.
From Stdlib Require Import Reals Lra.
Import ListNotations.

Close Scope R_scope.
Close Scope Q_scope.
Open Scope nat_scope.

Set Implicit Arguments.

(** ** Float arithmetic *)

Class FloatOps (F : Type) : Type := {
  f_of_Z : Z -> F;
  fadd : F -> F -> F;
  fsub : F -> F -> F;
  fmul : F -> F -> F;
  fdiv : F -> F -> F;
  fabs : F -> F;
  fltb : F -> F -> bool;
  fleb : F -> F -> bool;
  fsin : F -> F;
  fcos : F -> F
}.

Declare Scope float_scope.
Delimit Scope float_scope with flt.
Infix "+" := fadd : float_scope.
Infix "-" := fsub : float_scope.
Infix "*" := fmul : float_scope.
Infix "/" := fdiv : float_scope.
Infix "<?" := fltb : float_scope.
Infix "<=?" := fleb : float_scope.
Notation "a >? b" := (fltb b a) (only parsing) : float_scope.
Notation "a >=? b" := (fleb b a) (only parsing) : float_scope.

(** The order facts about [<] and [<=] used by the matcher proofs. *)
Class FloatOrder (F : Type) {FO : FloatOps F} : Prop := {
  fltb_irrefl : forall a : F, fltb a a = false;
  fltb_trans : forall a b c : F,
      fltb a b = true -> fltb b c = true -> fltb a c = true;
  fltb_cotrans : forall a b c : F,
      fltb a c = true -> fltb a b = true \/ fltb b c = true;
  fleb_fltb : forall a b : F, fleb a b = negb (fltb b a)
}.

Arguments FloatOrder F {FO}.

(** *** Rationals: the instance that computes.

    [Qsin] and [Qcos] are truncated Maclaurin series; they are exact at
    angle [0], the only angle used by the concrete frames below. *)

Definition Qsin (t : Q) : Q :=
  (t - t * t * t / 6 + t * t * t * t * t / 120)%Q.

Definition Qcos (t : Q) : Q :=
  (1 - t * t / 2 + t * t * t * t / 24)%Q.

Definition Qltb (a b : Q) : bool := negb (Qle_bool b a).

#[export] Instance Q_ops : FloatOps Q := {|
  f_of_Z := inject_Z;
  fadd := Qplus;
  fsub := Qminus;
  fmul := Qmult;
  fdiv := Qdiv;
  fabs := Qabs;
  fltb := Qltb;
  fleb := Qle_bool;
  fsin := Qsin;
  fcos := Qcos
|}.

(** *** Reals: the instance with the true sine and cosine. *)

Definition Rltb (a b : R) : bool := if Rlt_dec a b then true else false.
Definition Rleb (a b : R) : bool := if Rle_dec a b then true else false.

#[export] Instance R_ops : FloatOps R := {|
  f_of_Z := IZR;
  fadd := Rplus;
  fsub := Rminus;
  fmul := Rmult;
  fdiv := Rdiv;
  fabs := Rabs;
  fltb := Rltb;
  fleb := Rleb;
  fsin := sin;
  fcos := cos
|}.

(** ** Constants of mar_augment.h, mar_sift.h, mar_error.h and float.h *)

Definition mar_error_code := Z.

Definition MAR_ERROR_NONE : mar_error_code := 0%Z.
Definition MAR_ERROR_AUGMENTATION_NOT_INITIALIZED : mar_error_code := 30%Z.
Definition MAR_ERROR_TOO_FEW_MATCHING_KEYPOINTS : mar_error_code := 31%Z.
Definition MAR_ERROR_TOO_FEW_KEYPOINTS : mar_error_code := 32%Z.
Definition MAR_ERROR_NO_AUGMENTATION_RESOURCES_AVAILABLE : mar_error_code := 33%Z.
Definition MAR_ERROR_AUGMENTATION_ID_DOES_NOT_EXIST : mar_error_code := 34%Z.

Definition MAR_MAX_NUMBER_OF_AUGMENTATIONS : nat := 32.
Definition MAR_MAX_NUM_OF_MATCHED_KEYPOINTS : nat := 256.
Definition MAR_MIN_NUM_OF_MATCHED_KEYPOINTS : nat := 5.
Definition MAR_MINIMUM_AUGMENTATION_KEYPOINTS : nat := 10.
Definition MAR_MAX_NUMBER_OF_AUGMENTATION_KEYPOINTS : nat := 512.
Definition MAR_SIFT_NBO : nat := 8.
Definition MAR_SIFT_NBP : nat := 4.

(** [sizeof(float)], in bytes. *)
Definition sizeof_float : nat := 4.

(** ** Outcomes of the per-frame code

    [contained_keypoints] is a heap buffer of exactly the number of gathered
    keypoints; [x], [y], [u], [v] are stack arrays of 256 floats.  A read of
    one of them past its end is undefined behaviour in C and ends the run. *)

Inductive buffer_name : Type :=
  | CorrespondenceArrays
  | ContainedKeypoints.

Inductive run (A : Type) : Type :=
  | Done (a : A)
  | OutOfBounds (b : buffer_name) (index size : nat).

Arguments Done {A} a.
Arguments OutOfBounds {A} b index size.

Section Numeric.

Context {F : Type} {FO : FloatOps F}.
Local Open Scope float_scope.

Definition f0 : F := f_of_Z 0.
Definition f1 : F := f_of_Z 1.

Definition FLT_MAX : F := f_of_Z (2 ^ 128 - 2 ^ 104).
Definition MAR_MAX_KEYPOINT_DIFFERENCE : F := f_of_Z 2.
Definition MAR_AUGMENT_MAX_SKEW : F := f_of_Z 1000.
Definition MAR_AUGMENT_MAX_SCALE_RATIO : F := f_of_Z 1000.
Definition MAR_UNIQUE_KEYPOINT_THRESHOLD : F := f_of_Z 7 / f_of_Z 2.

(** ** Data (mar_sift.h, mar_mser.h) *)

Record mar_sift_keypoint : Type := {
  kp_x : F;
  kp_y : F;
  kp_radius : F;
  kp_angle : F;
  descriptor : list F
}.

Record mar_mser : Type := {
  ellipse_x : F;
  ellipse_y : F;
  ellipse_a : F;
  ellipse_b : F;
  ellipse_angle : F
}.

(** ** get_keypoint_difference (lines 240-253) *)

Fixpoint keypoint_difference_loop (d1 d2 : list F) (i n : nat) (diff : F) : F :=
  match n with
  | O => diff
  | S n' =>
      keypoint_difference_loop d1 d2 (S i) n'
        (diff + fabs (nth i d1 f0 - nth i d2 f0))
  end.

Definition get_keypoint_difference (k1 k2 : mar_sift_keypoint) : F :=
  keypoint_difference_loop (descriptor k1) (descriptor k2) 0
    (MAR_SIFT_NBO * MAR_SIFT_NBP * MAR_SIFT_NBP)%nat f0.

(** ** is_point_in_ellipse (lines 268-280)

    The division is that of the arithmetic [F].  With a zero axis the
    [float] division of line 279 gives an infinity or a NaN and the
    comparison answers 0; the model stands for the code on the ellipses
    whose axes are not zero. *)

Definition is_point_in_ellipse
    (px py ellipse_x ellipse_y ellipse_a ellipse_b ellipse_angle : F) : bool :=
  let x := px - ellipse_x in
  let y := py - ellipse_y in
  let beta :=
    ellipse_angle * (if ellipse_a >? ellipse_b then f_of_Z 1 else f_of_Z (-1)) in
  let sinbeta := fsin beta in
  let cosbeta := fcos beta in
  let rx := cosbeta * x - sinbeta * y in
  let ry := sinbeta * x + cosbeta * y in
  ((rx * rx) / (ellipse_a * ellipse_a * f_of_Z 4))
  + ((ry * ry) / (ellipse_b * ellipse_b * f_of_Z 4)) <? f_of_Z 1.

(** ** get_best_keypoint_match (lines 294-326)

    The loop runs over [keypoints[0 .. num_keypoints-1]]; the result is the
    returned index together with the value stored in [*best_difference]. *)

Fixpoint best_match_loop (k : mar_sift_keypoint) (keypoints : list mar_sift_keypoint)
    (i : nat) (best_i : Z) (best_diff second_best_diff : F) : Z * F * F :=
  match keypoints with
  | [] => (best_i, best_diff, second_best_diff)
  | kp :: rest =>
      let difference := get_keypoint_difference k kp in
      if difference <? best_diff then
        best_match_loop k rest (S i) (Z.of_nat i) difference best_diff
      else if difference <? second_best_diff then
        best_match_loop k rest (S i) best_i best_diff difference
      else
        best_match_loop k rest (S i) best_i best_diff second_best_diff
  end.

Definition get_best_keypoint_match (k : mar_sift_keypoint)
    (keypoints : list mar_sift_keypoint) (num_keypoints : nat) : Z * F :=
  let '(best_i, best_diff, second_best_diff) :=
    best_match_loop k (firstn num_keypoints keypoints) 0 (-1)%Z FLT_MAX f0 in
  if best_diff * MAR_UNIQUE_KEYPOINT_THRESHOLD <=? second_best_diff
  then (best_i, best_diff)
  else ((-1)%Z, best_diff).

(** ** Armadillo matrices ([fmat]): lists of rows *)

Definition fmat : Type := list (list F).

Definition mat_get (M : fmat) (r c : nat) : F := nth c (nth r M []) f0.

Definition mat_col (M : fmat) (c : nat) : list F :=
  map (fun row => nth c row f0) M.

Fixpoint dot (a b : list F) : F :=
  match a, b with
  | x :: a', y :: b' => x * y + dot a' b'
  | _, _ => f0
  end.

(** [A * B] for a [B] with [cols] columns. *)
Definition mat_mul (A B : fmat) (cols : nat) : fmat :=
  map (fun row => map (fun c => dot row (mat_col B c)) (seq 0 cols)) A.

Definition zero33 : fmat := [[f0; f0; f0]; [f0; f0; f0]; [f0; f0; f0]].

(** ** The augmentation record (lines 45-65) *)

Record mar_augmentation : Type := {
  mser : mar_mser;
  transform : fmat;
  transform_inverse : fmat;
  initial_keypoints : list mar_sift_keypoint;
  num_initial_keypoints : nat;
  new_keypoint_cursor : nat;
  potential_keypoints : list mar_sift_keypoint;
  num_potential_keypoints : nat
}.

Definition set_transform (a : mar_augmentation) (t : fmat) : mar_augmentation :=
  {| mser := mser a; transform := t; transform_inverse := transform_inverse a;
     initial_keypoints := initial_keypoints a;
     num_initial_keypoints := num_initial_keypoints a;
     new_keypoint_cursor := new_keypoint_cursor a;
     potential_keypoints := potential_keypoints a;
     num_potential_keypoints := num_potential_keypoints a |}.

Definition set_initial_keypoints (a : mar_augmentation)
    (ks : list mar_sift_keypoint) : mar_augmentation :=
  {| mser := mser a; transform := transform a;
     transform_inverse := transform_inverse a;
     initial_keypoints := ks;
     num_initial_keypoints := num_initial_keypoints a;
     new_keypoint_cursor := new_keypoint_cursor a;
     potential_keypoints := potential_keypoints a;
     num_potential_keypoints := num_potential_keypoints a |}.

Definition set_new_keypoint_cursor (a : mar_augmentation) (c : nat)
    : mar_augmentation :=
  {| mser := mser a; transform := transform a;
     transform_inverse := transform_inverse a;
     initial_keypoints := initial_keypoints a;
     num_initial_keypoints := num_initial_keypoints a;
     new_keypoint_cursor := c;
     potential_keypoints := potential_keypoints a;
     num_potential_keypoints := num_potential_keypoints a |}.

Definition set_potential_keypoints (a : mar_augmentation)
    (ks : list mar_sift_keypoint) : mar_augmentation :=
  {| mser := mser a; transform := transform a;
     transform_inverse := transform_inverse a;
     initial_keypoints := initial_keypoints a;
     num_initial_keypoints := num_initial_keypoints a;
     new_keypoint_cursor := new_keypoint_cursor a;
     potential_keypoints := ks;
     num_potential_keypoints := num_potential_keypoints a |}.

Definition set_num_potential_keypoints (a : mar_augmentation) (n : nat)
    : mar_augmentation :=
  {| mser := mser a; transform := transform a;
     transform_inverse := transform_inverse a;
     initial_keypoints := initial_keypoints a;
     num_initial_keypoints := num_initial_keypoints a;
     new_keypoint_cursor := new_keypoint_cursor a;
     potential_keypoints := potential_keypoints a;
     num_potential_keypoints := n |}.

(** ** Arrays *)

(** [arr[i] = v]; the arrays written this way have a fixed size and the code
    keeps [i] below it. *)
Fixpoint array_set {A : Type} (arr : list A) (i : nat) (v : A) : list A :=
  match arr, i with
  | [], _ => []
  | _ :: rest, O => v :: rest
  | a :: rest, S i' => a :: array_set rest i' v
  end.

Definition zero_keypoint : mar_sift_keypoint :=
  {| kp_x := f0; kp_y := f0; kp_radius := f0; kp_angle := f0; descriptor := [] |}.

Definition keypoint_at (arr : list mar_sift_keypoint) (i : nat) : mar_sift_keypoint :=
  nth i arr zero_keypoint.

(** [memcpy(dst, src, bytes)] between two descriptors (arrays of
    [MAR_SIFT_NBO * MAR_SIFT_NBP * MAR_SIFT_NBP] floats): the first
    [bytes / sizeof(float)] floats of [dst] are replaced by those of [src]. *)
Definition memcpy_descriptor (dst src : list F) (bytes : nat) : list F :=
  map (fun i => if (i <? bytes / sizeof_float)%nat
                then nth i src f0 else nth i dst f0)
      (seq 0 (MAR_SIFT_NBO * MAR_SIFT_NBP * MAR_SIFT_NBP)).

(** ** Transforming points (lines 825-895): the matrix-vector product.

    [apply_matrix M x y] is [M * (x, y, 1)^T], of which the code keeps the
    first two rows. *)
Definition apply_matrix (M : fmat) (x y : F) : F * F :=
  let uv_mat := mat_mul M [[x]; [y]; [f_of_Z 1]] 1 in
  (mat_get uv_mat 0 0, mat_get uv_mat 1 0).

(** ** Gathering the keypoints inside the ellipse (lines 417-440, 610-633)

    Inside the loop of [mar_augment_update] both initialisation flags are
    set, so [mar_augment_untransform_point] always writes [ox] and [oy]. *)

Definition in_patch (a : mar_augmentation) (kp : mar_sift_keypoint) : bool :=
  let '(ox, oy) := apply_matrix (transform_inverse a) (kp_x kp) (kp_y kp) in
  is_point_in_ellipse ox oy (ellipse_x (mser a)) (ellipse_y (mser a))
    (ellipse_a (mser a)) (ellipse_b (mser a)) (ellipse_angle (mser a)).

Definition gather_contained (a : mar_augmentation)
    (mar_sift_keypoints : list mar_sift_keypoint) : list mar_sift_keypoint :=
  filter (in_patch a) mar_sift_keypoints.

(** ** The best-matches buffer (lines 379-380, 442-447, 457-485) *)

Record match_arrays : Type := {
  arr_x : list F;
  arr_y : list F;
  arr_u : list F;
  arr_v : list F;
  differences : list F
}.

Definition reset_differences (b : match_arrays) : match_arrays :=
  {| arr_x := arr_x b; arr_y := arr_y b; arr_u := arr_u b; arr_v := arr_v b;
     differences := repeat MAR_MAX_KEYPOINT_DIFFERENCE MAR_MAX_NUM_OF_MATCHED_KEYPOINTS |}.

(** The first [l < 256] with [best_difference < differences[l]]. *)
Fixpoint find_slot (best_difference : F) (diffs : list F) (l : nat) : option nat :=
  match diffs with
  | [] => None
  | d :: rest =>
      if (l <? MAR_MAX_NUM_OF_MATCHED_KEYPOINTS)%nat then
        if (best_difference <? d)%flt then Some l
        else find_slot best_difference rest (S l)
      else None
  end.

(** The shift [arr[m] = arr[m-1]] for [m] from the last index down to [l+1],
    followed by [arr[l] = v]. *)
Fixpoint shift_in {A : Type} (arr : list A) (l : nat) (v : A) : list A :=
  match l, arr with
  | O, _ :: _ => v :: removelast arr
  | S l', a :: rest => a :: shift_in rest l' v
  | _, [] => []
  end.

Definition place_match (b : match_arrays) (l : nat) (x y u v d : F) : match_arrays :=
  {| arr_x := shift_in (arr_x b) l x;
     arr_y := shift_in (arr_y b) l y;
     arr_u := shift_in (arr_u b) l u;
     arr_v := shift_in (arr_v b) l v;
     differences := shift_in (differences b) l d |}.

(** Lines 457-485 (and 510-538): the body of [if (k != -1)] up to the
    descriptor update. *)
Definition record_match (b : match_arrays) (matched_keypoints : nat)
    (ref q : mar_sift_keypoint) (best_difference : F) : match_arrays * nat :=
  if best_difference <?
       nth (MAR_MAX_NUM_OF_MATCHED_KEYPOINTS - 1)%nat (differences b) f0
  then
    (match find_slot best_difference (differences b) 0 with
     | Some l => place_match b l (kp_x ref) (kp_y ref) (kp_x q) (kp_y q) best_difference
     | None => b
     end, S matched_keypoints)
  else (b, matched_keypoints).

(** Line 488: [memcpy(initial_keypoints[k].descriptor, q.descriptor, 128)]. *)
Definition update_descriptor (ref q : mar_sift_keypoint) : mar_sift_keypoint :=
  {| kp_x := kp_x ref; kp_y := kp_y ref; kp_radius := kp_radius ref;
     kp_angle := kp_angle ref;
     descriptor := memcpy_descriptor (descriptor ref) (descriptor q) 128 |}.

(** Lines 449-490: the pass over the keypoints inside the ellipse. *)
Fixpoint match_contained (contained_keypoints : list mar_sift_keypoint)
    (b : match_arrays) (matched_keypoints : nat) (a : mar_augmentation)
    : match_arrays * nat * mar_augmentation :=
  match contained_keypoints with
  | [] => (b, matched_keypoints, a)
  | q :: rest =>
      let '(k, best_difference) :=
        get_best_keypoint_match q (initial_keypoints a) (num_initial_keypoints a) in
      if (k =? -1)%Z then match_contained rest b matched_keypoints a
      else
        let ref := keypoint_at (initial_keypoints a) (Z.to_nat k) in
        let '(b', matched') := record_match b matched_keypoints ref q best_difference in
        let a' := set_initial_keypoints a
                    (array_set (initial_keypoints a) (Z.to_nat k)
                       (update_descriptor ref q)) in
        match_contained rest b' matched' a'
  end.

(** Lines 502-540: the pass over every keypoint of the frame. *)
Fixpoint match_whole_frame (mar_sift_keypoints : list mar_sift_keypoint)
    (b : match_arrays) (matched_keypoints : nat) (a : mar_augmentation)
    : match_arrays * nat :=
  match mar_sift_keypoints with
  | [] => (b, matched_keypoints)
  | q :: rest =>
      let '(k, best_difference) :=
        get_best_keypoint_match q (initial_keypoints a) (num_initial_keypoints a) in
      if (k =? -1)%Z then match_whole_frame rest b matched_keypoints a
      else
        let ref := keypoint_at (initial_keypoints a) (Z.to_nat k) in
        let '(b', matched') := record_match b matched_keypoints ref q best_difference in
        match_whole_frame rest b' matched' a
  end.

(** Lines 442-541: both passes. *)
Definition find_matches (mar_sift_keypoints : list mar_sift_keypoint)
    (b : match_arrays) (a : mar_augmentation)
    : match_arrays * nat * mar_augmentation :=
  let contained_keypoints := gather_contained a mar_sift_keypoints in
  let '(b1, matched1, a1) :=
    match_contained contained_keypoints (reset_differences b) 0 a in
  if (matched1 <? MAR_MIN_NUM_OF_MATCHED_KEYPOINTS)%nat then
    let '(b2, matched2) :=
      match_whole_frame mar_sift_keypoints (reset_differences b1) 0 a1 in
    (b2, matched2, a1)
  else (b1, matched1, a1).

(** ** The per-frame tracker (lines 374-677) *)

Section Tracker.

(** Armadillo's Moore-Penrose pseudo-inverse. *)
Variable pinv : fmat -> fmat.

(** *** The least-squares system (lines 549-573) *)

Definition correspondence (b : match_arrays) (j : nat) : option (F * F * F * F) :=
  match nth_error (arr_x b) j, nth_error (arr_y b) j,
        nth_error (arr_u b) j, nth_error (arr_v b) j with
  | Some x, Some y, Some u, Some v => Some (x, y, u, v)
  | _, _, _, _ => None
  end.

(** The rows written for [j], [j+1], ..., [j+n-1]: two rows of [A] and two
    of [b] for each [j]. *)
Fixpoint build_system (b : match_arrays) (j n : nat) : run (fmat * fmat) :=
  match n with
  | O => Done ([], [])
  | S n' =>
      match correspondence b j with
      | None => OutOfBounds CorrespondenceArrays j MAR_MAX_NUM_OF_MATCHED_KEYPOINTS
      | Some (x, y, u, v) =>
          match build_system b (S j) n' with
          | Done (A, rhs) =>
              Done ([x; y; f_of_Z 0; f_of_Z 0; f_of_Z 1; f_of_Z 0]
                    :: [f_of_Z 0; f_of_Z 0; x; y; f_of_Z 0; f_of_Z 1] :: A,
                    [u] :: [v] :: rhs)
          | OutOfBounds bn i sz => OutOfBounds bn i sz
          end
      end
  end.

(** Line 576: [T = pinv(A) * b]. *)
Definition solve_transform (A rhs : fmat) : fmat := mat_mul (pinv A) rhs 1.

(** *** Validation (lines 578-593) *)

Definition skew_exceeded (T : fmat) : bool :=
  fabs (mat_get T 1 0 + mat_get T 2 0) >? MAR_AUGMENT_MAX_SKEW.

Definition scale_ratio_exceeded (T : fmat) : bool :=
  fabs (mat_get T 0 0 - mat_get T 3 0) >? MAR_AUGMENT_MAX_SCALE_RATIO.

(** *** Commit (lines 595-604) *)

Definition transform_of (T : fmat) : fmat :=
  [[mat_get T 0 0; mat_get T 1 0; mat_get T 4 0];
   [mat_get T 2 0; mat_get T 3 0; mat_get T 5 0];
   [f_of_Z 0; f_of_Z 0; f_of_Z 1]].

(** *** Adding new points (lines 610-665) *)

(** Lines 648-654: the body of [if (k != -1 && best_difference < ...)].  The
    second component is the new value of the loop bound [num_keypoints]. *)
Definition promote (a : mar_augmentation) (q : mar_sift_keypoint)
    (num_keypoints : nat) : mar_augmentation * nat :=
  let cursor := new_keypoint_cursor a in
  let initial1 := array_set (initial_keypoints a) cursor q in
  let '(ox, oy) :=
    apply_matrix (transform_inverse a)
      (kp_x (keypoint_at initial1 cursor)) (kp_y (keypoint_at initial1 cursor)) in
  let moved :=
    {| kp_x := ox; kp_y := oy;
       kp_radius := kp_radius (keypoint_at initial1 cursor);
       kp_angle := kp_angle (keypoint_at initial1 cursor);
       descriptor := descriptor (keypoint_at initial1 cursor) |} in
  let initial2 := array_set initial1 cursor moved in
  let num_keypoints' :=
    if (MAR_MAX_NUMBER_OF_AUGMENTATION_KEYPOINTS <=? num_keypoints)%nat
    then MAR_MAX_NUMBER_OF_AUGMENTATION_KEYPOINTS
    else S num_keypoints in
  (set_new_keypoint_cursor (set_initial_keypoints a initial2)
     ((cursor + 1) mod MAR_MAX_NUMBER_OF_AUGMENTATION_KEYPOINTS)%nat,
   num_keypoints').

(** Lines 636-661.  [unread] is the part of [contained_keypoints] from index
    [j] on; when it is empty, [contained_keypoints[j]] lies past the end of
    the buffer, whose size is [size]. *)
Fixpoint grow_loop (unread : list mar_sift_keypoint) (size j num_keypoints
    new_potential_keypoints : nat) (a : mar_augmentation)
    : run (mar_augmentation * nat) :=
  if ((j <? num_keypoints)%nat
      && (new_potential_keypoints <? MAR_MAX_NUMBER_OF_AUGMENTATION_KEYPOINTS)%nat)%bool
  then
    match unread with
    | [] => OutOfBounds ContainedKeypoints j size
    | q :: rest =>
        let '(_, best_difference) :=
          get_best_keypoint_match q (initial_keypoints a) (num_initial_keypoints a) in
        if best_difference >? MAR_MAX_KEYPOINT_DIFFERENCE then
          let '(k, best_difference) :=
            get_best_keypoint_match q (potential_keypoints a)
              (num_potential_keypoints a) in
          if (negb (k =? -1)%Z
              && (best_difference <? MAR_MAX_KEYPOINT_DIFFERENCE))%bool
          then
            let '(a', num_keypoints') := promote a q num_keypoints in
            grow_loop rest size (S j) num_keypoints' new_potential_keypoints a'
          else
            grow_loop rest size (S j) num_keypoints new_potential_keypoints a
        else
          grow_loop rest size (S j) num_keypoints (S new_potential_keypoints)
            (set_potential_keypoints a
               (array_set (potential_keypoints a) new_potential_keypoints q))
    end
  else Done (a, new_potential_keypoints).

Definition grow_references (mar_sift_keypoints : list mar_sift_keypoint)
    (a : mar_augmentation) : run mar_augmentation :=
  let contained_keypoints := gather_contained a mar_sift_keypoints in
  let num_keypoints := length contained_keypoints in
  match grow_loop contained_keypoints num_keypoints 0 num_keypoints 0 a with
  | Done (a', new_potential_keypoints) =>
      Done (set_num_potential_keypoints a' new_potential_keypoints)
  | OutOfBounds bn i sz => OutOfBounds bn i sz
  end.

(** *** The body of the loop over the augmentations (lines 417-671)

    The result carries the arrays [x], [y], [u], [v], [differences] (they
    are declared outside the loop), the augmentation, and the value stored
    in [mar_augmentation_successful[i]]. *)
Definition update_augmentation (mar_sift_keypoints : list mar_sift_keypoint)
    (b : match_arrays) (a : mar_augmentation)
    : run (match_arrays * mar_augmentation * mar_error_code) :=
  let '(b1, matched_keypoints, a1) := find_matches mar_sift_keypoints b a in
  if (MAR_MIN_NUM_OF_MATCHED_KEYPOINTS <=? matched_keypoints)%nat then
    match build_system b1 0 matched_keypoints with
    | OutOfBounds bn i sz => OutOfBounds bn i sz
    | Done (A, rhs) =>
        let T := solve_transform A rhs in
        if skew_exceeded T then
          Done (b1, a1, MAR_ERROR_TOO_FEW_MATCHING_KEYPOINTS)
        else if scale_ratio_exceeded T then
          Done (b1, a1, MAR_ERROR_TOO_FEW_MATCHING_KEYPOINTS)
        else
          match grow_references mar_sift_keypoints
                  (set_transform a1 (transform_of T)) with
          | Done a2 => Done (b1, a2, MAR_ERROR_NONE)
          | OutOfBounds bn i sz => OutOfBounds bn i sz
          end
    end
  else Done (b1, a1, MAR_ERROR_TOO_FEW_MATCHING_KEYPOINTS).

(** ** The module state (lines 22-74) *)

Record mar_state : Type := {
  mar_augment_initialized : bool;
  mar_run_augmentation : bool;
  mar_mser_calculated_this_frame : bool;
  mar_sift_calculated_this_frame : bool;
  mar_sift_keypoints : list mar_sift_keypoint;
  mar_number_of_augmentations : Z;
  mar_augmentation_initialized : list bool;
  mar_augmentations : list mar_augmentation;
  mar_augmentation_successful : list mar_error_code
}.

Definition zero_augmentation : mar_augmentation :=
  {| mser := {| ellipse_x := f0; ellipse_y := f0; ellipse_a := f0;
                ellipse_b := f0; ellipse_angle := f0 |};
     transform := zero33; transform_inverse := zero33;
     initial_keypoints :=
       repeat zero_keypoint MAR_MAX_NUMBER_OF_AUGMENTATION_KEYPOINTS;
     num_initial_keypoints := 0;
     new_keypoint_cursor := 0;
     potential_keypoints :=
       repeat zero_keypoint MAR_MAX_NUMBER_OF_AUGMENTATION_KEYPOINTS;
     num_potential_keypoints := 0 |}.

Definition augmentation_at (st : mar_state) (i : nat) : mar_augmentation :=
  nth i (mar_augmentations st) zero_augmentation.

Definition slot_initialized (st : mar_state) (i : nat) : bool :=
  nth i (mar_augmentation_initialized st) false.

Definition successful_at (st : mar_state) (i : nat) : mar_error_code :=
  nth i (mar_augmentation_successful st) MAR_ERROR_NONE.

Definition set_frame_flags (st : mar_state) (mser_flag sift_flag : bool) : mar_state :=
  {| mar_augment_initialized := mar_augment_initialized st;
     mar_run_augmentation := mar_run_augmentation st;
     mar_mser_calculated_this_frame := mser_flag;
     mar_sift_calculated_this_frame := sift_flag;
     mar_sift_keypoints := mar_sift_keypoints st;
     mar_number_of_augmentations := mar_number_of_augmentations st;
     mar_augmentation_initialized := mar_augmentation_initialized st;
     mar_augmentations := mar_augmentations st;
     mar_augmentation_successful := mar_augmentation_successful st |}.

Definition set_sift_keypoints (st : mar_state) (ks : list mar_sift_keypoint)
    : mar_state :=
  {| mar_augment_initialized := mar_augment_initialized st;
     mar_run_augmentation := mar_run_augmentation st;
     mar_mser_calculated_this_frame := mar_mser_calculated_this_frame st;
     mar_sift_calculated_this_frame := mar_sift_calculated_this_frame st;
     mar_sift_keypoints := ks;
     mar_number_of_augmentations := mar_number_of_augmentations st;
     mar_augmentation_initialized := mar_augmentation_initialized st;
     mar_augmentations := mar_augmentations st;
     mar_augmentation_successful := mar_augmentation_successful st |}.

Definition set_run_augmentation (st : mar_state) (r : bool) : mar_state :=
  {| mar_augment_initialized := mar_augment_initialized st;
     mar_run_augmentation := r;
     mar_mser_calculated_this_frame := mar_mser_calculated_this_frame st;
     mar_sift_calculated_this_frame := mar_sift_calculated_this_frame st;
     mar_sift_keypoints := mar_sift_keypoints st;
     mar_number_of_augmentations := mar_number_of_augmentations st;
     mar_augmentation_initialized := mar_augmentation_initialized st;
     mar_augmentations := mar_augmentations st;
     mar_augmentation_successful := mar_augmentation_successful st |}.

Definition set_augmentation (st : mar_state) (i : nat) (a : mar_augmentation)
    : mar_state :=
  {| mar_augment_initialized := mar_augment_initialized st;
     mar_run_augmentation := mar_run_augmentation st;
     mar_mser_calculated_this_frame := mar_mser_calculated_this_frame st;
     mar_sift_calculated_this_frame := mar_sift_calculated_this_frame st;
     mar_sift_keypoints := mar_sift_keypoints st;
     mar_number_of_augmentations := mar_number_of_augmentations st;
     mar_augmentation_initialized := mar_augmentation_initialized st;
     mar_augmentations := array_set (mar_augmentations st) i a;
     mar_augmentation_successful := mar_augmentation_successful st |}.

Definition set_successful (st : mar_state) (i : nat) (c : mar_error_code)
    : mar_state :=
  {| mar_augment_initialized := mar_augment_initialized st;
     mar_run_augmentation := mar_run_augmentation st;
     mar_mser_calculated_this_frame := mar_mser_calculated_this_frame st;
     mar_sift_calculated_this_frame := mar_sift_calculated_this_frame st;
     mar_sift_keypoints := mar_sift_keypoints st;
     mar_number_of_augmentations := mar_number_of_augmentations st;
     mar_augmentation_initialized := mar_augmentation_initialized st;
     mar_augmentations := mar_augmentations st;
     mar_augmentation_successful := array_set (mar_augmentation_successful st) i c |}.

Definition set_slot_initialized (st : mar_state) (i : nat) (flag : bool)
    (count : Z) : mar_state :=
  {| mar_augment_initialized := mar_augment_initialized st;
     mar_run_augmentation := mar_run_augmentation st;
     mar_mser_calculated_this_frame := mar_mser_calculated_this_frame st;
     mar_sift_calculated_this_frame := mar_sift_calculated_this_frame st;
     mar_sift_keypoints := mar_sift_keypoints st;
     mar_number_of_augmentations := count;
     mar_augmentation_initialized := array_set (mar_augmentation_initialized st) i flag;
     mar_augmentations := mar_augmentations st;
     mar_augmentation_successful := mar_augmentation_successful st |}.

(** *** mar_augment_update: the loop over the slots (lines 411-673) *)

Fixpoint update_slots (n i : nat) (b : match_arrays) (st : mar_state)
    : run (match_arrays * mar_state) :=
  match n with
  | O => Done (b, st)
  | S n' =>
      if slot_initialized st i then
        match update_augmentation (mar_sift_keypoints st) b (augmentation_at st i) with
        | Done (b', a', code) =>
            update_slots n' (S i) b'
              (set_successful (set_augmentation st i a') i code)
        | OutOfBounds bn ix sz => OutOfBounds bn ix sz
        end
      else update_slots n' (S i) b st
  end.

(** *** mar_augment_update (lines 374-677)

    [camera_update] is the value returned by [mar_camera_update];
    [detector] is the value returned by [mar_sift_get_keypoints] and the
    keypoint array it leaves behind; [b] holds the (uninitialised) local
    arrays. *)
Definition mar_augment_update (camera_update : mar_error_code)
    (detector : mar_error_code * list mar_sift_keypoint)
    (b : match_arrays) (st : mar_state) : run (mar_state * mar_error_code) :=
  if negb (mar_augment_initialized st) then
    Done (st, MAR_ERROR_AUGMENTATION_NOT_INITIALIZED)
  else
    let st1 := set_frame_flags st false false in
    if negb (camera_update =? MAR_ERROR_NONE)%Z then Done (st1, camera_update)
    else if mar_run_augmentation st1 then
      let st2 := set_sift_keypoints st1 (snd detector) in
      if negb (fst detector =? MAR_ERROR_NONE)%Z then Done (st2, fst detector)
      else
        let st3 := set_frame_flags st2 false true in
        match update_slots MAR_MAX_NUMBER_OF_AUGMENTATIONS 0 b st3 with
        | Done (_, st4) => Done (st4, MAR_ERROR_NONE)
        | OutOfBounds bn ix sz => OutOfBounds bn ix sz
        end
    else Done (st1, MAR_ERROR_NONE).

(** ** The public accessors *)

(** mar_start_augmentation, mar_stop_augmentation (lines 333-364). *)
Definition mar_start_augmentation (st : mar_state) : mar_state * mar_error_code :=
  if negb (mar_augment_initialized st)
  then (st, MAR_ERROR_AUGMENTATION_NOT_INITIALIZED)
  else (set_run_augmentation st true, MAR_ERROR_NONE).

Definition mar_stop_augmentation (st : mar_state) : mar_state * mar_error_code :=
  if negb (mar_augment_initialized st)
  then (st, MAR_ERROR_AUGMENTATION_NOT_INITIALIZED)
  else (set_run_augmentation st false, MAR_ERROR_NONE).

(** mar_augment_get_transformation (lines 687-721); [None] when [mat] is not
    written. *)
Definition mar_augment_get_transformation (st : mar_state) (id : nat)
    : mar_error_code * option (list F) :=
  if negb (mar_augment_initialized st)
  then (MAR_ERROR_AUGMENTATION_NOT_INITIALIZED, None)
  else if negb (slot_initialized st id)
  then (MAR_ERROR_AUGMENTATION_ID_DOES_NOT_EXIST, None)
  else
    let t := transform (augmentation_at st id) in
    (MAR_ERROR_NONE,
     Some [mat_get t 0 0; mat_get t 1 0; f_of_Z 0; mat_get t 2 0;
           mat_get t 0 1; mat_get t 1 1; f_of_Z 0; mat_get t 2 1;
           f_of_Z 0; f_of_Z 0; f_of_Z 1; f_of_Z 0;
           mat_get t 0 2; mat_get t 1 2; f_of_Z 0; mat_get t 2 2]).

(** mar_augmentation_get_error (lines 730-734). *)
Definition mar_augmentation_get_error (st : mar_state) (id : nat) : mar_error_code :=
  successful_at st id.

(** mar_augment_transform_point (lines 825-853); [None] when [*tx], [*ty] are
    not written. *)
Definition mar_augment_transform_point (st : mar_state) (id : nat) (x y : F)
    : mar_error_code * option (F * F) :=
  if negb (mar_augment_initialized st)
  then (MAR_ERROR_AUGMENTATION_NOT_INITIALIZED, None)
  else if negb (slot_initialized st id)
  then (MAR_ERROR_AUGMENTATION_ID_DOES_NOT_EXIST, None)
  else (MAR_ERROR_NONE, Some (apply_matrix (transform (augmentation_at st id)) x y)).

(** mar_augment_untransform_point (lines 867-895). *)
Definition mar_augment_untransform_point (st : mar_state) (id : nat) (x y : F)
    : mar_error_code * option (F * F) :=
  if negb (mar_augment_initialized st)
  then (MAR_ERROR_AUGMENTATION_NOT_INITIALIZED, None)
  else if negb (slot_initialized st id)
  then (MAR_ERROR_AUGMENTATION_ID_DOES_NOT_EXIST, None)
  else (MAR_ERROR_NONE,
        Some (apply_matrix (transform_inverse (augmentation_at st id)) x y)).

(** mar_augment_free_augmentation (lines 902-910). *)
Definition mar_augment_free_augmentation (st : mar_state) (id : nat) : mar_state :=
  if slot_initialized st id
  then set_slot_initialized st id false (mar_number_of_augmentations st - 1)%Z
  else st.

(** mar_augment_get_keypoints (lines 960-990), called on the module's own
    [mar_sift_keypoints] and [mar_sift_num_keypoints]. *)
Definition mar_augment_get_keypoints
    (detector : mar_error_code * list mar_sift_keypoint) (st : mar_state)
    : mar_state * mar_error_code :=
  if negb (mar_augment_initialized st)
  then (st, MAR_ERROR_AUGMENTATION_NOT_INITIALIZED)
  else if mar_sift_calculated_this_frame st then (st, MAR_ERROR_NONE)
  else
    let st1 := set_sift_keypoints st (snd detector) in
    if (fst detector =? MAR_ERROR_NONE)%Z
    then (set_frame_flags st1 (mar_mser_calculated_this_frame st1) true,
          MAR_ERROR_NONE)
    else (st1, fst detector).

(** ** mar_augment_new_augmentation (lines 744-812) *)

(** Lines 766-781: the seeding loop.  The state is the augmentation (with its
    cursor) and the local [num_keypoints]. *)
Fixpoint seed_loop (keypoints : list mar_sift_keypoint) (region : mar_mser)
    (a : mar_augmentation) (num_keypoints : nat) : mar_augmentation * nat :=
  match keypoints with
  | [] => (a, num_keypoints)
  | kp :: rest =>
      if is_point_in_ellipse (kp_x kp) (kp_y kp) (ellipse_x region)
           (ellipse_y region) (ellipse_a region) (ellipse_b region)
           (ellipse_angle region)
      then
        let cursor := new_keypoint_cursor a in
        let scale := (ellipse_a (mser a) + ellipse_b (mser a)) / f_of_Z 2 in
        let seeded :=
          {| kp_x := (kp_x kp - ellipse_x (mser a)) / scale;
             kp_y := (kp_y kp - ellipse_y (mser a)) / scale;
             kp_radius := kp_radius kp; kp_angle := kp_angle kp;
             descriptor := descriptor kp |} in
        let num_keypoints' :=
          if (MAR_MAX_NUMBER_OF_AUGMENTATION_KEYPOINTS <=? num_keypoints)%nat
          then MAR_MAX_NUMBER_OF_AUGMENTATION_KEYPOINTS
          else S num_keypoints in
        seed_loop rest region
          (set_new_keypoint_cursor
             (set_initial_keypoints a (array_set (initial_keypoints a) cursor seeded))
             ((cursor + 1) mod MAR_MAX_NUMBER_OF_AUGMENTATION_KEYPOINTS)%nat)
          num_keypoints'
      else seed_loop rest region a num_keypoints
  end.

(** The body of [if (!mar_augmentation_initialized[i])] (lines 760-807). *)
Definition seed_slot (detector : mar_error_code * list mar_sift_keypoint)
    (region : mar_mser) (st : mar_state) (i : nat)
    : mar_state * mar_error_code * option nat :=
  let a := augmentation_at st i in
  let a1 :=
    {| mser := region; transform := transform a;
       transform_inverse := transform_inverse a;
       initial_keypoints := initial_keypoints a;
       num_initial_keypoints := num_initial_keypoints a;
       new_keypoint_cursor := 0;
       potential_keypoints := potential_keypoints a;
       num_potential_keypoints := num_potential_keypoints a |} in
  let st1 := fst (mar_augment_get_keypoints detector (set_augmentation st i a1)) in
  let '(a2, num_keypoints) :=
    seed_loop (mar_sift_keypoints st1) region (augmentation_at st1 i) 0 in
  let a3 :=
    {| mser := mser a2; transform := transform a2;
       transform_inverse := transform_inverse a2;
       initial_keypoints := initial_keypoints a2;
       num_initial_keypoints := num_keypoints;
       new_keypoint_cursor := new_keypoint_cursor a2;
       potential_keypoints := potential_keypoints a2;
       num_potential_keypoints := num_potential_keypoints a2 |} in
  let st2 := set_augmentation st1 i a3 in
  if (num_keypoints <? MAR_MINIMUM_AUGMENTATION_KEYPOINTS)%nat then
    (st2, MAR_ERROR_TOO_FEW_KEYPOINTS, None)
  else
    let st3 := set_slot_initialized st2 i true (mar_number_of_augmentations st2 + 1)%Z in
    let a4 :=
      {| mser := mser a3; transform := zero33;
         transform_inverse := pinv zero33;
         initial_keypoints := initial_keypoints a3;
         num_initial_keypoints := num_initial_keypoints a3;
         new_keypoint_cursor := new_keypoint_cursor a3;
         potential_keypoints := potential_keypoints a3;
         num_potential_keypoints := num_potential_keypoints a3 |} in
    (set_augmentation st3 i a4, MAR_ERROR_NONE, Some i).

(** The search for a free slot (lines 756-811): [i] runs over [n] slots. *)
Fixpoint find_slot_and_seed (n i : nat)
    (detector : mar_error_code * list mar_sift_keypoint)
    (region : mar_mser) (st : mar_state)
    : mar_state * mar_error_code * option nat :=
  match n with
  | O => (st, MAR_ERROR_NO_AUGMENTATION_RESOURCES_AVAILABLE, None)
  | S n' =>
      if negb (slot_initialized st i) then seed_slot detector region st i
      else find_slot_and_seed n' (S i) detector region st
  end.

(** The third component is the value written to [*id], if any. *)
Definition mar_augment_new_augmentation
    (detector : mar_error_code * list mar_sift_keypoint)
    (region : mar_mser) (st : mar_state)
    : mar_state * mar_error_code * option nat :=
  if negb (mar_augment_initialized st)
  then (st, MAR_ERROR_AUGMENTATION_NOT_INITIALIZED, None)
  else find_slot_and_seed MAR_MAX_NUMBER_OF_AUGMENTATIONS 0 detector region st.

(** ** The state left by a successful mar_augment_init

    The registry arrays are static, hence zeroed; [mar_augment_init] sets the
    initialisation flag (line 182). *)
Definition state_after_init : mar_state :=
  {| mar_augment_initialized := true;
     mar_run_augmentation := false;
     mar_mser_calculated_this_frame := false;
     mar_sift_calculated_this_frame := false;
     mar_sift_keypoints := [];
     mar_number_of_augmentations := 0%Z;
     mar_augmentation_initialized := repeat false MAR_MAX_NUMBER_OF_AUGMENTATIONS;
     mar_augmentations := repeat zero_augmentation MAR_MAX_NUMBER_OF_AUGMENTATIONS;
     mar_augmentation_successful := repeat MAR_ERROR_NONE MAR_MAX_NUMBER_OF_AUGMENTATIONS |}.

(** ** Vocabulary of the specification *)

(** The five local arrays have [MAR_MAX_NUM_OF_MATCHED_KEYPOINTS] cells. *)
Definition arrays_wf (b : match_arrays) : Prop :=
  length (arr_x b) = MAR_MAX_NUM_OF_MATCHED_KEYPOINTS
  /\ length (arr_y b) = MAR_MAX_NUM_OF_MATCHED_KEYPOINTS
  /\ length (arr_u b) = MAR_MAX_NUM_OF_MATCHED_KEYPOINTS
  /\ length (arr_v b) = MAR_MAX_NUM_OF_MATCHED_KEYPOINTS
  /\ length (differences b) = MAR_MAX_NUM_OF_MATCHED_KEYPOINTS.

(** The registry arrays have [MAR_MAX_NUMBER_OF_AUGMENTATIONS] cells. *)
Definition registry_wf (st : mar_state) : Prop :=
  length (mar_augmentation_initialized st) = MAR_MAX_NUMBER_OF_AUGMENTATIONS
  /\ length (mar_augmentations st) = MAR_MAX_NUMBER_OF_AUGMENTATIONS
  /\ length (mar_augmentation_successful st) = MAR_MAX_NUMBER_OF_AUGMENTATIONS.

(** The value of [matched_keypoints] when the fit is reached or skipped. *)
Definition counted_matches (mar_sift_keypoints : list mar_sift_keypoint)
    (b : match_arrays) (a : mar_augmentation) : nat :=
  snd (fst (find_matches mar_sift_keypoints b a)).

(** The six parameters [T] computed at line 576, when that line is
    reached. *)
Definition fit_parameters (mar_sift_keypoints : list mar_sift_keypoint)
    (b : match_arrays) (a : mar_augmentation) : option fmat :=
  let '(b1, matched_keypoints, _) := find_matches mar_sift_keypoints b a in
  if (MAR_MIN_NUM_OF_MATCHED_KEYPOINTS <=? matched_keypoints)%nat then
    match build_system b1 0 matched_keypoints with
    | Done (A, rhs) => Some (solve_transform A rhs)
    | OutOfBounds _ _ _ => None
    end
  else None.

(** The fit was made and fails the skew or the scale-ratio bound. *)
Definition fit_rejected (mar_sift_keypoints : list mar_sift_keypoint)
    (b : match_arrays) (a : mar_augmentation) : bool :=
  match fit_parameters mar_sift_keypoints b a with
  | Some T => skew_exceeded T || scale_ratio_exceeded T
  | None => false
  end.

(** An accepted match: [get_best_keypoint_match] did not return [-1]. *)
Definition accepts (a : mar_augmentation) (q : mar_sift_keypoint) : bool :=
  negb (fst (get_best_keypoint_match q (initial_keypoints a)
               (num_initial_keypoints a)) =? -1)%Z.

(** Accepted matches of the pass over the keypoints inside the ellipse; the
    reference descriptors change along the pass, as in [match_contained]. *)
Fixpoint accepted_contained (contained_keypoints : list mar_sift_keypoint)
    (a : mar_augmentation) : nat :=
  match contained_keypoints with
  | [] => 0
  | q :: rest =>
      if accepts a q then
        let k := Z.to_nat (fst (get_best_keypoint_match q (initial_keypoints a)
                                  (num_initial_keypoints a))) in
        let ref := keypoint_at (initial_keypoints a) k in
        S (accepted_contained rest
             (set_initial_keypoints a
                (array_set (initial_keypoints a) k (update_descriptor ref q))))
      else accepted_contained rest a
  end.

(** Accepted matches of the pass over the whole frame. *)
Definition accepted_whole_frame (mar_sift_keypoints : list mar_sift_keypoint)
    (a : mar_augmentation) : nat :=
  length (filter (accepts a) mar_sift_keypoints).

(** Accepted matches of the frame: those of the full-frame pass when it is
    taken, those of the first pass otherwise. *)
Definition accepted_matches (mar_sift_keypoints : list mar_sift_keypoint)
    (b : match_arrays) (a : mar_augmentation) : nat :=
  let contained_keypoints := gather_contained a mar_sift_keypoints in
  let '(_, matched1, a1) :=
    match_contained contained_keypoints (reset_differences b) 0 a in
  if (matched1 <? MAR_MIN_NUM_OF_MATCHED_KEYPOINTS)%nat
  then accepted_whole_frame mar_sift_keypoints a1
  else accepted_contained contained_keypoints a.

(** The references after the pass over the keypoints inside the ellipse:
    each accepted match has replaced the head of a descriptor. *)
Fixpoint drifted (contained_keypoints : list mar_sift_keypoint)
    (a : mar_augmentation) : mar_augmentation :=
  match contained_keypoints with
  | [] => a
  | q :: rest =>
      if accepts a q then
        let k := Z.to_nat (fst (get_best_keypoint_match q (initial_keypoints a)
                                  (num_initial_keypoints a))) in
        let ref := keypoint_at (initial_keypoints a) k in
        drifted rest
          (set_initial_keypoints a
             (array_set (initial_keypoints a) k (update_descriptor ref q)))
      else drifted rest a
  end.

(** A strong match: accepted, at a distance below
    [MAR_MAX_KEYPOINT_DIFFERENCE]. *)
Definition strong (a : mar_augmentation) (q : mar_sift_keypoint) : bool :=
  accepts a q
  && (snd (get_best_keypoint_match q (initial_keypoints a)
             (num_initial_keypoints a)) <? MAR_MAX_KEYPOINT_DIFFERENCE).

(** Strong matches of the pass over the keypoints inside the ellipse. *)
Fixpoint strong_contained (contained_keypoints : list mar_sift_keypoint)
    (a : mar_augmentation) : nat :=
  match contained_keypoints with
  | [] => 0
  | q :: rest =>
      (if strong a q then 1 else 0)%nat + strong_contained rest (drifted [q] a)
  end.

(** Strong matches of the pass over the whole frame. *)
Definition strong_whole_frame (mar_sift_keypoints : list mar_sift_keypoint)
    (a : mar_augmentation) : nat :=
  length (filter (strong a) mar_sift_keypoints).

(** Strong matches of the frame: those of the full-frame pass when the first
    pass has fewer than five, those of the first pass otherwise. *)
Definition strong_matches (mar_sift_keypoints : list mar_sift_keypoint)
    (a : mar_augmentation) : nat :=
  let contained_keypoints := gather_contained a mar_sift_keypoints in
  if (strong_contained contained_keypoints a <? MAR_MIN_NUM_OF_MATCHED_KEYPOINTS)%nat
  then strong_whole_frame mar_sift_keypoints (drifted contained_keypoints a)
  else strong_contained contained_keypoints a.

(** The state of the buffer of differences after [counted] insertions, of
    which [strong_so_far] strong matches were seen: no entry exceeds 2, the
    counter is at most the number of strong matches, and while fewer than
    256 matches were counted the counter is that number and the cells from
    [counted] on still hold 2. *)
Definition buffer_invariant (ds : list F) (counted strong_so_far : nat) : Prop :=
  length ds = MAR_MAX_NUM_OF_MATCHED_KEYPOINTS
  /\ (forall l, (l < MAR_MAX_NUM_OF_MATCHED_KEYPOINTS)%nat ->
        nth l ds f0 = MAR_MAX_KEYPOINT_DIFFERENCE
        \/ fltb (nth l ds f0) MAR_MAX_KEYPOINT_DIFFERENCE = true)
  /\ (counted <= strong_so_far)%nat
  /\ ((counted < MAR_MAX_NUM_OF_MATCHED_KEYPOINTS)%nat ->
      counted = strong_so_far
      /\ forall l, (counted <= l)%nat ->
           (l < MAR_MAX_NUM_OF_MATCHED_KEYPOINTS)%nat ->
           nth l ds f0 = MAR_MAX_KEYPOINT_DIFFERENCE).

(** What a run left in [mar_augmentation_successful[i]] and in
    [mar_augmentations[i]]. *)
Definition outcome_status (r : run (match_arrays * mar_augmentation * mar_error_code))
    : option mar_error_code :=
  match r with
  | Done (_, _, status) => Some status
  | OutOfBounds _ _ _ => None
  end.

Definition outcome_augmentation
    (r : run (match_arrays * mar_augmentation * mar_error_code))
    : option mar_augmentation :=
  match r with
  | Done (_, a, _) => Some a
  | OutOfBounds _ _ _ => None
  end.

(** Entry [i] of the descriptor of reference [k] after a run. *)
Definition reference_descriptor_entry
    (r : run (match_arrays * mar_augmentation * mar_error_code))
    (k i : nat) : option F :=
  match outcome_augmentation r with
  | Some a => Some (nth i (descriptor (keypoint_at (initial_keypoints a) k)) f0)
  | None => None
  end.

(** The test of lines 642-646 under which a keypoint is promoted. *)
Definition promotion_condition (a : mar_augmentation) (q : mar_sift_keypoint)
    : bool :=
  (snd (get_best_keypoint_match q (initial_keypoints a) (num_initial_keypoints a))
     >? MAR_MAX_KEYPOINT_DIFFERENCE)
  && (negb (fst (get_best_keypoint_match q (potential_keypoints a)
                   (num_potential_keypoints a)) =? -1)%Z
      && (snd (get_best_keypoint_match q (potential_keypoints a)
                 (num_potential_keypoints a)) <? MAR_MAX_KEYPOINT_DIFFERENCE)).

(** The status rule as the specification words it: the status is
    [InsufficientMatches] exactly when fewer than five matches were accepted
    or the fitted parameters fail a validation bound. *)
Definition status_rule_as_specified (mar_sift_keypoints : list mar_sift_keypoint)
    (b : match_arrays) (a : mar_augmentation) (status : mar_error_code) : Prop :=
  status = MAR_ERROR_TOO_FEW_MATCHING_KEYPOINTS <->
  (accepted_matches mar_sift_keypoints b a < MAR_MIN_NUM_OF_MATCHED_KEYPOINTS)%nat
  \/ fit_rejected mar_sift_keypoints b a = true.

(** The status rule as the code has it, for an augmentation [a] that a
    completed run turned into [a'] with the recorded [status]: the status is
    [InsufficientMatches] exactly when the frame has fewer than five strong
    matches or the fit was rejected, with both transforms untouched;
    otherwise it is [Ok] and the transform is the fitted one. *)
Definition status_rule_holds (mar_sift_keypoints : list mar_sift_keypoint)
    (b : match_arrays) (a a' : mar_augmentation) (status : mar_error_code)
    : Prop :=
  (status = MAR_ERROR_TOO_FEW_MATCHING_KEYPOINTS <->
   (strong_matches mar_sift_keypoints a < MAR_MIN_NUM_OF_MATCHED_KEYPOINTS)%nat
   \/ fit_rejected mar_sift_keypoints b a = true)
  /\ (status = MAR_ERROR_TOO_FEW_MATCHING_KEYPOINTS ->
      transform a' = transform a
      /\ transform_inverse a' = transform_inverse a)
  /\ (status <> MAR_ERROR_TOO_FEW_MATCHING_KEYPOINTS ->
      status = MAR_ERROR_NONE
      /\ (exists T, fit_parameters mar_sift_keypoints b a = Some T
                    /\ transform a' = transform_of T)
      /\ nth 2 (transform a') [] = [f_of_Z 0; f_of_Z 0; f_of_Z 1]).

(** The same for one call of the loop body.  A run that does not complete
    stops in the loop that adds new points, after the fit was accepted. *)
Definition status_rule_as_implemented
    (mar_sift_keypoints : list mar_sift_keypoint)
    (b : match_arrays) (a : mar_augmentation) : Prop :=
  match update_augmentation mar_sift_keypoints b a with
  | Done (_, a', status) => status_rule_holds mar_sift_keypoints b a a' status
  | OutOfBounds name _ _ =>
      name = ContainedKeypoints
      /\ (MAR_MIN_NUM_OF_MATCHED_KEYPOINTS
          <= strong_matches mar_sift_keypoints a)%nat
      /\ fit_rejected mar_sift_keypoints b a = false
  end.

(** The same for a frame: every initialised slot whose augmentation finds at
    most 256 strong matches obeys the rule, on the keypoints that the
    detector returned. *)
Definition frame_status_rule (camera_update : mar_error_code)
    (detector : mar_error_code * list mar_sift_keypoint)
    (b : match_arrays) (st : mar_state) : Prop :=
  match mar_augment_update camera_update detector b st with
  | Done (st', rc) =>
      rc = MAR_ERROR_NONE
      /\ forall i, (i < MAR_MAX_NUMBER_OF_AUGMENTATIONS)%nat ->
           slot_initialized st i = true ->
           (strong_matches (snd detector) (augmentation_at st i)
            <= MAR_MAX_NUM_OF_MATCHED_KEYPOINTS)%nat ->
           status_rule_holds (snd detector) b (augmentation_at st i)
             (augmentation_at st' i) (successful_at st' i)
  | OutOfBounds _ _ _ => True
  end.

(** Two sets of local arrays that hold the same differences and the same
    first [c] correspondences. *)
Definition arrays_agree (c : nat) (b b' : match_arrays) : Prop :=
  differences b = differences b'
  /\ forall l, (l < c)%nat -> (l < MAR_MAX_NUM_OF_MATCHED_KEYPOINTS)%nat ->
       nth l (arr_x b) f0 = nth l (arr_x b') f0
       /\ nth l (arr_y b) f0 = nth l (arr_y b') f0
       /\ nth l (arr_u b) f0 = nth l (arr_u b') f0
       /\ nth l (arr_v b) f0 = nth l (arr_v b') f0.

(** Both validation bounds are strict: parameters that meet a bound exactly
    are not rejected. *)
Definition bounds_are_strict : Prop :=
  forall T : fmat,
    (fabs (mat_get T 1 0 + mat_get T 2 0) = MAR_AUGMENT_MAX_SKEW ->
     skew_exceeded T = false)
    /\ (fabs (mat_get T 0 0 - mat_get T 3 0) = MAR_AUGMENT_MAX_SCALE_RATIO ->
        scale_ratio_exceeded T = false).

(** The distances of a probe to a sequence of references. *)
Definition distances (q : mar_sift_keypoint) (refs : list mar_sift_keypoint)
    : list F :=
  map (get_keypoint_difference q) refs.

(** [i] is the first index of a smallest element of [ds]. *)
Definition is_first_min (ds : list F) (i : nat) : Prop :=
  (i < length ds)%nat
  /\ (forall j, (j < length ds)%nat -> fleb (nth i ds f0) (nth j ds f0) = true)
  /\ (forall j, (j < i)%nat -> fltb (nth i ds f0) (nth j ds f0) = true).

(** [d2] is a smallest element of [ds] once index [i] is set aside. *)
Definition is_second_smallest (ds : list F) (i : nat) (d2 : F) : Prop :=
  exists j, (j < length ds)%nat /\ j <> i /\ d2 = nth j ds f0
    /\ forall j', (j' < length ds)%nat -> j' <> i -> fleb d2 (nth j' ds f0) = true.

(** What the code holds in [second_best_diff]: the second smallest distance,
    or [FLT_MAX] when there is a single reference. *)
Definition second_or_sentinel (ds : list F) (i : nat) (d2 : F) : Prop :=
  (length ds = 1%nat /\ d2 = FLT_MAX) \/ is_second_smallest ds i d2.

(** A reported distance stands for plus infinity when it exceeds every
    finite float. *)
Definition is_plus_infinity (d : F) : Prop := fltb FLT_MAX d = true.

(** best_match as the specification words it. *)
Definition best_match_as_specified (q : mar_sift_keypoint)
    (refs : list mar_sift_keypoint) : Prop :=
  let r := get_best_keypoint_match q refs (length refs) in
  match refs with
  | [] => fst r = (-1)%Z /\ is_plus_infinity (snd r)
  | _ :: _ =>
      exists i, is_first_min (distances q refs) i
        /\ snd r = nth i (distances q refs) f0
        /\ forall d2, is_second_smallest (distances q refs) i d2 ->
             fst r = if fleb (snd r * MAR_UNIQUE_KEYPOINT_THRESHOLD) d2
                     then Z.of_nat i else (-1)%Z
  end.

(** best_match as the code has it: [FLT_MAX] where the specification has
    plus infinity, for the reported distance of an empty sequence and for
    the second smallest distance of a sequence of one. *)
Definition best_match_with_sentinel (q : mar_sift_keypoint)
    (refs : list mar_sift_keypoint) : Prop :=
  let r := get_best_keypoint_match q refs (length refs) in
  match refs with
  | [] => r = ((-1)%Z, FLT_MAX)
  | _ :: _ =>
      exists i, is_first_min (distances q refs) i
        /\ snd r = nth i (distances q refs) f0
        /\ (exists d2, second_or_sentinel (distances q refs) i d2)
        /\ forall d2, second_or_sentinel (distances q refs) i d2 ->
             fst r = if fleb (snd r * MAR_UNIQUE_KEYPOINT_THRESHOLD) d2
                     then Z.of_nat i else (-1)%Z
  end.

(** The number of keypoints inside the ellipse of a region. *)
Definition count_in_ellipse (keypoints : list mar_sift_keypoint)
    (region : mar_mser) : nat :=
  length (filter (fun kp =>
            is_point_in_ellipse (kp_x kp) (kp_y kp) (ellipse_x region)
              (ellipse_y region) (ellipse_a region) (ellipse_b region)
              (ellipse_angle region)) keypoints).

(** The keypoints that [mar_augment_new_augmentation] sees: the cached ones
    when the detector has run this frame, the detector's otherwise. *)
Definition frame_keypoints (detector : mar_error_code * list mar_sift_keypoint)
    (st : mar_state) : list mar_sift_keypoint :=
  if mar_sift_calculated_this_frame st then mar_sift_keypoints st
  else snd detector.

(** [i] is the first free slot of the registry. *)
Definition first_free_slot (st : mar_state) (i : nat) : Prop :=
  (i < MAR_MAX_NUMBER_OF_AUGMENTATIONS)%nat
  /\ slot_initialized st i = false
  /\ forall j, (j < i)%nat -> slot_initialized st j = true.

(** The registration rule: with [i] the first free slot, the call returns
    [TooFewKeypoints] exactly when fewer than ten keypoints of the frame lie
    in the ellipse, and otherwise succeeds with id [i]; with no free slot it
    returns [NoResources]. *)
Definition registration_rule (detector : mar_error_code * list mar_sift_keypoint)
    (region : mar_mser) (st : mar_state) : Prop :=
  let inside := count_in_ellipse (frame_keypoints detector st) region in
  let '(st', code, id) := mar_augment_new_augmentation detector region st in
  (forall i, first_free_slot st i ->
     (code = MAR_ERROR_TOO_FEW_KEYPOINTS <->
      (inside < MAR_MINIMUM_AUGMENTATION_KEYPOINTS)%nat)
     /\ ((inside < MAR_MINIMUM_AUGMENTATION_KEYPOINTS)%nat ->
         id = None /\ slot_initialized st' i = false)
     /\ ((MAR_MINIMUM_AUGMENTATION_KEYPOINTS <= inside)%nat ->
         code = MAR_ERROR_NONE /\ id = Some i /\ slot_initialized st' i = true))
  /\ ((forall i, (i < MAR_MAX_NUMBER_OF_AUGMENTATIONS)%nat ->
                 slot_initialized st i = true) ->
      code = MAR_ERROR_NO_AUGMENTATION_RESOURCES_AVAILABLE
      /\ id = None /\ st' = st).

(** The fields that the matching passes leave alone. *)
Definition same_tracking_fields (a a' : mar_augmentation) : Prop :=
  mser a' = mser a
  /\ transform a' = transform a
  /\ transform_inverse a' = transform_inverse a
  /\ num_initial_keypoints a' = num_initial_keypoints a
  /\ new_keypoint_cursor a' = new_keypoint_cursor a
  /\ potential_keypoints a' = potential_keypoints a
  /\ num_potential_keypoints a' = num_potential_keypoints a.

(** The fields that the loop adding new points leaves alone. *)
Definition same_fit_fields (a a' : mar_augmentation) : Prop :=
  mser a' = mser a /\ transform a' = transform a
  /\ transform_inverse a' = transform_inverse a
  /\ num_initial_keypoints a' = num_initial_keypoints a
  /\ num_potential_keypoints a' = num_potential_keypoints a.

(** The loop of [get_best_keypoint_match] seen on the list of distances,
    and what it keeps true of the part [pre] of that list already read. *)
Fixpoint distance_loop (ds : list F) (i : nat) (best_i : Z)
    (best_diff second_best_diff : F) : Z * F * F :=
  match ds with
  | [] => (best_i, best_diff, second_best_diff)
  | difference :: rest =>
      if difference <? best_diff then
        distance_loop rest (S i) (Z.of_nat i) difference best_diff
      else if difference <? second_best_diff then
        distance_loop rest (S i) best_i best_diff difference
      else
        distance_loop rest (S i) best_i best_diff second_best_diff
  end.

Definition tracked (pre : list F) (best_i : Z) (best_diff second_best_diff : F)
    : Prop :=
  exists i, best_i = Z.of_nat i /\ is_first_min pre i
    /\ best_diff = nth i pre f0
    /\ second_or_sentinel pre i second_best_diff.

End Tracker.

End Numeric.

(** ** The ellipse predicate over the reals *)

Module Ellipse.

Local Open Scope R_scope.

(** The rotation of the plane by the angle [phi]. *)
Definition rotate (phi x y : R) : R * R :=
  (cos phi * x - sin phi * y, sin phi * x + cos phi * y).


(** The factor applied to the angle at line 273. *)
Definition axis_factor (a b : R) : R := if Rlt_dec b a then 1 else -1.

(** The point, moved by [-(cx, cy)] and rotated by [phi], satisfies the
    strict inequality of the ellipse with axes [2a] and [2b]. *)
Definition inside_after_rotation (phi px py cx cy a b : R) : Prop :=
  let '(rx, ry) := rotate phi (px - cx) (py - cy) in
  rx * rx / ((2 * a) * (2 * a)) + ry * ry / ((2 * b) * (2 * b)) < 1.


End Ellipse.

(** ** Concrete frames, over the rationals *)

Module Frames.

(** A descriptor with the value [c] at index [i], [d] at index [j] and [0]
    elsewhere. *)
Definition descriptor_with (i : nat) (c : Q) (j : nat) (d : Q) : list Q :=
  map (fun n => if n =? i then c else if n =? j then d else 0%Q) (seq 0 128).

Definition keypoint (x y : Z) (desc : list Q) : mar_sift_keypoint :=
  {| kp_x := inject_Z x; kp_y := inject_Z y; kp_radius := 1%Q; kp_angle := 0%Q;
     descriptor := desc |}.

(** The [i]-th of the keypoints used to register a region: its descriptor
    has the single entry [100] at index [i]. *)
Definition seed (x0 y0 : Z) (i : nat) : mar_sift_keypoint :=
  keypoint (x0 + 2 * Z.of_nat i) (y0 + Z.of_nat (i mod 3))
    (descriptor_with i 100%Q 127 0%Q).

(** A pseudo-inverse that answers the zero 3x3 matrix; it agrees with the
    Moore-Penrose pseudo-inverse on the zero matrix. *)
Definition pinv_stub : fmat (F := Q) -> fmat (F := Q) := fun _ => zero33.

(** Some content for the local arrays on entry. *)
Definition stale_arrays : match_arrays (F := Q) :=
  {| arr_x := repeat 0%Q 256; arr_y := repeat 0%Q 256;
     arr_u := repeat 0%Q 256; arr_v := repeat 0%Q 256;
     differences := repeat 0%Q 256 |}.

(** *** A region away from the origin: centre (100, 100), a = b = 20 *)

Definition region_far : mar_mser (F := Q) :=
  {| ellipse_x := 100%Q; ellipse_y := 100%Q; ellipse_a := 20%Q;
     ellipse_b := 20%Q; ellipse_angle := 0%Q |}.

Definition seeds_far : list (mar_sift_keypoint (F := Q)) :=
  map (seed 90 100) (seq 0 10).

Definition registered_far_state : mar_state (F := Q) :=
  Eval vm_compute in
    fst (fst (mar_augment_new_augmentation pinv_stub (MAR_ERROR_NONE, seeds_far)
                region_far state_after_init)).

Definition registered_far : mar_augmentation (F := Q) :=
  Eval vm_compute in augmentation_at registered_far_state 0.

(** The module once the augmentation is started (lines 333-345). *)
Definition running_far_state : mar_state (F := Q) :=
  Eval vm_compute in fst (mar_start_augmentation registered_far_state).

(** Five keypoints, each at distance 3 from one reference and at distance
    203 from the others. *)
Definition frame_weak : list (mar_sift_keypoint (F := Q)) :=
  map (fun i => keypoint (90 + 2 * Z.of_nat i) (100 + Z.of_nat (i mod 3))
                  (descriptor_with i 100%Q (i + 20) 3%Q)) (seq 0 5).

(** One keypoint at distance 1 from reference 0, then 256 keypoints at
    distance 0 from it. *)
Definition frame_257 : list (mar_sift_keypoint (F := Q)) :=
  keypoint 90 100 (descriptor_with 0 100%Q 20 1%Q)
  :: map (fun i => keypoint (Z.of_nat i) 101 (descriptor_with 0 100%Q 20 0%Q))
       (seq 0 256).

(** *** A region around the origin: centre (10, 10), a = b = 20 *)

Definition region_near : mar_mser (F := Q) :=
  {| ellipse_x := 10%Q; ellipse_y := 10%Q; ellipse_a := 20%Q;
     ellipse_b := 20%Q; ellipse_angle := 0%Q |}.

Definition seeds_near : list (mar_sift_keypoint (F := Q)) :=
  map (seed 0 10) (seq 0 10).

Definition registered_near_state : mar_state (F := Q) :=
  Eval vm_compute in
    fst (fst (mar_augment_new_augmentation pinv_stub (MAR_ERROR_NONE, seeds_near)
                region_near state_after_init)).

Definition registered_near : mar_augmentation (F := Q) :=
  Eval vm_compute in augmentation_at registered_near_state 0.

(** A keypoint that differs from reference 0 by 1 at index 5 and by 1 at
    index 40 of the descriptor. *)
Definition probe_drift : mar_sift_keypoint (F := Q) :=
  {| kp_x := 3%Q; kp_y := 11%Q; kp_radius := 1%Q; kp_angle := 0%Q;
     descriptor :=
       map (fun n => if n =? 0 then 100%Q else if n =? 5 then 1%Q
                     else if n =? 40 then 1%Q else 0%Q) (seq 0 128) |}.

(** First frame: the first five seeds again, and a keypoint at distance 3/2
    from reference 5. *)
Definition frame_first : list (mar_sift_keypoint (F := Q)) :=
  map (seed 0 10) (seq 0 5)
  ++ [keypoint 10 12 (descriptor_with 5 100%Q 40 (3 # 2)%Q)].

(** The augmentation and the arrays after [frame_first], whatever transform
    [t] the fit of that frame committed. *)
Definition after_first : mar_augmentation (F := Q) :=
  Eval vm_compute in
    match update_augmentation pinv_stub frame_first stale_arrays registered_near with
    | Done (_, a, _) => a
    | OutOfBounds _ _ _ => registered_near
    end.

Definition tracked_near (t : fmat (F := Q)) : mar_augmentation (F := Q) :=
  set_transform after_first t.

Definition arrays_after_first : match_arrays (F := Q) :=
  Eval vm_compute in
    match update_augmentation pinv_stub frame_first stale_arrays registered_near with
    | Done (b, _, _) => b
    | OutOfBounds _ _ _ => stale_arrays
    end.

(** Second frame: a keypoint at distance 3 from reference 5 and at distance
    3/2 from the last keypoint of [frame_first], then the first five seeds. *)
Definition candidate : mar_sift_keypoint (F := Q) :=
  keypoint 10 12 (descriptor_with 5 100%Q 40 3%Q).

Definition frame_second : list (mar_sift_keypoint (F := Q)) :=
  candidate :: map (seed 0 10) (seq 0 5).

(** The least-squares system of [frame_second]. *)
Definition system_second : fmat (F := Q) * fmat (F := Q) :=
  ([[(-20 # 40)%Q; (0 # 40)%Q; 0%Q; 0%Q; 1%Q; 0%Q];
    [0%Q; 0%Q; (-20 # 40)%Q; (0 # 40)%Q; 0%Q; 1%Q];
    [(-16 # 40)%Q; (2 # 40)%Q; 0%Q; 0%Q; 1%Q; 0%Q];
    [0%Q; 0%Q; (-16 # 40)%Q; (2 # 40)%Q; 0%Q; 1%Q];
    [(-12 # 40)%Q; (4 # 40)%Q; 0%Q; 0%Q; 1%Q; 0%Q];
    [0%Q; 0%Q; (-12 # 40)%Q; (4 # 40)%Q; 0%Q; 1%Q];
    [(-8 # 40)%Q; (0 # 40)%Q; 0%Q; 0%Q; 1%Q; 0%Q];
    [0%Q; 0%Q; (-8 # 40)%Q; (0 # 40)%Q; 0%Q; 1%Q];
    [(-4 # 40)%Q; (2 # 40)%Q; 0%Q; 0%Q; 1%Q; 0%Q];
    [0%Q; 0%Q; (-4 # 40)%Q; (2 # 40)%Q; 0%Q; 1%Q]],
   [[0%Q]; [10%Q]; [2%Q]; [11%Q]; [4%Q]; [12%Q]; [6%Q]; [10%Q]; [8%Q]; [11%Q]]).

End Frames.

(** * The rest of the library

    The augmentation registry and its buffers seen from their callers, the
    SIFT and MSER detectors (vision/mar_sift.c, vision/mar_mser.c), the
    camera registry, the buffer mapping and the frame conversion of the
    V4L2 camera (camera/mar_camera.c, camera/mar_v4l2_mmap_camera.c) and
    the time arithmetic of the visualizer (visualizer/lighthouse.c).

    The libraries these files call (vlfeat, libc's allocator, the V4L2
    driver) are not part of the embedding: what they answer is an argument
    of the function that calls them. *)

(** ** Vocabulary for the tracker's buffers and registry *)

Section TrackerVocabulary.

Context {F : Type} {FO : FloatOps F}.
Local Open Scope float_scope.

(** [ds] is in ascending order: no cell is smaller than an earlier one. *)
Definition ascending (ds : list F) : Prop :=
  forall l l' : nat, (l <= l')%nat -> (l' < length ds)%nat ->
    fleb (nth l ds f0) (nth l' ds f0) = true.

(** The keypoint is inside the ellipse of the region (the test of lines
    768-769). *)
Definition in_region (region : mar_mser (F := F)) (kp : mar_sift_keypoint (F := F)) : bool :=
  is_point_in_ellipse (kp_x kp) (kp_y kp) (ellipse_x region) (ellipse_y region)
    (ellipse_a region) (ellipse_b region) (ellipse_angle region).

(** A keypoint of the frame as the seeding loop stores it: moved by the
    centre of the ellipse and divided by the mean of its axes. *)
Definition seeded_reference (region : mar_mser (F := F))
    (kp : mar_sift_keypoint (F := F)) : mar_sift_keypoint (F := F) :=
  {| kp_x := (kp_x kp - ellipse_x region)
             / ((ellipse_a region + ellipse_b region) / f_of_Z 2);
     kp_y := (kp_y kp - ellipse_y region)
             / ((ellipse_a region + ellipse_b region) / f_of_Z 2);
     kp_radius := kp_radius kp; kp_angle := kp_angle kp;
     descriptor := descriptor kp |}.

(** The keypoints of the frame that [mar_augment_new_augmentation] finds
    inside the ellipse of the region, in the order of the frame. *)
Definition inside_keypoints (detector : mar_error_code * list mar_sift_keypoint)
    (region : mar_mser (F := F)) (st : mar_state (F := F))
    : list (mar_sift_keypoint (F := F)) :=
  filter (in_region region) (frame_keypoints detector st).

(** The number of slots whose flag is set. *)
Definition initialised_slots (st : mar_state (F := F)) : nat :=
  length (filter (fun flag : bool => flag) (mar_augmentation_initialized st)).

(** [mar_number_of_augmentations] counts the slots in use. *)
Definition count_invariant (st : mar_state (F := F)) : Prop :=
  mar_number_of_augmentations st = Z.of_nat (initialised_slots st).

(** Every slot holds its two arrays of
    [MAR_MAX_NUMBER_OF_AUGMENTATION_KEYPOINTS] keypoints. *)
Definition slots_wf (st : mar_state (F := F)) : Prop :=
  forall i : nat,
    length (initial_keypoints (augmentation_at st i))
    = MAR_MAX_NUMBER_OF_AUGMENTATION_KEYPOINTS
    /\ length (potential_keypoints (augmentation_at st i))
       = MAR_MAX_NUMBER_OF_AUGMENTATION_KEYPOINTS.

(** What a frame leaves alone in the registry: the module flags other than
    the two per-frame ones, the slot flags and their count, and in every
    slot the region, the inverse transform and the number of references; a
    slot that is not in use keeps its augmentation and its status. *)
Definition frame_keeps (st st' : mar_state (F := F)) : Prop :=
  mar_augment_initialized st' = mar_augment_initialized st
  /\ mar_run_augmentation st' = mar_run_augmentation st
  /\ mar_augmentation_initialized st' = mar_augmentation_initialized st
  /\ mar_number_of_augmentations st' = mar_number_of_augmentations st
  /\ forall i : nat,
       mser (augmentation_at st' i) = mser (augmentation_at st i)
       /\ transform_inverse (augmentation_at st' i)
          = transform_inverse (augmentation_at st i)
       /\ num_initial_keypoints (augmentation_at st' i)
          = num_initial_keypoints (augmentation_at st i)
       /\ (slot_initialized st i = false ->
           augmentation_at st' i = augmentation_at st i
           /\ successful_at st' i = successful_at st i).

(** The per-frame flags and the keypoints that the loop over the slots
    leaves as they are. *)
Definition same_frame_data (st st' : mar_state (F := F)) : Prop :=
  mar_mser_calculated_this_frame st' = mar_mser_calculated_this_frame st
  /\ mar_sift_calculated_this_frame st' = mar_sift_calculated_this_frame st
  /\ mar_sift_keypoints st' = mar_sift_keypoints st.

(** The 4x4 column-major matrix of the affine map with the linear part
    [m00 m01; m10 m11] and the translation [(m02, m12)], the third axis left
    as it is. *)
Definition affine_4x4 (m00 m01 m02 m10 m11 m12 : F) : list F :=
  [m00; m10; f_of_Z 0; f_of_Z 0;
   m01; m11; f_of_Z 0; f_of_Z 0;
   f_of_Z 0; f_of_Z 0; f_of_Z 1; f_of_Z 0;
   m02; m12; f_of_Z 0; f_of_Z 1].

(** The matrix that is all zero but for the third axis. *)
Definition zero_4x4 : list F :=
  [f_of_Z 0; f_of_Z 0; f_of_Z 0; f_of_Z 0;
   f_of_Z 0; f_of_Z 0; f_of_Z 0; f_of_Z 0;
   f_of_Z 0; f_of_Z 0; f_of_Z 1; f_of_Z 0;
   f_of_Z 0; f_of_Z 0; f_of_Z 0; f_of_Z 0].

End TrackerVocabulary.

(** Concrete frames for the registry, over the rationals. *)

Module Sessions.

(** The module of [Frames.registered_near_state], started. *)
Definition running_near_state : mar_state (F := Q) :=
  Eval vm_compute in fst (mar_start_augmentation Frames.registered_near_state).

(** The state after the frame [Frames.frame_first]. *)
Definition after_first_state : mar_state (F := Q) :=
  Eval vm_compute in
    match mar_augment_update Frames.pinv_stub MAR_ERROR_NONE
            (MAR_ERROR_NONE, Frames.frame_first) Frames.stale_arrays
            running_near_state with
    | Done (st', _) => st'
    | OutOfBounds _ _ _ => running_near_state
    end.

End Sessions.

(** ** Faults of the detectors and of the cameras

    The blocks these modules read and write are sized at run time.  An
    access to one of them past its end, or through a null pointer (a block
    of size 0), is undefined behaviour in C and ends the run. *)

Inductive buffer : Type :=
  | FrameBuffer
  | SiftImage
  | SiftFilter
  | SiftKeypoints
  | MserImage
  | MserFilter
  | MserRegions
  | MserEllipsoids
  | MmapBuffer
  | MmapTable
  | CameraTable
  | CameraObject.

Inductive checked (A : Type) : Type :=
  | Returns (a : A)
  | Faults (what : buffer) (index size : nat).

Arguments Returns {A} a.
Arguments Faults {A} what index size.

Definition MAR_ERROR_MALLOC : mar_error_code := 7%Z.
Definition MAR_ERROR_CAM_TYPE_NOT_SUPPORTED : mar_error_code := 24%Z.
Definition MAR_ERROR_NO_CAMERAS_AVAILABLE : mar_error_code := 25%Z.
Definition MAR_ERROR_MSER_FILTER_NOT_CREATED : mar_error_code := 26%Z.
Definition MAR_ERROR_SIFT_FILTER_NOT_CREATED : mar_error_code := 27%Z.

Definition MAR_SIFT_DEFAULT_NUMBER_OF_KEYPOINTS : nat := 1024.
Definition MAR_MSER_DEFAULT_NUMBER_OF_REGIONS : nat := 256.

(** The size of a block: 0 for the null pointer. *)
Definition block_size (block : option nat) : nat :=
  match block with
  | Some size => size
  | None => 0
  end.

(** The loop that builds the grey image (mar_sift.c lines 250-254,
    mar_mser.c lines 312-316): iteration [i] reads
    [frame_buffer[3i]], [frame_buffer[3i+1]], [frame_buffer[3i+2]] and
    writes cell [i] of the image. *)
Fixpoint gray_loop (image : buffer) (n i frame_length image_length : nat)
    : checked unit :=
  match n with
  | O => Returns tt
  | S n' =>
      if frame_length <? 3 * i + 3
      then Faults FrameBuffer (Nat.max frame_length (3 * i)) frame_length
      else if image_length <=? i then Faults image i image_length
      else gray_loop image n' (S i) frame_length image_length
  end.

(** ** The SIFT detector (vision/mar_sift.c) *)

Section Sift.

Context {F : Type} {FO : FloatOps F}.

(** vlfeat's [VlSiftKeypoint], the fields that the code reads. *)
Record VlSiftKeypoint : Type := {
  vl_x : F;
  vl_y : F;
  vl_s : F;
  vl_sigma : F
}.

(** What vlfeat answers for one detected point: the point and, for each
    orientation that [vl_sift_calc_keypoint_orientations] finds, the angle
    and the descriptor that [vl_sift_calc_keypoint_descriptor] computes. *)
Definition vl_detection : Type := VlSiftKeypoint * list (F * list F).

(** The statics of the file (lines 14-25): whether the filter exists, the
    two blocks (null, or their size in cells) and the recorded size of the
    keypoint buffer. *)
Record sift_module : Type := {
  sift_filter : bool;
  sift_image_buffer : option nat;
  sift_image_width : Z;
  sift_image_height : Z;
  sift_keypoints : option nat;
  sift_keypoints_size : nat
}.

(** The statics when the program starts. *)
Definition sift_static : sift_module :=
  {| sift_filter := false; sift_image_buffer := None;
     sift_image_width := 0%Z; sift_image_height := 0%Z;
     sift_keypoints := None;
     sift_keypoints_size := MAR_SIFT_DEFAULT_NUMBER_OF_KEYPOINTS |}.

(** mar_sift_new (lines 43-66).  [image_block] and [keypoints_block] tell
    whether the two calls of [malloc] succeed, [filter] whether
    [vl_sift_new] answers a filter. *)
Definition mar_sift_new (width height : Z)
    (image_block filter keypoints_block : bool) (m : sift_module)
    : sift_module * mar_error_code :=
  let m1 :=
    {| sift_filter := sift_filter m;
       sift_image_buffer :=
         if image_block then Some (Z.to_nat (width * height)) else None;
       sift_image_width := width; sift_image_height := height;
       sift_keypoints := sift_keypoints m;
       sift_keypoints_size := sift_keypoints_size m |} in
  if negb image_block then (m1, MAR_ERROR_MALLOC)
  else
    let m2 :=
      {| sift_filter := filter;
         sift_image_buffer := sift_image_buffer m1;
         sift_image_width := width; sift_image_height := height;
         sift_keypoints :=
           if keypoints_block then Some MAR_SIFT_DEFAULT_NUMBER_OF_KEYPOINTS
           else None;
         sift_keypoints_size := sift_keypoints_size m |} in
    if negb keypoints_block then (m2, MAR_ERROR_MALLOC)
    else (m2, MAR_ERROR_NONE).

(** mar_sift_free (lines 71-91). *)
Definition mar_sift_free (m : sift_module) : sift_module :=
  {| sift_filter := false; sift_image_buffer := None;
     sift_image_width := sift_image_width m;
     sift_image_height := sift_image_height m;
     sift_keypoints := None;
     sift_keypoints_size := sift_keypoints_size m |}.

(** The keypoint written at lines 289-293 for one orientation of a point:
    the position, [s] as the radius, [sigma] as the angle, and the whole
    descriptor. *)
Definition sift_keypoint_of (point : VlSiftKeypoint) (descriptors : list F)
    : mar_sift_keypoint :=
  {| kp_x := vl_x point; kp_y := vl_y point;
     kp_radius := vl_s point; kp_angle := vl_sigma point;
     descriptor :=
       memcpy_descriptor [] descriptors
         (MAR_SIFT_NBO * MAR_SIFT_NBP * MAR_SIFT_NBP * sizeof_float) |}.

(** Lines 282-295: the loop over the orientations of one point.
    [written] holds [sift_keypoints[0 .. *num_keypoints - 1]]. *)
Fixpoint sift_add_orientations (point : VlSiftKeypoint)
    (orientations : list (F * list F)) (capacity : nat)
    (written : list mar_sift_keypoint) : checked (list mar_sift_keypoint) :=
  match orientations with
  | [] => Returns written
  | (_, descriptors) :: rest =>
      if (length written <? capacity)%nat then
        sift_add_orientations point rest capacity
          (written ++ [sift_keypoint_of point descriptors])
      else Faults SiftKeypoints (length written) capacity
  end.

(** Lines 279-296: the loop over the points of an octave. *)
Fixpoint sift_add_points (points : list vl_detection) (capacity : nat)
    (written : list mar_sift_keypoint) : checked (list mar_sift_keypoint) :=
  match points with
  | [] => Returns written
  | (point, orientations) :: rest =>
      match sift_add_orientations point orientations capacity written with
      | Returns written' => sift_add_points rest capacity written'
      | Faults what index size => Faults what index size
      end
  end.

(** Lines 259-299: the loop over the octaves.  [realloc n] tells whether
    the reallocation to [n] keypoints succeeds.  The result carries the
    statics, the returned code and the cells written; on [MAR_ERROR_MALLOC]
    the caller's pointer is not assigned and [*num_keypoints] is the number
    of cells written so far. *)
Fixpoint sift_octaves (octaves : list (list vl_detection))
    (realloc : nat -> bool) (m : sift_module)
    (written : list mar_sift_keypoint)
    : checked (sift_module * mar_error_code * list mar_sift_keypoint) :=
  match octaves with
  | [] => Returns (m, MAR_ERROR_NONE, written)
  | points :: rest =>
      let needed := (length written + length points * 4)%nat in
      if (sift_keypoints_size m <? needed)%nat then
        let m1 :=
          {| sift_filter := sift_filter m;
             sift_image_buffer := sift_image_buffer m;
             sift_image_width := sift_image_width m;
             sift_image_height := sift_image_height m;
             sift_keypoints := if realloc needed then Some needed else None;
             sift_keypoints_size := needed |} in
        if realloc needed then
          match sift_add_points points needed written with
          | Returns written' => sift_octaves rest realloc m1 written'
          | Faults what index size => Faults what index size
          end
        else Returns (m1, MAR_ERROR_MALLOC, written)
      else
        match sift_add_points points (block_size (sift_keypoints m)) written with
        | Returns written' => sift_octaves rest realloc m written'
        | Faults what index size => Faults what index size
        end
  end.

(** mar_sift_get_keypoints (lines 242-304).  [frame_length] is the size of
    the camera's frame buffer; [octaves] is what vlfeat detects, octave by
    octave, until it answers [VL_ERR_EOF]. *)
Definition mar_sift_get_keypoints (frame_length : nat)
    (octaves : list (list vl_detection)) (realloc : nat -> bool)
    (m : sift_module)
    : checked (sift_module * mar_error_code * list mar_sift_keypoint) :=
  match gray_loop SiftImage
          (Z.to_nat (sift_image_width m * sift_image_height m)) 0 frame_length
          (block_size (sift_image_buffer m)) with
  | Faults what index size => Faults what index size
  | Returns _ =>
      if sift_filter m then sift_octaves octaves realloc m []
      else Faults SiftFilter 0 0
  end.

(** *** Vocabulary *)

(** The keypoints of one detected point: one for each of its orientations,
    with the position of the point, its [s] as the radius, its [sigma] as
    the angle and the 128 floats of the descriptor of that orientation. *)
Definition keypoints_of_point (detection : vl_detection)
    : list mar_sift_keypoint :=
  map (fun orientation : F * list F =>
         {| kp_x := vl_x (fst detection); kp_y := vl_y (fst detection);
            kp_radius := vl_s (fst detection);
            kp_angle := vl_sigma (fst detection);
            descriptor :=
              map (fun i : nat => nth i (snd orientation) f0)
                (seq 0 (MAR_SIFT_NBO * MAR_SIFT_NBP * MAR_SIFT_NBP)) |})
    (snd detection).

(** The keypoints of a detection, octave by octave and point by point. *)
Definition detected_keypoints (octaves : list (list vl_detection))
    : list mar_sift_keypoint :=
  flat_map (flat_map keypoints_of_point) octaves.

(** The number of orientations of the points of an octave. *)
Definition orientation_count (points : list vl_detection) : nat :=
  length (flat_map (fun detection : vl_detection => snd detection) points).

(** vlfeat finds at most four orientations for a point. *)
Definition at_most_four_orientations (octaves : list (list vl_detection)) : Prop :=
  Forall (Forall (fun detection : vl_detection =>
                    (length (snd detection) <= 4)%nat)) octaves.

(** The module as [mar_sift_new] leaves it and as
    [mar_sift_get_keypoints] keeps it: the filter exists, the image block
    holds a cell for every pixel, and the keypoint block is at least as
    large as its recorded size. *)
Definition sift_ready (m : sift_module) : Prop :=
  sift_filter m = true
  /\ sift_image_buffer m
     = Some (Z.to_nat (sift_image_width m * sift_image_height m))
  /\ exists capacity : nat,
       sift_keypoints m = Some capacity
       /\ (sift_keypoints_size m <= capacity)%nat.

(** The frame buffer holds three bytes for every pixel of the image. *)
Definition frame_fits (frame_length : nat) (width height : Z) : Prop :=
  (3 * Z.to_nat (width * height) <= frame_length)%nat.

End Sift.

(** ** The MSER detector (vision/mar_mser.c) *)

Definition MAR_ELLIPSE_MEAN_X : nat := 0.
Definition MAR_ELLIPSE_MEAN_Y : nat := 1.
Definition MAR_ELLIPSE_VARIANCE_X : nat := 2.
Definition MAR_ELLIPSE_VARIANCE_Y : nat := 4.
Definition MAR_ELLIPSE_COVARIANCE : nat := 3.

(** The statics of the file (lines 18-29). *)
Record mser_module : Type := {
  mser_filter : bool;
  mser_image_buffer : option nat;
  mser_image_width : Z;
  mser_image_height : Z;
  mser_regions : option nat;
  mser_regions_size : nat
}.

Definition mser_static : mser_module :=
  {| mser_filter := false; mser_image_buffer := None;
     mser_image_width := 0%Z; mser_image_height := 0%Z;
     mser_regions := None;
     mser_regions_size := MAR_MSER_DEFAULT_NUMBER_OF_REGIONS |}.

(** mar_mser_new (lines 39-66). *)
Definition mar_mser_new (width height : Z)
    (image_block filter regions_block : bool) (m : mser_module)
    : mser_module * mar_error_code :=
  let m1 :=
    {| mser_filter := mser_filter m;
       mser_image_buffer :=
         if image_block then Some (Z.to_nat (width * height)) else None;
       mser_image_width := width; mser_image_height := height;
       mser_regions := mser_regions m;
       mser_regions_size := mser_regions_size m |} in
  if negb image_block then (m1, MAR_ERROR_MALLOC)
  else
    let m2 :=
      {| mser_filter := filter;
         mser_image_buffer := mser_image_buffer m1;
         mser_image_width := width; mser_image_height := height;
         mser_regions :=
           if regions_block then Some MAR_MSER_DEFAULT_NUMBER_OF_REGIONS
           else None;
         mser_regions_size := mser_regions_size m |} in
    if negb regions_block then (m2, MAR_ERROR_MALLOC)
    else (m2, MAR_ERROR_NONE).

(** mar_mser_free (lines 71-91). *)
Definition mar_mser_free (m : mser_module) : mser_module :=
  {| mser_filter := false; mser_image_buffer := None;
     mser_image_width := mser_image_width m;
     mser_image_height := mser_image_height m;
     mser_regions := None;
     mser_regions_size := mser_regions_size m |}.

Section Mser.

Context {F : Type} {FO : FloatOps F}.
Local Open Scope float_scope.

(** [sqrt] and [atan2f] of libm. *)
Variable fsqrt : F -> F.
Variable fatan2 : F -> F -> F.

(** Lines 340-347 (and 378-385): the region written at index [i], read
    from the cells [5i .. 5i+4] of the array that [vl_mser_get_ell]
    answered, given as the content of the memory at that pointer. *)
Definition region_at (ellipsoids : nat -> F) (i : nat) : mar_mser :=
  let xx := ellipsoids (i * 5 + MAR_ELLIPSE_VARIANCE_X)%nat in
  let yy := ellipsoids (i * 5 + MAR_ELLIPSE_VARIANCE_Y)%nat in
  let xy := ellipsoids (i * 5 + MAR_ELLIPSE_COVARIANCE)%nat in
  let half := f_of_Z 1 / f_of_Z 2 in
  {| ellipse_x := ellipsoids (i * 5 + MAR_ELLIPSE_MEAN_X)%nat;
     ellipse_y := ellipsoids (i * 5 + MAR_ELLIPSE_MEAN_Y)%nat;
     ellipse_a :=
       fsqrt (half * (xx + yy
                      + fsqrt ((xx - yy) * (xx - yy) + f_of_Z 4 * xy * xy)));
     ellipse_b :=
       fsqrt (half * (xx + yy
                      - fsqrt ((xx - yy) * (xx - yy) + f_of_Z 4 * xy * xy)));
     ellipse_angle :=
       f_of_Z (-1) * half * fatan2 (f_of_Z 2 * xy) (xx - yy) |}.

(** Lines 338-348 and 376-386: [n] iterations of the loop that creates the
    ellipses, the first at the index [length written]. *)
Fixpoint mser_fill (ellipsoids : nat -> F) (capacity n : nat)
    (written : list mar_mser) : checked (list mar_mser) :=
  match n with
  | O => Returns written
  | S n' =>
      if (length written <? capacity)%nat then
        mser_fill ellipsoids capacity n'
          (written ++ [region_at ellipsoids (length written)])
      else Faults MserRegions (length written) capacity
  end.

(** Lines 326-335 and 364-373: the reallocation when [num_regions] exceeds
    the recorded size; [None] when it fails. *)
Definition mser_grow (num_regions : nat) (realloc : nat -> bool)
    (m : mser_module) : option mser_module :=
  if (mser_regions_size m <? num_regions)%nat then
    if realloc num_regions then
      Some {| mser_filter := mser_filter m;
              mser_image_buffer := mser_image_buffer m;
              mser_image_width := mser_image_width m;
              mser_image_height := mser_image_height m;
              mser_regions := Some num_regions;
              mser_regions_size := num_regions |}
    else None
  else Some m.

(** The statics after a reallocation that failed. *)
Definition mser_lost (num_regions : nat) (m : mser_module) : mser_module :=
  {| mser_filter := mser_filter m;
     mser_image_buffer := mser_image_buffer m;
     mser_image_width := mser_image_width m;
     mser_image_height := mser_image_height m;
     mser_regions := None;
     mser_regions_size := num_regions |}.

(** mar_mser_get_regions (lines 303-391).  [n1] and [ellipsoids1] are what
    vlfeat answers for the grey image, [n2] and [ellipsoids2] what it
    answers for the inverted one. *)
Definition mar_mser_get_regions (frame_length : nat)
    (n1 : nat) (ellipsoids1 : nat -> F) (n2 : nat) (ellipsoids2 : nat -> F)
    (realloc : nat -> bool) (m : mser_module)
    : checked (mser_module * mar_error_code * list mar_mser) :=
  match gray_loop MserImage
          (Z.to_nat (mser_image_width m * mser_image_height m)) 0 frame_length
          (block_size (mser_image_buffer m)) with
  | Faults what index size => Faults what index size
  | Returns _ =>
      if mser_filter m then
        match mser_grow n1 realloc m with
        | None => Returns (mser_lost n1 m, MAR_ERROR_MALLOC, [])
        | Some m1 =>
            match mser_fill ellipsoids1 (block_size (mser_regions m1)) n1 [] with
            | Faults what index size => Faults what index size
            | Returns written1 =>
                match mser_grow (n1 + n2) realloc m1 with
                | None =>
                    Returns (mser_lost (n1 + n2) m1, MAR_ERROR_MALLOC, written1)
                | Some m2 =>
                    match mser_fill ellipsoids2 (block_size (mser_regions m2))
                            n2 written1 with
                    | Faults what index size => Faults what index size
                    | Returns written2 => Returns (m2, MAR_ERROR_NONE, written2)
                    end
                end
            end
        end
      else Faults MserFilter 0 0
  end.

(** *** Vocabulary *)

Definition mser_ready (m : mser_module) : Prop :=
  mser_filter m = true
  /\ mser_image_buffer m
     = Some (Z.to_nat (mser_image_width m * mser_image_height m))
  /\ exists capacity : nat,
       mser_regions m = Some capacity
       /\ (mser_regions_size m <= capacity)%nat.

End Mser.

(** ** Sequencing of accesses that can fault *)

Definition and_then {A B : Type} (c : checked A) (k : A -> checked B)
    : checked B :=
  match c with
  | Returns a => k a
  | Faults what index size => Faults what index size
  end.

Notation "x <- c ;; k" := (and_then c (fun x => k))
  (at level 61, c at next level, right associativity).

(** [arr[i]] and [arr[i] = v] on a block of bytes. *)
Definition read_cell (what : buffer) (arr : list Z) (i : nat) : checked Z :=
  match nth_error arr i with
  | Some v => Returns v
  | None => Faults what i (length arr)
  end.

Definition write_cell (what : buffer) (arr : list Z) (i : nat) (v : Z)
    : checked (list Z) :=
  if i <? length arr then Returns (array_set arr i v)
  else Faults what i (length arr).

(** ** The camera registry (camera/mar_camera.c) *)

Definition MAR_CAM_MAX_NUM_CAMERAS : nat := 2.
Definition MAR_CAM_TYPE_V4L2_MMAP : Z := 1%Z.

Section Cameras.

(** The object behind the [void *camera] of a slot. *)
Variable handle : Type.

(** [mar_camera] (lines 17-24); [camera] is [None] for the null pointer. *)
Record mar_camera : Type := {
  cam_type : Z;
  camera : option handle
}.

Definition free_camera : mar_camera := {| cam_type := 0%Z; camera := None |}.

(** [mar_cameras] when the program starts (line 30). *)
Definition cameras_static : list mar_camera :=
  repeat free_camera MAR_CAM_MAX_NUM_CAMERAS.

Definition camera_at (cams : list mar_camera) (i : nat) : mar_camera :=
  nth i cams free_camera.

Definition occupied (cams : list mar_camera) (i : nat) : bool :=
  match camera (camera_at cams i) with
  | Some _ => true
  | None => false
  end.

(** Line 50: the search for an empty slot; the result is the value of [i]
    when the loop ends. *)
Fixpoint camera_search (cams : list mar_camera) (n i : nat) : nat :=
  match n with
  | O => i
  | S n' => if occupied cams i then camera_search cams n' (S i) else i
  end.

(** mar_camera_new (lines 44-72).  [backend] is what
    [mar_v4l2_mmap_camera_new] returns and the camera it creates; the third
    component of the result is the value written to [*id], if any. *)
Definition mar_camera_new (type : Z) (backend : mar_error_code * handle)
    (cams : list mar_camera)
    : list mar_camera * mar_error_code * option nat :=
  let i := camera_search cams MAR_CAM_MAX_NUM_CAMERAS 0 in
  if i =? MAR_CAM_MAX_NUM_CAMERAS
  then (cams, MAR_ERROR_NO_CAMERAS_AVAILABLE, None)
  else
    let cams1 :=
      array_set cams i {| cam_type := type; camera := camera (camera_at cams i) |} in
    if (type =? MAR_CAM_TYPE_V4L2_MMAP)%Z then
      (array_set cams1 i
         {| cam_type := type;
            camera := if (fst backend =? MAR_ERROR_NONE)%Z
                      then Some (snd backend) else None |},
       fst backend, Some i)
    else (cams1, MAR_ERROR_CAM_TYPE_NOT_SUPPORTED, Some i).

(** mar_camera_free (lines 81-95).  [backend_free] is what
    [mar_v4l2_mmap_camera_free] returns; it reads the camera it is given. *)
Definition mar_camera_free (id : nat) (backend_free : mar_error_code)
    (cams : list mar_camera) : checked (list mar_camera * mar_error_code) :=
  if id <? length cams then
    let emptied :=
      array_set cams id
        {| cam_type := cam_type (camera_at cams id); camera := None |} in
    if (cam_type (camera_at cams id) =? MAR_CAM_TYPE_V4L2_MMAP)%Z then
      if occupied cams id then Returns (emptied, backend_free)
      else Faults CameraObject 0 0
    else Returns (emptied, MAR_ERROR_CAM_TYPE_NOT_SUPPORTED)
  else Faults CameraTable id (length cams).

(** mar_camera_start, mar_camera_update, mar_camera_stop (lines 104-149):
    the call is passed to the V4L2 camera, whose answer is [backend]. *)
Definition mar_camera_call (id : nat) (backend : mar_error_code)
    (cams : list mar_camera) : checked mar_error_code :=
  if id <? length cams then
    if (cam_type (camera_at cams id) =? MAR_CAM_TYPE_V4L2_MMAP)%Z then
      if occupied cams id then Returns backend else Faults CameraObject 0 0
    else Returns MAR_ERROR_CAM_TYPE_NOT_SUPPORTED
  else Faults CameraTable id (length cams).

(** *** Vocabulary *)

(** [i] is the first slot without a camera. *)
Definition first_free_camera (cams : list mar_camera) (i : nat) : Prop :=
  i < MAR_CAM_MAX_NUM_CAMERAS
  /\ occupied cams i = false
  /\ forall j : nat, j < i -> occupied cams j = true.

End Cameras.

(** ** The V4L2 camera (camera/mar_v4l2_mmap_camera.c) *)

Definition MAR_ERROR_MMAP_NOT_SUPPORTED : mar_error_code := 1%Z.
Definition MAR_ERROR_BUFFER_REQUEST : mar_error_code := 2%Z.
Definition MAR_ERROR_INSUFFICIENT_DEVICE_MEMORY : mar_error_code := 3%Z.
Definition MAR_ERROR_QUERY_BUF : mar_error_code := 4%Z.
Definition MAR_ERROR_MMAP : mar_error_code := 5%Z.

Definition MAR_V4L2_MMAP_CAMERA_MAX_MMAP_BUFFER_NUMBER : nat := 4.

(** [EINVAL] of errno.h. *)
Definition EINVAL : Z := 22%Z.

(** What the driver answers to [VIDIOC_REQBUFS]: the value of the ioctl,
    [errno], and the number of buffers it grants in [req.count]. *)
Record reqbufs_answer : Type := {
  reqbufs_result : Z;
  reqbufs_errno : Z;
  reqbufs_count : nat
}.

(** What happens to buffer [index]: the value of [VIDIOC_QUERYBUF], the
    length the driver reports, and whether [mmap] fails. *)
Record querybuf_answer : Type := {
  querybuf_result : Z;
  querybuf_length : nat;
  mmap_failed : bool
}.

(** Lines 59-81: the loop that maps the buffers, [n] iterations from
    [num_mmap_buffers] on.  The result is the returned code with the final
    [num_mmap_buffers] and [mmap_buffer_length]. *)
Fixpoint mmap_loop (driver : nat -> querybuf_answer)
    (n num_mmap_buffers mmap_buffer_length : nat)
    : checked (mar_error_code * nat * nat) :=
  match n with
  | O => Returns (MAR_ERROR_NONE, num_mmap_buffers, mmap_buffer_length)
  | S n' =>
      let answer := driver num_mmap_buffers in
      if (querybuf_result answer =? -1)%Z
      then Returns (MAR_ERROR_QUERY_BUF, num_mmap_buffers, mmap_buffer_length)
      else if MAR_V4L2_MMAP_CAMERA_MAX_MMAP_BUFFER_NUMBER <=? num_mmap_buffers
      then Faults MmapTable num_mmap_buffers
             MAR_V4L2_MMAP_CAMERA_MAX_MMAP_BUFFER_NUMBER
      else if mmap_failed answer
      then Returns (MAR_ERROR_MMAP, num_mmap_buffers, querybuf_length answer)
      else mmap_loop driver n' (S num_mmap_buffers) (querybuf_length answer)
  end.

(** mar_v4l2_mmap_camera_mmap_init (lines 31-84).  [num_mmap_buffers] and
    [mmap_buffer_length] are the fields of the camera on entry. *)
Definition mar_v4l2_mmap_camera_mmap_init (request : reqbufs_answer)
    (driver : nat -> querybuf_answer) (num_mmap_buffers mmap_buffer_length : nat)
    : checked (mar_error_code * nat * nat) :=
  if (reqbufs_result request =? -1)%Z then
    if (reqbufs_errno request =? EINVAL)%Z
    then Returns (MAR_ERROR_MMAP_NOT_SUPPORTED, num_mmap_buffers, mmap_buffer_length)
    else Returns (MAR_ERROR_BUFFER_REQUEST, num_mmap_buffers, mmap_buffer_length)
  else if reqbufs_count request <? 2
  then Returns (MAR_ERROR_INSUFFICIENT_DEVICE_MEMORY, num_mmap_buffers,
                mmap_buffer_length)
  else mmap_loop driver (reqbufs_count request) 0 mmap_buffer_length.

Section Yuyv.

Context {F : Type} {FO : FloatOps F}.
Local Open Scope float_scope.

(** The conversion of a [double] between 0 and 255 to [unsigned char]. *)
Variable to_uchar : F -> Z.

(** A decimal literal [n / d]. *)
Definition decimal (n d : Z) : F := f_of_Z n / f_of_Z d.

Definition clamp (c : F) : F :=
  let c := if c <? f_of_Z 0 then f_of_Z 0 else c in
  if c >? f_of_Z 255 then f_of_Z 255 else c.

(** mar_v4l2_mmap_camera_yuv_to_rgb (lines 318-342). *)
Definition mar_v4l2_mmap_camera_yuv_to_rgb (y u v : Z) : Z * Z * Z :=
  let amp := f_of_Z 255 in
  let R := amp * (decimal 4565 1000000 * f_of_Z y
                  + decimal 1 1000000 * f_of_Z u
                  + decimal 6250 1000000 * f_of_Z v - decimal 872 1000) in
  let G := amp * (decimal 4565 1000000 * f_of_Z y
                  - decimal 1542 1000000 * f_of_Z u
                  - decimal 3183 1000000 * f_of_Z v + decimal 531 1000) in
  let B := amp * (decimal 4565 1000000 * f_of_Z y
                  + decimal 7935 1000000 * f_of_Z u - decimal 1088 1000) in
  (to_uchar (clamp R), to_uchar (clamp G), to_uchar (clamp B)).

(** Lines 357-375: [n] iterations of the loop, from the indices [i] and
    [frame_index] on. *)
Fixpoint yuyv_fill_loop (n i frame_index : nat)
    (mmap_buffer frame_buffer : list Z) : checked (list Z) :=
  match n with
  | O => Returns frame_buffer
  | S n' =>
      y1 <- read_cell MmapBuffer mmap_buffer (i + 0) ;;
      u <- read_cell MmapBuffer mmap_buffer (i + 1) ;;
      y2 <- read_cell MmapBuffer mmap_buffer (i + 2) ;;
      v <- read_cell MmapBuffer mmap_buffer (i + 3) ;;
      let '(r, g, b) := mar_v4l2_mmap_camera_yuv_to_rgb y1 u v in
      f1 <- write_cell FrameBuffer frame_buffer (frame_index + 0) r ;;
      f2 <- write_cell FrameBuffer f1 (frame_index + 1) g ;;
      f3 <- write_cell FrameBuffer f2 (frame_index + 2) b ;;
      let '(r, g, b) := mar_v4l2_mmap_camera_yuv_to_rgb y2 u v in
      f4 <- write_cell FrameBuffer f3 (frame_index + 3) r ;;
      f5 <- write_cell FrameBuffer f4 (frame_index + 4) g ;;
      f6 <- write_cell FrameBuffer f5 (frame_index + 5) b ;;
      yuyv_fill_loop n' (i + 4) (frame_index + 6) mmap_buffer f6
  end.

(** mar_v4l2_mmap_camera_yuyv_fill_frame (lines 350-376): the loop runs
    while [i < mmap_buffer_length], in steps of 4. *)
Definition mar_v4l2_mmap_camera_yuyv_fill_frame (mmap_buffer_length : nat)
    (mmap_buffer frame_buffer : list Z) : checked (list Z) :=
  yuyv_fill_loop ((mmap_buffer_length + 3) / 4) 0 0 mmap_buffer frame_buffer.

(** *** Vocabulary *)

(** The three bytes of pixel [p] of an RGB24 frame. *)
Definition pixel (frame_buffer : list Z) (p : nat) : Z * Z * Z :=
  (nth (3 * p) frame_buffer 0%Z, nth (3 * p + 1) frame_buffer 0%Z,
   nth (3 * p + 2) frame_buffer 0%Z).

End Yuyv.

(** The conversion of C for a rational: the fraction is cut off. *)
Definition truncate (q : Q) : Z := Z.quot (Qnum q) (Z.pos (Qden q)).

(** ** The time arithmetic of the visualizer (visualizer/lighthouse.c) *)

(** The value of a C integer of [bits] bits that holds [z]. *)
Definition wrap (bits : Z) (z : Z) : Z :=
  ((z + 2 ^ (bits - 1)) mod 2 ^ bits - 2 ^ (bits - 1))%Z.

Definition to_int (z : Z) : Z := wrap 32 z.
Definition to_long (z : Z) : Z := wrap 64 z.

(** [struct timeval]: two [long]s. *)
Record timeval : Type := {
  tv_sec : Z;
  tv_usec : Z
}.

(** timeval_subtract (lines 68-87).  The result carries [*result], the
    updated [*y] and the returned value. *)
Definition timeval_subtract (x y : timeval) : timeval * timeval * Z :=
  let y1 :=
    if (tv_usec x <? tv_usec y)%Z then
      let nsec :=
        to_int (to_long (Z.quot (to_long (tv_usec y - tv_usec x)) 1000000 + 1)) in
      {| tv_usec := to_long (tv_usec y - to_int (1000000 * nsec));
         tv_sec := to_long (tv_sec y + nsec) |}
    else y in
  let y2 :=
    if (to_long (tv_usec x - tv_usec y1) >? 1000000)%Z then
      let nsec :=
        to_int (Z.quot (to_long (tv_usec x - tv_usec y1)) 1000000) in
      {| tv_usec := to_long (tv_usec y1 + to_int (1000000 * nsec));
         tv_sec := to_long (tv_sec y1 - nsec) |}
    else y1 in
  ({| tv_sec := to_long (tv_sec x - tv_sec y2);
      tv_usec := to_long (tv_usec x - tv_usec y2) |},
   y2,
   if (tv_sec x <? tv_sec y2)%Z then 1%Z else 0%Z).

(** The time of a [timeval] in microseconds. *)
Definition microseconds (t : timeval) : Z := (tv_sec t * 1000000 + tv_usec t)%Z.

(** A [timeval] as [gettimeofday] fills it. *)
Definition normalised (t : timeval) : Prop :=
  (0 <= tv_usec t < 1000000)%Z /\ (- 2 ^ 62 <= tv_sec t < 2 ^ 62)%Z.

(** ** Releasing the augmentation module (augment/mar_augment.cpp) *)

Section Release.

Context {F : Type} {FO : FloatOps F}.

Definition set_initialized (st : mar_state (F := F)) (flag : bool)
    : mar_state (F := F) :=
  {| mar_augment_initialized := flag;
     mar_run_augmentation := mar_run_augmentation st;
     mar_mser_calculated_this_frame := mar_mser_calculated_this_frame st;
     mar_sift_calculated_this_frame := mar_sift_calculated_this_frame st;
     mar_sift_keypoints := mar_sift_keypoints st;
     mar_number_of_augmentations := mar_number_of_augmentations st;
     mar_augmentation_initialized := mar_augmentation_initialized st;
     mar_augmentations := mar_augmentations st;
     mar_augmentation_successful := mar_augmentation_successful st |}.

(** Lines 1042-1045: the loop that frees every augmentation. *)
Fixpoint free_augmentations (n i : nat) (st : mar_state (F := F))
    : mar_state (F := F) :=
  match n with
  | O => st
  | S n' => free_augmentations n' (S i) (mar_augment_free_augmentation st i)
  end.

(** mar_augment_free (lines 1031-1056).  [camera_free] is what
    [mar_camera_free] returns. *)
Definition mar_augment_free (camera_free : mar_error_code)
    (st : mar_state (F := F)) : mar_state (F := F) * mar_error_code :=
  if mar_augment_initialized st then
    (free_augmentations MAR_MAX_NUMBER_OF_AUGMENTATIONS 0
       (set_run_augmentation (set_initialized st false) false),
     camera_free)
  else (st, MAR_ERROR_NONE).

(** Every entry point that checks the module flag answers
    [MAR_ERROR_AUGMENTATION_NOT_INITIALIZED] and leaves the state alone. *)
Definition module_is_closed (pinv : fmat (F := F) -> fmat (F := F))
    (st : mar_state (F := F)) : Prop :=
  mar_start_augmentation st = (st, MAR_ERROR_AUGMENTATION_NOT_INITIALIZED)
  /\ mar_stop_augmentation st = (st, MAR_ERROR_AUGMENTATION_NOT_INITIALIZED)
  /\ (forall camera_update detector b,
        mar_augment_update pinv camera_update detector b st
        = Done (st, MAR_ERROR_AUGMENTATION_NOT_INITIALIZED))
  /\ (forall detector region,
        mar_augment_new_augmentation pinv detector region st
        = (st, MAR_ERROR_AUGMENTATION_NOT_INITIALIZED, None))
  /\ (forall detector,
        mar_augment_get_keypoints detector st
        = (st, MAR_ERROR_AUGMENTATION_NOT_INITIALIZED))
  /\ (forall id,
        mar_augment_get_transformation st id
        = (MAR_ERROR_AUGMENTATION_NOT_INITIALIZED, None))
  /\ (forall id x y,
        mar_augment_transform_point st id x y
        = (MAR_ERROR_AUGMENTATION_NOT_INITIALIZED, None))
  /\ (forall id x y,
        mar_augment_untransform_point st id x y
        = (MAR_ERROR_AUGMENTATION_NOT_INITIALIZED, None)).

End Release.

(** Detections for the examples: [n] points with four orientations each. *)

Module Detections.

Definition point : VlSiftKeypoint (F := Q) :=
  {| vl_x := 1%Q; vl_y := 2%Q; vl_s := 3%Q; vl_sigma := 4%Q |}.

Definition four_orientations : list (Q * list Q) :=
  [(0%Q, repeat 1%Q 128); (1%Q, repeat 2%Q 128);
   (2%Q, repeat 3%Q 128); (3%Q, repeat 4%Q 128)].

Definition points (n : nat) : list (vl_detection (F := Q)) :=
  repeat (point, four_orientations) n.

(** A module created for an image of 2 by 2 pixels. *)
Definition created : sift_module :=
  fst (mar_sift_new 2 2 true true true sift_static).

End Detections.

(** ** Vocabulary for the recovery by the fallback, over the reals *)

Module Recovery.

Local Open Scope R_scope.









End Recovery.

(** The fourth scenario of the specification over the reals: ten keypoints
    around (100, 100), the augmentation registered from them in the region
    of centre (100, 100) and axes 20, and the same ten keypoints as the next
    frame. *)

Module Scene.

Local Open Scope R_scope.

Definition one_hot (i : nat) : list R :=
  map (fun n => if (n =? i)%nat then 100 else 0) (seq 0 128).

Definition positions : list (R * R) :=
  [(90, 100); (92, 101); (94, 102); (96, 100); (98, 101);
   (100, 102); (102, 100); (104, 101); (106, 102); (108, 100)].

(** Keypoint number [i] of the frame. *)
Definition seen (i : nat) : mar_sift_keypoint (F := R) :=
  {| kp_x := fst (nth i positions (0, 0)); kp_y := snd (nth i positions (0, 0));
     kp_radius := 1; kp_angle := 0; descriptor := one_hot i |}.

Definition frame : list (mar_sift_keypoint (F := R)) := map seen (seq 0 10).

Definition region : mar_mser (F := R) :=
  {| ellipse_x := 100; ellipse_y := 100; ellipse_a := 20; ellipse_b := 20;
     ellipse_angle := 0 |}.

(** Keypoint number [i] as the seeding loop stores it (lines 770-775). *)
Definition stored (i : nat) : mar_sift_keypoint (F := R) :=
  {| kp_x := (kp_x (seen i) - 100) / ((20 + 20) / 2);
     kp_y := (kp_y (seen i) - 100) / ((20 + 20) / 2);
     kp_radius := 1; kp_angle := 0; descriptor := one_hot i |}.



(** A left inverse of the matrix of the ten references, computed from the
    references 0, 1 and 3, which are not on a line.  On a system that has
    an exact solution every left inverse gives that solution, as the
    pseudo-inverse does. *)
Definition left_inverse_of_the_system : fmat (F := R) :=
  [[- 10 / 3; 0; 0; 0; 0; 0; 10 / 3; 0; 0; 0; 0; 0; 0; 0; 0; 0; 0; 0; 0; 0];
   [- 40 / 3; 0; 20; 0; 0; 0; - 20 / 3; 0; 0; 0; 0; 0; 0; 0; 0; 0; 0; 0; 0; 0];
   [0; - 10 / 3; 0; 0; 0; 0; 0; 10 / 3; 0; 0; 0; 0; 0; 0; 0; 0; 0; 0; 0; 0];
   [0; - 40 / 3; 0; 20; 0; 0; 0; - 20 / 3; 0; 0; 0; 0; 0; 0; 0; 0; 0; 0; 0; 0];
   [- 2 / 3; 0; 0; 0; 0; 0; 5 / 3; 0; 0; 0; 0; 0; 0; 0; 0; 0; 0; 0; 0; 0];
   [0; - 2 / 3; 0; 0; 0; 0; 0; 5 / 3; 0; 0; 0; 0; 0; 0; 0; 0; 0; 0; 0; 0]].

(** The pseudo-inverse of the scenario: the zero matrix for the 3x3 matrix
    of the registration (the pseudo-inverse of the zero matrix is the zero
    matrix), the left inverse above for the matrix of the system. *)
Definition pinv (A : fmat (F := R)) : fmat (F := R) :=
  if (length A =? 3)%nat then zero33 else left_inverse_of_the_system.

End Scene.

Unset Implicit Arguments.

(** * Properties *)

(** ** The order laws hold in both arithmetics *)

Lemma Qltb_lt (a b : Q) : Qltb a b = true <-> (a < b)%Q.
Proof.
  unfold Qltb. rewrite negb_true_iff. split; intros H.
  - apply Qnot_le_lt. intros Hle. apply Qle_bool_iff in Hle. congruence.
  - destruct (Qle_bool b a) eqn:E; [|reflexivity].
    apply Qle_bool_iff in E. exfalso. exact (Qlt_not_le _ _ H E).
Qed.

#[export] Instance Q_order : FloatOrder Q.
Proof.
  constructor; cbn [fltb fleb Q_ops].
  - intros a. destruct (Qltb a a) eqn:E; [|reflexivity].
    apply Qltb_lt in E. exfalso. exact (Qlt_irrefl _ E).
  - intros a b c Hab Hbc. apply Qltb_lt in Hab, Hbc. apply Qltb_lt.
    exact (Qlt_trans _ _ _ Hab Hbc).
  - intros a b c Hac. apply Qltb_lt in Hac.
    destruct (Qlt_le_dec a b) as [Hab|Hba].
    + left. now apply Qltb_lt.
    + right. apply Qltb_lt. exact (Qle_lt_trans _ _ _ Hba Hac).
  - intros a b. unfold Qltb. now rewrite negb_involutive.
Qed.

#[export] Instance R_order : FloatOrder R.
Proof.
  constructor; cbn [fltb fleb R_ops]; unfold Rltb, Rleb.
  - intros a. destruct (Rlt_dec a a); [lra|reflexivity].
  - intros a b c. destruct (Rlt_dec a b), (Rlt_dec b c), (Rlt_dec a c);
      intros; try reflexivity; try discriminate; lra.
  - intros a b c. destruct (Rlt_dec a c), (Rlt_dec a b), (Rlt_dec b c);
      intros; try discriminate; auto; lra.
  - intros a b. destruct (Rle_dec a b), (Rlt_dec b a); cbn; try reflexivity; lra.
Qed.

Section OrderFacts.

Context {F : Type} {FO : FloatOps F} {FOrd : FloatOrder F}.

Lemma fleb_refl (a : F) : fleb a a = true.
Proof. rewrite fleb_fltb, fltb_irrefl. reflexivity. Qed.

Lemma fltb_asym (a b : F) : fltb a b = true -> fltb b a = false.
Proof.
  intros H. destruct (fltb b a) eqn:E; [|reflexivity].
  rewrite <- (fltb_irrefl a). symmetry. exact (fltb_trans _ _ _ H E).
Qed.

Lemma fltb_fleb (a b : F) : fltb a b = true -> fleb a b = true.
Proof. intros H. rewrite fleb_fltb, (fltb_asym _ _ H). reflexivity. Qed.

Lemma not_fltb_fleb (a b : F) : fltb a b = false -> fleb b a = true.
Proof. intros H. rewrite fleb_fltb, H. reflexivity. Qed.

Lemma fleb_not_fltb (a b : F) : fleb a b = true -> fltb b a = false.
Proof. rewrite fleb_fltb. now destruct (fltb b a). Qed.

Lemma fltb_fleb_trans (a b c : F) :
  fltb a b = true -> fleb b c = true -> fltb a c = true.
Proof.
  intros Hab Hbc. destruct (fltb_cotrans a c b Hab) as [H|H]; [exact H|].
  rewrite (fleb_not_fltb _ _ Hbc) in H. discriminate.
Qed.

Lemma fleb_fltb_trans (a b c : F) :
  fleb a b = true -> fltb b c = true -> fltb a c = true.
Proof.
  intros Hab Hbc. destruct (fltb_cotrans b a c Hbc) as [H|H]; [|exact H].
  rewrite (fleb_not_fltb _ _ Hab) in H. discriminate.
Qed.

Lemma fleb_trans (a b c : F) :
  fleb a b = true -> fleb b c = true -> fleb a c = true.
Proof.
  intros Hab Hbc. apply not_fltb_fleb.
  destruct (fltb c a) eqn:E; [|reflexivity].
  destruct (fltb_cotrans c b a E) as [H|H].
  - rewrite (fleb_not_fltb _ _ Hbc) in H. discriminate.
  - rewrite (fleb_not_fltb _ _ Hab) in H. discriminate.
Qed.

(** Two equivalent bounds give the same answer to [x <= _]. *)
Lemma fleb_equiv (x d e : F) :
  fleb d e = true -> fleb e d = true -> fleb x d = fleb x e.
Proof.
  intros Hde Hed. destruct (fleb x d) eqn:Ed, (fleb x e) eqn:Ee; try reflexivity.
  - rewrite <- Ee. symmetry. exact (fleb_trans _ _ _ Ed Hde).
  - rewrite <- Ed. exact (fleb_trans _ _ _ Ee Hed).
Qed.

End OrderFacts.

(** ** The matcher *)

Section MatcherFacts.

Context {F : Type} {FO : FloatOps F} {FOrd : FloatOrder F}.

Lemma best_match_loop_distances (k : mar_sift_keypoint) keypoints i best_i b s :
  best_match_loop k keypoints i best_i b s
  = distance_loop (distances k keypoints) i best_i b s.
Proof.
  revert i best_i b s.
  induction keypoints as [|kp rest IH]; intros i best_i b s;
    cbn [best_match_loop distance_loop distances map]; [reflexivity|].
  destruct (fltb (get_keypoint_difference k kp) b); [apply IH|].
  destruct (fltb (get_keypoint_difference k kp) s); apply IH.
Qed.

Lemma nth_snoc_old (pre : list F) (d : F) (j : nat) :
  j < length pre -> nth j (pre ++ [d]) f0 = nth j pre f0.
Proof. intros H. now apply app_nth1. Qed.

Lemma nth_snoc_new (pre : list F) (d : F) :
  nth (length pre) (pre ++ [d]) f0 = d.
Proof. rewrite app_nth2, Nat.sub_diag; [reflexivity|lia]. Qed.

(** One more distance read keeps [tracked]. *)
Lemma tracked_step (pre : list F) (d : F) best_i b s :
  fltb d FLT_MAX = true ->
  tracked pre best_i b s ->
  tracked (pre ++ [d])
    (if fltb d b then Z.of_nat (length pre) else best_i)
    (if fltb d b then d else b)
    (if fltb d b then b else if fltb d s then d else s).
Proof.
  intros Hd (i & -> & (Hi & Hmin & Hfirst) & -> & Hsec).
  assert (Hlen : length (pre ++ [d]) = S (length pre))
    by (rewrite length_app; cbn; lia).
  destruct (fltb d (nth i pre f0)) eqn:Hdb.
  - (* a new best *)
    exists (length pre). split; [reflexivity|]. split; [|split].
    + split; [lia|]. rewrite nth_snoc_new. split.
      * intros j Hj. destruct (Nat.eq_dec j (length pre)) as [->|Hne].
        -- rewrite nth_snoc_new. apply fleb_refl.
        -- rewrite nth_snoc_old by lia. apply fltb_fleb.
           apply (fltb_fleb_trans _ _ _ Hdb). apply Hmin. lia.
      * intros j Hj. rewrite nth_snoc_old by lia.
        apply (fltb_fleb_trans _ _ _ Hdb). apply Hmin. lia.
    + now rewrite nth_snoc_new.
    + right. exists i. split; [lia|]. split; [lia|]. split.
      * now rewrite nth_snoc_old.
      * intros j Hj Hne. rewrite nth_snoc_old by lia. apply Hmin. lia.
  - (* the best stays *)
    assert (Hmin' : is_first_min (pre ++ [d]) i).
    { split; [lia|]. rewrite nth_snoc_old by lia. split.
      - intros j Hj. destruct (Nat.eq_dec j (length pre)) as [->|Hne].
        + rewrite nth_snoc_new. now apply not_fltb_fleb.
        + rewrite nth_snoc_old by lia. apply Hmin. lia.
      - intros j Hj. rewrite nth_snoc_old by lia. now apply Hfirst. }
    exists i. split; [reflexivity|]. split; [exact Hmin'|].
    split; [now rewrite nth_snoc_old|].
    right. destruct (fltb d s) eqn:Hds.
    + (* a new second best *)
      exists (length pre). split; [lia|]. split; [lia|]. split.
      * now rewrite nth_snoc_new.
      * intros j Hj Hne. destruct (Nat.eq_dec j (length pre)) as [->|Hne'].
        -- rewrite nth_snoc_new. apply fleb_refl.
        -- rewrite nth_snoc_old by lia.
           destruct Hsec as [[Hone _]|(j2 & _ & _ & _ & Hle)]; [lia|].
           apply fltb_fleb. apply (fltb_fleb_trans _ _ _ Hds). apply Hle; lia.
    + (* the second best stays *)
      destruct Hsec as [[_ ->]|(j2 & Hj2 & Hne2 & -> & Hle)]; [congruence|].
      exists j2. split; [lia|]. split; [exact Hne2|]. split.
      * now rewrite nth_snoc_old.
      * intros j Hj Hne. destruct (Nat.eq_dec j (length pre)) as [->|Hne'].
        -- rewrite nth_snoc_new. now apply not_fltb_fleb.
        -- rewrite nth_snoc_old by lia. apply Hle; lia.
Qed.

Lemma distance_loop_tracked (rest pre : list F) best_i b s :
  (forall d, In d rest -> fltb d FLT_MAX = true) ->
  tracked pre best_i b s ->
  let '(best_i', b', s') := distance_loop rest (length pre) best_i b s in
  tracked (pre ++ rest) best_i' b' s'.
Proof.
  revert pre best_i b s.
  induction rest as [|d rest IH]; intros pre best_i b s Hall Htr.
  - cbn. now rewrite app_nil_r.
  - pose proof (tracked_step pre d best_i b s (Hall d (or_introl eq_refl)) Htr)
      as Hstep.
    assert (Hall' : forall e, In e rest -> fltb e FLT_MAX = true)
      by (intros e He; apply Hall; now right).
    specialize (IH (pre ++ [d])).
    assert (Hlen : length (pre ++ [d]) = S (length pre))
      by (rewrite length_app; cbn; lia).
    rewrite Hlen in IH. rewrite <- app_assoc in IH. cbn [app] in IH.
    cbn [distance_loop].
    destruct (fltb d b).
    + exact (IH _ _ _ Hall' Hstep).
    + destruct (fltb d s); exact (IH _ _ _ Hall' Hstep).
Qed.

(** Any two values that qualify as second smallest answer the ratio test
    alike. *)
Lemma second_or_sentinel_equiv (ds : list F) (i : nat) (x d e : F) :
  (i < length ds) ->
  second_or_sentinel ds i d -> second_or_sentinel ds i e ->
  fleb x d = fleb x e.
Proof.
  intros Hi [[Hone ->]|(j & Hj & Hne & -> & Hle)]
            [[Hone' ->]|(j' & Hj' & Hne' & -> & Hle')];
    try reflexivity; try lia.
  apply fleb_equiv; [apply Hle|apply Hle']; assumption.
Qed.

(** The references of a call are the first [num_keypoints] cells of the
    array. *)
Lemma best_match_on_prefix (q : mar_sift_keypoint)
    (keypoints : list mar_sift_keypoint) (num_keypoints : nat) :
  get_best_keypoint_match q keypoints num_keypoints
  = get_best_keypoint_match q (firstn num_keypoints keypoints)
      (length (firstn num_keypoints keypoints)).
Proof. unfold get_best_keypoint_match. now rewrite firstn_all. Qed.

(** C2 (amended).  For every probe [q] and every reference sequence whose
    distances to [q] are all below [FLT_MAX], [get_best_keypoint_match]
    reports the smallest distance [d1] and returns the first index that
    attains it exactly when [d1 * 3.5 <= d2], and [-1] otherwise, where [d2]
    is the second smallest distance, or [FLT_MAX] when there is a single
    reference; on the empty sequence it returns [-1] and reports [FLT_MAX]. *)
Theorem best_match_reports_sentinel (q : mar_sift_keypoint)
    (refs : list mar_sift_keypoint) :
  (forall r, In r refs -> fltb (get_keypoint_difference q r) FLT_MAX = true) ->
  best_match_with_sentinel q refs.
Proof.
  intros Hall. unfold best_match_with_sentinel, get_best_keypoint_match.
  rewrite firstn_all, best_match_loop_distances.
  destruct refs as [|r0 rest].
  - cbn [distances map distance_loop].
    destruct (fleb _ _); reflexivity.
  - set (ds := distances q (r0 :: rest)).
    assert (Hds : ds = [get_keypoint_difference q r0] ++ distances q rest)
      by reflexivity.
    assert (H0 : fltb (get_keypoint_difference q r0) FLT_MAX = true)
      by (apply Hall; now left).
    assert (Htr : tracked [get_keypoint_difference q r0] 0%Z
                    (get_keypoint_difference q r0) FLT_MAX).
    { exists 0. split; [reflexivity|]. split; [|split].
      - split; [cbn; lia|]. split.
        + intros j Hj. cbn in Hj. replace j with 0 by lia. apply fleb_refl.
        + intros j Hj. lia.
      - reflexivity.
      - left. split; reflexivity. }
    assert (Hrest : forall d, In d (distances q rest) -> fltb d FLT_MAX = true).
    { intros d Hd. apply in_map_iff in Hd. destruct Hd as (r & <- & Hr).
      apply Hall. now right. }
    pose proof (distance_loop_tracked (distances q rest)
                  [get_keypoint_difference q r0] _ _ _ Hrest Htr) as Hloop.
    rewrite <- Hds in Hloop. cbn [length] in Hloop.
    replace (distance_loop ds 0 (-1)%Z FLT_MAX f0)
      with (distance_loop (distances q rest) 1 0%Z
              (get_keypoint_difference q r0) FLT_MAX).
    2:{ rewrite Hds. cbn [app distance_loop]. now rewrite H0. }
    destruct (distance_loop (distances q rest) 1 0%Z
                (get_keypoint_difference q r0) FLT_MAX) as [[bi bd] sd].
    destruct Hloop as (i & -> & Hmin & -> & Hsec).
    exists i. split; [exact Hmin|].
    assert (Hsnd : snd (if fleb (fmul (nth i ds f0) MAR_UNIQUE_KEYPOINT_THRESHOLD) sd
                        then (Z.of_nat i, nth i ds f0)
                        else ((-1)%Z, nth i ds f0)) = nth i ds f0)
      by (destruct (fleb _ sd); reflexivity).
    split; [exact Hsnd|]. split; [now exists sd|].
    intros d2 Hd2. rewrite Hsnd.
    rewrite (second_or_sentinel_equiv ds i _ d2 sd (proj1 Hmin) Hd2 Hsec).
    destruct (fleb _ sd); reflexivity.
Qed.

End MatcherFacts.

(** C2 (as stated) fails on the empty sequence: the reported distance is
    [FLT_MAX], which does not exceed [FLT_MAX]. *)
Lemma best_match_empty_not_infinite :
  ~ best_match_as_specified Frames.probe_drift [].
Proof.
  unfold best_match_as_specified, is_plus_infinity. intros [_ H].
  vm_compute in H. discriminate.
Qed.

Lemma best_match_reports_sentinel_witness :
  (forall r, In r Frames.seeds_near ->
     fltb (get_keypoint_difference Frames.probe_drift r) FLT_MAX = true)
  /\ best_match_with_sentinel Frames.probe_drift Frames.seeds_near.
Proof.
  assert (H : forall r, In r Frames.seeds_near ->
     fltb (get_keypoint_difference Frames.probe_drift r) FLT_MAX = true).
  { intros r Hr. repeat (destruct Hr as [<-|Hr]; [vm_compute; reflexivity|]).
    destruct Hr. }
  exact (conj H (best_match_reports_sentinel Frames.probe_drift Frames.seeds_near H)).
Defined.

(** ** The ellipse predicate *)

Section EllipseFacts.

Local Open Scope R_scope.

Lemma Rltb_true (a b : R) : Rltb a b = true <-> a < b.
Proof. unfold Rltb. destruct (Rlt_dec a b); split; intros; try easy; lra. Qed.

(** The predicate over the reals, with the rotation made explicit. *)
Lemma is_point_in_ellipse_real (px py cx cy a b theta : R) :
  is_point_in_ellipse px py cx cy a b theta = true
  <-> Ellipse.inside_after_rotation (Ellipse.axis_factor a b * theta)
        px py cx cy a b.
Proof.
  unfold is_point_in_ellipse, Ellipse.inside_after_rotation, Ellipse.rotate,
    Ellipse.axis_factor.
  cbn [fadd fsub fmul fdiv fltb fsin fcos f_of_Z R_ops].
  rewrite Rltb_true.
  replace (theta * (if Rltb b a then 1 else -1))
    with ((if Rlt_dec b a then 1 else -1) * theta)
    by (unfold Rltb; destruct (Rlt_dec b a); ring).
  replace (a * a * 4) with (2 * a * (2 * a)) by ring.
  replace (b * b * 4) with (2 * b * (2 * b)) by ring.
  reflexivity.
Qed.




End EllipseFacts.


(** ** The tracker: what the passes keep *)

Section PassFacts.

Context {F : Type} {FO : FloatOps F}.

Lemma length_removelast_pred {A : Type} (l : list A) :
  length (removelast l) = pred (length l).
Proof.
  induction l as [|a [|b rest] IH]; [reflexivity|reflexivity|].
  cbn [removelast length] in *. now rewrite IH.
Qed.

Lemma shift_in_length {A : Type} (arr : list A) (l : nat) (v : A) :
  length (shift_in arr l v) = length arr.
Proof.
  revert l. induction arr as [|a rest IH]; intros [|l]; cbn [shift_in length];
    try reflexivity.
  - rewrite length_removelast_pred. reflexivity.
  - now rewrite IH.
Qed.

Lemma reset_differences_wf (b : match_arrays (F := F)) :
  arrays_wf b -> arrays_wf (reset_differences b).
Proof.
  intros (Hx & Hy & Hu & Hv & _).
  split; [exact Hx|]. split; [exact Hy|]. split; [exact Hu|]. split; [exact Hv|].
  apply repeat_length.
Qed.

Lemma place_match_wf (b : match_arrays (F := F)) l x y u v d :
  arrays_wf b -> arrays_wf (place_match b l x y u v d).
Proof.
  intros (Hx & Hy & Hu & Hv & Hd).
  repeat split; cbn; rewrite shift_in_length; assumption.
Qed.

Lemma record_match_wf (b : match_arrays (F := F)) m ref q d :
  arrays_wf b -> arrays_wf (fst (record_match b m ref q d)).
Proof.
  intros Hb. unfold record_match.
  destruct (fltb d _); [|exact Hb]. cbn [fst].
  destruct (find_slot d (differences b) 0); [now apply place_match_wf|exact Hb].
Qed.

Lemma same_tracking_fields_refl (a : mar_augmentation (F := F)) :
  same_tracking_fields a a.
Proof. repeat split. Qed.

Lemma same_tracking_fields_trans (a a' a'' : mar_augmentation (F := F)) :
  same_tracking_fields a a' -> same_tracking_fields a' a'' ->
  same_tracking_fields a a''.
Proof.
  intros (H1 & H2 & H3 & H4 & H5 & H6 & H7) (G1 & G2 & G3 & G4 & G5 & G6 & G7).
  repeat split; congruence.
Qed.

Lemma match_contained_spec (contained : list (mar_sift_keypoint (F := F))) :
  forall b m a,
    arrays_wf b ->
    let '(b', m', a') := match_contained contained b m a in
    arrays_wf b' /\ same_tracking_fields a a'.
Proof.
  induction contained as [|q rest IH]; intros b m a Hb; cbn [match_contained].
  - split; [exact Hb|apply same_tracking_fields_refl].
  - destruct (get_best_keypoint_match q (initial_keypoints a)
                (num_initial_keypoints a)) as [k bd].
    destruct (k =? -1)%Z; [now apply IH|].
    pose proof (record_match_wf b m (keypoint_at (initial_keypoints a) (Z.to_nat k))
                  q bd Hb) as Hb'.
    destruct (record_match b m (keypoint_at (initial_keypoints a) (Z.to_nat k)) q bd)
      as [b1 m1]. cbn [fst] in Hb'.
    specialize (IH b1 m1
      (set_initial_keypoints a
         (array_set (initial_keypoints a) (Z.to_nat k)
            (update_descriptor (keypoint_at (initial_keypoints a) (Z.to_nat k)) q)))
      Hb').
    destruct (match_contained rest b1 m1 _) as [[b2 m2] a2].
    destruct IH as [Hb2 Hs]. split; [exact Hb2|].
    eapply same_tracking_fields_trans; [|exact Hs]. repeat split.
Qed.

Lemma match_whole_frame_wf (frame : list (mar_sift_keypoint (F := F))) :
  forall b m a, arrays_wf b -> arrays_wf (fst (match_whole_frame frame b m a)).
Proof.
  induction frame as [|q rest IH]; intros b m a Hb; cbn [match_whole_frame].
  - exact Hb.
  - destruct (get_best_keypoint_match q (initial_keypoints a)
                (num_initial_keypoints a)) as [k bd].
    destruct (k =? -1)%Z; [now apply IH|].
    pose proof (record_match_wf b m (keypoint_at (initial_keypoints a) (Z.to_nat k))
                  q bd Hb) as Hb'.
    destruct (record_match b m (keypoint_at (initial_keypoints a) (Z.to_nat k)) q bd)
      as [b1 m1]. now apply IH.
Qed.

Lemma find_matches_spec (frame : list (mar_sift_keypoint (F := F))) b a :
  arrays_wf b ->
  let '(b', m', a') := find_matches frame b a in
  arrays_wf b' /\ same_tracking_fields a a'.
Proof.
  intros Hb. unfold find_matches.
  pose proof (match_contained_spec (gather_contained a frame)
                (reset_differences b) 0 a (reset_differences_wf b Hb)) as H1.
  destruct (match_contained (gather_contained a frame) (reset_differences b) 0 a)
    as [[b1 m1] a1]. destruct H1 as [Hb1 Hs1].
  destruct (m1 <? MAR_MIN_NUM_OF_MATCHED_KEYPOINTS); [|now split].
  pose proof (match_whole_frame_wf frame (reset_differences b1) 0 a1
                (reset_differences_wf b1 Hb1)) as H2.
  destruct (match_whole_frame frame (reset_differences b1) 0 a1) as [b2 m2].
  now split.
Qed.

(** The system is built whenever no index reaches the size of the arrays. *)
Lemma build_system_in_bounds (b : match_arrays (F := F)) :
  arrays_wf b ->
  forall n j, j + n <= MAR_MAX_NUM_OF_MATCHED_KEYPOINTS ->
    exists A rhs, build_system b j n = Done (A, rhs).
Proof.
  intros (Hx & Hy & Hu & Hv & _). induction n as [|n IH]; intros j Hj.
  - now exists [], [].
  - cbn [build_system]. unfold correspondence.
    destruct (nth_error (arr_x b) j) as [x|] eqn:Ex;
      [|apply nth_error_None in Ex; lia].
    destruct (nth_error (arr_y b) j) as [y|] eqn:Ey;
      [|apply nth_error_None in Ey; lia].
    destruct (nth_error (arr_u b) j) as [u|] eqn:Eu;
      [|apply nth_error_None in Eu; lia].
    destruct (nth_error (arr_v b) j) as [v|] eqn:Ev;
      [|apply nth_error_None in Ev; lia].
    destruct (IH (S j)) as (A & rhs & ->); [lia|].
    eauto.
Qed.

(** With more entries requested than the arrays hold, the construction of
    the system reads index 256. *)
Lemma build_system_past_end (b : match_arrays (F := F)) :
  arrays_wf b ->
  forall n j, j <= MAR_MAX_NUM_OF_MATCHED_KEYPOINTS < j + n ->
    build_system b j n
    = OutOfBounds CorrespondenceArrays MAR_MAX_NUM_OF_MATCHED_KEYPOINTS
        MAR_MAX_NUM_OF_MATCHED_KEYPOINTS.
Proof.
  intros (Hx & Hy & Hu & Hv & _). induction n as [|n IH]; intros j Hj; [lia|].
  cbn [build_system]. unfold correspondence.
  destruct (Nat.eq_dec j MAR_MAX_NUM_OF_MATCHED_KEYPOINTS) as [->|Hne].
  - assert (E : nth_error (arr_x b) MAR_MAX_NUM_OF_MATCHED_KEYPOINTS = None)
      by (apply nth_error_None; lia).
    now rewrite E.
  - destruct (nth_error (arr_x b) j) as [x|] eqn:Ex;
      [|apply nth_error_None in Ex; lia].
    destruct (nth_error (arr_y b) j) as [y|] eqn:Ey;
      [|apply nth_error_None in Ey; lia].
    destruct (nth_error (arr_u b) j) as [u|] eqn:Eu;
      [|apply nth_error_None in Eu; lia].
    destruct (nth_error (arr_v b) j) as [v|] eqn:Ev;
      [|apply nth_error_None in Ev; lia].
    rewrite (IH (S j)) by lia. reflexivity.
Qed.

(** A read of the correspondence arrays past their end is the only way the
    construction of the system stops. *)
Lemma build_system_fault (b : match_arrays (F := F)) :
  forall n j name i sz,
    build_system b j n = OutOfBounds name i sz ->
    name = CorrespondenceArrays /\ j <= i < j + n.
Proof.
  induction n as [|n IH]; intros j name i sz H; cbn [build_system] in H.
  - discriminate.
  - destruct (correspondence b j) as [[[[x y] u] v]|].
    + destruct (build_system b (S j) n) as [[A rhs]|name' i' sz'] eqn:E;
        [discriminate|].
      injection H as -> -> ->. destruct (IH _ _ _ _ E) as [-> Hi]. split; [reflexivity|lia].
    + injection H as <- <- <-. split; [reflexivity|lia].
Qed.

Lemma promote_fields (a : mar_augmentation (F := F)) q n :
  let '(a', _) := promote a q n in
  mser a' = mser a /\ transform a' = transform a
  /\ transform_inverse a' = transform_inverse a
  /\ num_initial_keypoints a' = num_initial_keypoints a
  /\ num_potential_keypoints a' = num_potential_keypoints a.
Proof.
  unfold promote. destruct (apply_matrix _ _ _) as [ox oy]. repeat split.
Qed.

Lemma grow_loop_fields (unread : list (mar_sift_keypoint (F := F))) :
  forall size j n np a a' np',
    grow_loop unread size j n np a = Done (a', np') ->
    same_fit_fields a a'.
Proof.
  induction unread as [|q rest IH]; intros size j n np a a' np' H;
    cbn [grow_loop] in H.
  - destruct ((j <? n) && (np <? MAR_MAX_NUMBER_OF_AUGMENTATION_KEYPOINTS));
      [discriminate|]. injection H as <- <-. repeat split.
  - destruct ((j <? n) && (np <? MAR_MAX_NUMBER_OF_AUGMENTATION_KEYPOINTS));
      [|injection H as <- <-; repeat split].
    destruct (get_best_keypoint_match q (initial_keypoints a)
                (num_initial_keypoints a)) as [k bd].
    destruct (fltb MAR_MAX_KEYPOINT_DIFFERENCE bd).
    + destruct (get_best_keypoint_match q (potential_keypoints a)
                  (num_potential_keypoints a)) as [k2 bd2].
      destruct (negb (k2 =? -1)%Z && fltb bd2 MAR_MAX_KEYPOINT_DIFFERENCE).
      * pose proof (promote_fields a q n) as Hp.
        destruct (promote a q n) as [a1 n1].
        specialize (IH _ _ _ _ _ _ _ H).
        destruct Hp as (P1 & P2 & P3 & P4 & P5), IH as (I1 & I2 & I3 & I4 & I5).
        repeat split; congruence.
      * exact (IH _ _ _ _ _ _ _ H).
    + specialize (IH _ _ _ _ _ _ _ H).
      destruct IH as (I1 & I2 & I3 & I4 & I5). repeat split; assumption.
Qed.

Lemma grow_loop_fault (unread : list (mar_sift_keypoint (F := F))) :
  forall size j n np a name i sz,
    grow_loop unread size j n np a = OutOfBounds name i sz ->
    name = ContainedKeypoints.
Proof.
  induction unread as [|q rest IH]; intros size j n np a name i sz H;
    cbn [grow_loop] in H.
  - destruct ((j <? n) && (np <? MAR_MAX_NUMBER_OF_AUGMENTATION_KEYPOINTS));
      [|discriminate]. now injection H as <- <- <-.
  - destruct ((j <? n) && (np <? MAR_MAX_NUMBER_OF_AUGMENTATION_KEYPOINTS));
      [|discriminate].
    destruct (get_best_keypoint_match q (initial_keypoints a)
                (num_initial_keypoints a)) as [k bd].
    destruct (fltb MAR_MAX_KEYPOINT_DIFFERENCE bd).
    + destruct (get_best_keypoint_match q (potential_keypoints a)
                  (num_potential_keypoints a)) as [k2 bd2].
      destruct (negb (k2 =? -1)%Z && fltb bd2 MAR_MAX_KEYPOINT_DIFFERENCE).
      * destruct (promote a q n) as [a1 n1]. exact (IH _ _ _ _ _ _ _ _ H).
      * exact (IH _ _ _ _ _ _ _ _ H).
    + exact (IH _ _ _ _ _ _ _ _ H).
Qed.

Lemma promote_bound (a : mar_augmentation (F := F)) q n :
  snd (promote a q n)
  = if MAR_MAX_NUMBER_OF_AUGMENTATION_KEYPOINTS <=? n
    then MAR_MAX_NUMBER_OF_AUGMENTATION_KEYPOINTS else S n.
Proof. unfold promote. now destruct (apply_matrix _ _ _). Qed.

(** Once a promotion has raised the loop bound above the size of a buffer of
    fewer than 512 keypoints, the loop reads the cell just past its end. *)
Lemma grow_loop_after_promotion (unread : list (mar_sift_keypoint (F := F))) :
  forall size j n np a,
    j + length unread = size ->
    size < MAR_MAX_NUMBER_OF_AUGMENTATION_KEYPOINTS ->
    np <= j -> size < n ->
    grow_loop unread size j n np a = OutOfBounds ContainedKeypoints size size.
Proof.
  induction unread as [|q rest IH]; intros size j n np a Hsize Hsmall Hnp Hn;
    cbn [grow_loop length] in *;
    (replace ((j <? n) && (np <? MAR_MAX_NUMBER_OF_AUGMENTATION_KEYPOINTS))
       with true
       by (symmetry; apply andb_true_iff; split; apply Nat.ltb_lt; lia)).
  - replace j with size by lia. reflexivity.
  - destruct (get_best_keypoint_match q (initial_keypoints a)
                (num_initial_keypoints a)) as [k bd].
    destruct (fltb MAR_MAX_KEYPOINT_DIFFERENCE bd).
    + destruct (get_best_keypoint_match q (potential_keypoints a)
                  (num_potential_keypoints a)) as [k2 bd2].
      destruct (negb (k2 =? -1)%Z && fltb bd2 MAR_MAX_KEYPOINT_DIFFERENCE).
      * pose proof (promote_bound a q n) as Hb.
        destruct (promote a q n) as [a1 n1]. cbn [snd] in Hb.
        apply IH; try lia. subst n1.
        destruct (MAR_MAX_NUMBER_OF_AUGMENTATION_KEYPOINTS <=? n); lia.
      * apply IH; lia.
    + apply IH; lia.
Qed.

(** With fewer than 512 keypoints in the buffer, a run of the loop that stays
    within the buffer has promoted nothing. *)
Lemma grow_loop_without_promotion (unread : list (mar_sift_keypoint (F := F))) :
  forall size j np a,
    j + length unread = size ->
    size < MAR_MAX_NUMBER_OF_AUGMENTATION_KEYPOINTS ->
    np <= j ->
    match grow_loop unread size j size np a with
    | Done (a', _) =>
        initial_keypoints a' = initial_keypoints a
        /\ new_keypoint_cursor a' = new_keypoint_cursor a
    | OutOfBounds name i sz => name = ContainedKeypoints /\ i = size /\ sz = size
    end.
Proof.
  induction unread as [|q rest IH]; intros size j np a Hsize Hsmall Hnp;
    cbn [grow_loop length] in *.
  - replace (j <? size) with false by (symmetry; apply Nat.ltb_ge; lia).
    cbn [andb]. now split.
  - replace ((j <? size) && (np <? MAR_MAX_NUMBER_OF_AUGMENTATION_KEYPOINTS))
      with true
      by (symmetry; apply andb_true_iff; split; apply Nat.ltb_lt; lia).
    destruct (get_best_keypoint_match q (initial_keypoints a)
                (num_initial_keypoints a)) as [k bd].
    destruct (fltb MAR_MAX_KEYPOINT_DIFFERENCE bd).
    + destruct (get_best_keypoint_match q (potential_keypoints a)
                  (num_potential_keypoints a)) as [k2 bd2].
      destruct (negb (k2 =? -1)%Z && fltb bd2 MAR_MAX_KEYPOINT_DIFFERENCE).
      * pose proof (promote_bound a q size) as Hb.
        destruct (promote a q size) as [a1 n1]. cbn [snd] in Hb.
        rewrite grow_loop_after_promotion; [repeat split| lia | lia | lia |].
        subst n1.
        destruct (MAR_MAX_NUMBER_OF_AUGMENTATION_KEYPOINTS <=? size); lia.
      * apply IH; lia.
    + specialize (IH size (S j) (S np)
                    (set_potential_keypoints a
                       (array_set (potential_keypoints a) np q))
                    ltac:(lia) Hsmall ltac:(lia)).
      exact IH.
Qed.

Lemma grow_references_without_promotion
    (frame : list (mar_sift_keypoint (F := F))) a :
  length (gather_contained a frame) < MAR_MAX_NUMBER_OF_AUGMENTATION_KEYPOINTS ->
  match grow_references frame a with
  | Done a' =>
      initial_keypoints a' = initial_keypoints a
      /\ new_keypoint_cursor a' = new_keypoint_cursor a
  | OutOfBounds name i sz =>
      name = ContainedKeypoints
      /\ i = length (gather_contained a frame)
      /\ sz = length (gather_contained a frame)
  end.
Proof.
  intros Hsmall. unfold grow_references.
  pose proof (grow_loop_without_promotion (gather_contained a frame)
                (length (gather_contained a frame)) 0 0 a eq_refl Hsmall
                (Nat.le_refl 0)) as H.
  destruct (grow_loop _ _ _ _ _ _) as [[a1 np]|name i sz]; exact H.
Qed.

Lemma grow_references_fields (frame : list (mar_sift_keypoint (F := F))) a a' :
  grow_references frame a = Done a' ->
  mser a' = mser a /\ transform a' = transform a
  /\ transform_inverse a' = transform_inverse a
  /\ num_initial_keypoints a' = num_initial_keypoints a.
Proof.
  unfold grow_references. intros H.
  destruct (grow_loop _ _ _ _ _ _) as [[a1 np]|name i sz] eqn:E; [|discriminate].
  injection H as <-. destruct (grow_loop_fields _ _ _ _ _ _ _ _ E)
    as (I1 & I2 & I3 & I4 & I5).
  repeat split; assumption.
Qed.

Lemma grow_references_fault (frame : list (mar_sift_keypoint (F := F))) a name i sz :
  grow_references frame a = OutOfBounds name i sz -> name = ContainedKeypoints.
Proof.
  unfold grow_references. intros H.
  destruct (grow_loop _ _ _ _ _ _) as [[a1 np]|name' i' sz'] eqn:E; [discriminate|].
  injection H as <- <- <-. exact (grow_loop_fault _ _ _ _ _ _ _ _ _ E).
Qed.

(** The matching passes change nothing but the reference descriptors. *)
Lemma match_contained_fields (contained : list (mar_sift_keypoint (F := F))) :
  forall b m a,
    same_tracking_fields a (snd (match_contained contained b m a)).
Proof.
  induction contained as [|q rest IH]; intros b m a; cbn [match_contained].
  - apply same_tracking_fields_refl.
  - destruct (get_best_keypoint_match q (initial_keypoints a)
                (num_initial_keypoints a)) as [k bd].
    destruct (k =? -1)%Z; [apply IH|].
    destruct (record_match b m (keypoint_at (initial_keypoints a) (Z.to_nat k)) q bd)
      as [b1 m1].
    eapply same_tracking_fields_trans; [|apply IH]. repeat split.
Qed.

Lemma find_matches_fields (frame : list (mar_sift_keypoint (F := F))) b a :
  same_tracking_fields a (snd (find_matches frame b a)).
Proof.
  unfold find_matches.
  pose proof (match_contained_fields (gather_contained a frame)
                (reset_differences b) 0 a) as H1.
  destruct (match_contained (gather_contained a frame) (reset_differences b) 0 a)
    as [[b1 m1] a1]. cbn [snd] in H1.
  destruct (m1 <? MAR_MIN_NUM_OF_MATCHED_KEYPOINTS); [|exact H1].
  destruct (match_whole_frame frame (reset_differences b1) 0 a1) as [b2 m2].
  exact H1.
Qed.





End PassFacts.

(** ** The buffer of best matches counts the strong matches *)

Section BufferFacts.

Context {F : Type} {FO : FloatOps F} {FOrd : FloatOrder F}.

Lemma nth_removelast {A : Type} (l : list A) (k : nat) (d : A) :
  nth k (removelast l) d = if S k <? length l then nth k l d else d.
Proof.
  revert k. induction l as [|a [|b rest] IH]; intros k.
  - destruct k; reflexivity.
  - destruct k; reflexivity.
  - change (removelast (a :: b :: rest)) with (a :: removelast (b :: rest)).
    destruct k as [|k]; [reflexivity|].
    cbn [nth]. rewrite IH. cbn [length].
    destruct (S k <? S (length rest)) eqn:E1, (S (S k) <? S (S (length rest))) eqn:E2;
      try reflexivity.
    + apply Nat.ltb_lt in E1. apply Nat.ltb_ge in E2. lia.
    + apply Nat.ltb_ge in E1. apply Nat.ltb_lt in E2. lia.
Qed.

Lemma shift_in_nth {A : Type} (arr : list A) :
  forall l v k d,
    l < length arr ->
    nth k (shift_in arr l v) d
    = if k <? l then nth k arr d
      else if k =? l then v
      else if k <? length arr then nth (k - 1) arr d else d.
Proof.
  induction arr as [|a rest IH]; intros l v k d Hl; [cbn in Hl; lia|].
  destruct l as [|l].
  - cbn [shift_in]. destruct k as [|k]; [reflexivity|].
    cbn [nth Nat.ltb Nat.leb Nat.eqb]. rewrite nth_removelast.
    replace (S k - 1) with k by lia. reflexivity.
  - cbn [shift_in]. destruct k as [|k]; [reflexivity|].
    cbn [nth]. rewrite IH by (cbn in Hl; lia).
    change (S k <? S l) with (k <? l). change (S k =? S l) with (k =? l).
    change (S k <? length (a :: rest)) with (k <? length rest).
    destruct (k <? l) eqn:E1; [reflexivity|].
    destruct (k =? l) eqn:E2; [reflexivity|].
    apply Nat.ltb_ge in E1. apply Nat.eqb_neq in E2.
    destruct (k <? length rest) eqn:E3; [|reflexivity].
    destruct k as [|k]; [lia|]. cbn. now rewrite Nat.sub_0_r.
Qed.

Lemma find_slot_some (d : F) (ds : list F) :
  forall l0 l,
    find_slot d ds l0 = Some l ->
    l0 <= l /\ l - l0 < length ds.
Proof.
  induction ds as [|x rest IH]; intros l0 l H; cbn [find_slot] in H; [discriminate|].
  destruct (l0 <? MAR_MAX_NUM_OF_MATCHED_KEYPOINTS); [|discriminate].
  destruct (fltb d x).
  - injection H as <-. cbn [length]. lia.
  - destruct (IH _ _ H) as [H1 H2]. cbn [length]. lia.
Qed.

Lemma find_slot_exists (d : F) (ds : list F) :
  forall l0 k,
    k < length ds -> l0 + k < MAR_MAX_NUM_OF_MATCHED_KEYPOINTS ->
    fltb d (nth k ds f0) = true ->
    exists l, find_slot d ds l0 = Some l /\ l0 <= l <= l0 + k.
Proof.
  induction ds as [|x rest IH]; intros l0 k Hk Hl Hd; [cbn in Hk; lia|].
  cbn [find_slot].
  replace (l0 <? MAR_MAX_NUM_OF_MATCHED_KEYPOINTS) with true
    by (symmetry; apply Nat.ltb_lt; lia).
  destruct (fltb d x) eqn:E.
  - exists l0. split; [reflexivity|lia].
  - destruct k as [|k]; [cbn in Hd; congruence|].
    destruct (IH (S l0) k) as (l & Hf & Hl'); [cbn in Hk; lia|lia|exact Hd|].
    exists l. split; [exact Hf|lia].
Qed.

Lemma buffer_invariant_reset (b : match_arrays (F := F)) :
  buffer_invariant (differences (reset_differences b)) 0 0.
Proof.
  cbn [reset_differences differences]. split; [apply repeat_length|].
  assert (Hnth : forall l, l < MAR_MAX_NUM_OF_MATCHED_KEYPOINTS ->
            nth l (repeat (MAR_MAX_KEYPOINT_DIFFERENCE (F := F))
                     MAR_MAX_NUM_OF_MATCHED_KEYPOINTS) f0
            = MAR_MAX_KEYPOINT_DIFFERENCE).
  { intros l Hl. apply nth_repeat_lt. exact Hl. }
  split; [intros l Hl; left; now apply Hnth|].
  split; [lia|]. intros _. split; [reflexivity|]. intros l _ Hl. now apply Hnth.
Qed.

(** What the counters say once a pass is over. *)
Lemma buffer_invariant_counts (ds : list F) (c g : nat) :
  buffer_invariant ds c g ->
  c <= g
  /\ (c < MAR_MIN_NUM_OF_MATCHED_KEYPOINTS <-> g < MAR_MIN_NUM_OF_MATCHED_KEYPOINTS)
  /\ (g <= MAR_MAX_NUM_OF_MATCHED_KEYPOINTS -> c = g).
Proof.
  intros (_ & _ & Hle & Hsmall).
  unfold MAR_MIN_NUM_OF_MATCHED_KEYPOINTS, MAR_MAX_NUM_OF_MATCHED_KEYPOINTS in *.
  destruct (Nat.lt_ge_cases c 256) as [Hc|Hc].
  - destruct (Hsmall Hc) as [-> _]. repeat split; lia.
  - repeat split; lia.
Qed.

(** One call of [record_match] on an accepted match of distance [d]. *)
Lemma record_match_invariant (b : match_arrays (F := F)) (c g : nat) ref q (d : F) :
  buffer_invariant (differences b) c g ->
  buffer_invariant (differences (fst (record_match b c ref q d)))
    (snd (record_match b c ref q d))
    (g + if fltb d MAR_MAX_KEYPOINT_DIFFERENCE then 1 else 0).
Proof.
  intros (Hlen & Hle2 & Hcg & Hsmall). unfold record_match.
  assert (Hlast :
            fltb d (nth (MAR_MAX_NUM_OF_MATCHED_KEYPOINTS - 1) (differences b) f0)
            = true -> fltb d MAR_MAX_KEYPOINT_DIFFERENCE = true).
  { intros Hd.
    destruct (Hle2 (MAR_MAX_NUM_OF_MATCHED_KEYPOINTS - 1)) as [E|E];
      [unfold MAR_MAX_NUM_OF_MATCHED_KEYPOINTS; lia| |].
    - now rewrite E in Hd.
    - exact (fltb_trans _ _ _ Hd E). }
  destruct (fltb d (nth (MAR_MAX_NUM_OF_MATCHED_KEYPOINTS - 1) (differences b) f0))
    eqn:Ecount; cbn [fst snd].
  - (* counted *)
    rewrite (Hlast eq_refl).
    assert (Hnew : buffer_invariant
              (differences
                 match find_slot d (differences b) 0 with
                 | Some l => place_match b l (kp_x ref) (kp_y ref) (kp_x q) (kp_y q) d
                 | None => b
                 end) (S c) (g + 1)).
    { destruct (find_slot d (differences b) 0) as [l|] eqn:Ef.
      - destruct (find_slot_some _ _ _ _ Ef) as [_ Hl]. rewrite Nat.sub_0_r in Hl.
        cbn [place_match differences].
        split; [now rewrite shift_in_length|].
        split.
        + intros k Hk. rewrite shift_in_nth by exact Hl.
          destruct (k <? l); [apply Hle2; exact Hk|].
          destruct (k =? l); [right; exact (Hlast eq_refl)|].
          rewrite Hlen. replace (k <? MAR_MAX_NUM_OF_MATCHED_KEYPOINTS) with true
            by (symmetry; apply Nat.ltb_lt; exact Hk).
          apply Hle2. lia.
        + split; [lia|]. intros Hc.
          destruct Hsmall as [-> Hfree]; [lia|]. split; [lia|].
          intros k Hk1 Hk2.
          destruct (find_slot_exists d (differences b) 0 g) as (l' & Hf' & Hl');
            [lia|lia| |].
          { rewrite Hfree by lia. exact (Hlast eq_refl). }
          rewrite Ef in Hf'. injection Hf' as <-.
          rewrite shift_in_nth by exact Hl.
          replace (k <? l) with false by (symmetry; apply Nat.ltb_ge; lia).
          replace (k =? l) with false by (symmetry; apply Nat.eqb_neq; lia).
          rewrite Hlen. replace (k <? MAR_MAX_NUM_OF_MATCHED_KEYPOINTS) with true
            by (symmetry; apply Nat.ltb_lt; exact Hk2).
          apply Hfree; lia.
      - split; [exact Hlen|]. split; [exact Hle2|]. split; [lia|].
        intros Hc. exfalso.
        destruct Hsmall as [-> Hfree]; [lia|].
        destruct (find_slot_exists d (differences b) 0 g) as (l' & Hf' & _);
          [lia|lia| |congruence].
        rewrite Hfree by lia. exact (Hlast eq_refl). }
    exact Hnew.
  - (* not counted *)
    split; [exact Hlen|]. split; [exact Hle2|].
    destruct (fltb d MAR_MAX_KEYPOINT_DIFFERENCE) eqn:Estrong.
    + split; [lia|]. intros Hc. exfalso.
      destruct (Hsmall Hc) as [_ Hfree].
      rewrite Hfree in Ecount
        by (unfold MAR_MAX_NUM_OF_MATCHED_KEYPOINTS in *; lia).
      congruence.
    + rewrite Nat.add_0_r. split; [exact Hcg|exact Hsmall].
Qed.

Lemma match_contained_invariant (contained : list (mar_sift_keypoint (F := F))) :
  forall b c a g,
    buffer_invariant (differences b) c g ->
    buffer_invariant (differences (fst (fst (match_contained contained b c a))))
      (snd (fst (match_contained contained b c a)))
      (g + strong_contained contained a)
    /\ snd (match_contained contained b c a) = drifted contained a.
Proof.
  induction contained as [|q rest IH]; intros b c a g Hinv;
    cbn [match_contained strong_contained drifted].
  - cbn [fst snd]. rewrite Nat.add_0_r. now split.
  - unfold strong, accepts.
    destruct (get_best_keypoint_match q (initial_keypoints a)
                (num_initial_keypoints a)) as [k bd]. cbn [fst snd].
    destruct (k =? -1)%Z; cbn [negb andb].
    + rewrite Nat.add_0_l. now apply IH.
    + pose proof (record_match_invariant b c g
                    (keypoint_at (initial_keypoints a) (Z.to_nat k)) q bd Hinv) as Hr.
      destruct (record_match b c (keypoint_at (initial_keypoints a) (Z.to_nat k)) q bd)
        as [b1 c1]. cbn [fst snd] in Hr.
      rewrite Nat.add_assoc. now apply IH.
Qed.

Lemma match_whole_frame_invariant (frame : list (mar_sift_keypoint (F := F))) :
  forall b c a g,
    buffer_invariant (differences b) c g ->
    buffer_invariant (differences (fst (match_whole_frame frame b c a)))
      (snd (match_whole_frame frame b c a))
      (g + strong_whole_frame frame a).
Proof.
  unfold strong_whole_frame.
  induction frame as [|q rest IH]; intros b c a g Hinv;
    cbn [match_whole_frame filter].
  - cbn [fst snd length]. now rewrite Nat.add_0_r.
  - assert (Hs : strong a q
                 = negb (fst (get_best_keypoint_match q (initial_keypoints a)
                                (num_initial_keypoints a)) =? -1)%Z
                   && fltb (snd (get_best_keypoint_match q (initial_keypoints a)
                                   (num_initial_keypoints a)))
                        MAR_MAX_KEYPOINT_DIFFERENCE) by reflexivity.
    rewrite Hs. clear Hs.
    destruct (get_best_keypoint_match q (initial_keypoints a)
                (num_initial_keypoints a)) as [k bd]. cbn [fst snd].
    destruct (k =? -1)%Z; cbn [negb andb].
    + now apply IH.
    + pose proof (record_match_invariant b c g
                    (keypoint_at (initial_keypoints a) (Z.to_nat k)) q bd Hinv) as Hr.
      destruct (record_match b c (keypoint_at (initial_keypoints a) (Z.to_nat k)) q bd)
        as [b1 c1]. cbn [fst snd] in Hr.
      specialize (IH b1 c1 a _ Hr).
      destruct (fltb bd MAR_MAX_KEYPOINT_DIFFERENCE); cbn [length].
      * replace (g + S (length (filter (strong a) rest)))
          with (g + 1 + length (filter (strong a) rest)) by lia. exact IH.
      * rewrite Nat.add_0_r in IH. exact IH.
Qed.

(** The counter of [find_matches] against the strong matches of the frame. *)
Lemma find_matches_counts (frame : list (mar_sift_keypoint (F := F))) b a :
  counted_matches frame b a <= strong_matches frame a
  /\ (counted_matches frame b a < MAR_MIN_NUM_OF_MATCHED_KEYPOINTS
      <-> strong_matches frame a < MAR_MIN_NUM_OF_MATCHED_KEYPOINTS)
  /\ (strong_matches frame a <= MAR_MAX_NUM_OF_MATCHED_KEYPOINTS ->
      counted_matches frame b a = strong_matches frame a).
Proof.
  unfold counted_matches, strong_matches, find_matches.
  destruct (match_contained_invariant (gather_contained a frame)
              (reset_differences b) 0 a 0 (buffer_invariant_reset b)) as [H1 Hd].
  destruct (match_contained (gather_contained a frame) (reset_differences b) 0 a)
    as [[b1 m1] a1]. cbn [fst snd] in H1, Hd. subst a1.
  cbn [Nat.add] in H1.
  destruct (buffer_invariant_counts _ _ _ H1) as (Hle1 & Hiff1 & Heq1).
  destruct (m1 <? MAR_MIN_NUM_OF_MATCHED_KEYPOINTS) eqn:E1.
  - apply Nat.ltb_lt in E1.
    replace (strong_contained (gather_contained a frame) a
             <? MAR_MIN_NUM_OF_MATCHED_KEYPOINTS) with true
      by (symmetry; apply Nat.ltb_lt; now apply Hiff1).
    pose proof (match_whole_frame_invariant frame (reset_differences b1) 0
                  (drifted (gather_contained a frame) a) 0
                  (buffer_invariant_reset b1)) as H2.
    destruct (match_whole_frame frame (reset_differences b1) 0
                (drifted (gather_contained a frame) a)) as [b2 m2].
    cbn [fst snd Nat.add] in *.
    exact (buffer_invariant_counts _ _ _ H2).
  - apply Nat.ltb_ge in E1.
    replace (strong_contained (gather_contained a frame) a
             <? MAR_MIN_NUM_OF_MATCHED_KEYPOINTS) with false
      by (symmetry; apply Nat.ltb_ge; lia).
    cbn [fst snd]. repeat split; try assumption; apply Hiff1.
Qed.

(** *** The stale content of the local arrays does not matter *)

Lemma counted_slot_bound (ds : list F) (c g : nat) (d : F) :
  buffer_invariant ds c g ->
  fltb d (nth (MAR_MAX_NUM_OF_MATCHED_KEYPOINTS - 1) ds f0) = true ->
  match find_slot d ds 0 with
  | Some l => l < MAR_MAX_NUM_OF_MATCHED_KEYPOINTS
              /\ (c < MAR_MAX_NUM_OF_MATCHED_KEYPOINTS -> l <= c)
  | None => MAR_MAX_NUM_OF_MATCHED_KEYPOINTS <= c
  end.
Proof.
  intros (Hlen & Hle2 & Hcg & Hsmall) Hd.
  destruct (find_slot d ds 0) as [l|] eqn:Ef.
  - destruct (find_slot_some _ _ _ _ Ef) as [_ Hl]. rewrite Nat.sub_0_r in Hl.
    split; [lia|]. intros Hc. destruct (Hsmall Hc) as [_ Hfree].
    destruct (find_slot_exists d ds 0 c) as (l' & Hf' & Hl'); [lia|lia| |].
    + rewrite Hfree by lia.
      rewrite Hfree in Hd
        by (unfold MAR_MAX_NUM_OF_MATCHED_KEYPOINTS in *; lia).
      exact Hd.
    + rewrite Ef in Hf'. injection Hf' as <-. lia.
  - apply Nat.le_ngt. intros Hc. destruct (Hsmall Hc) as [_ Hfree].
    destruct (find_slot_exists d ds 0 c) as (l' & Hf' & _); [lia|lia| |congruence].
    rewrite Hfree by lia.
    rewrite Hfree in Hd by (unfold MAR_MAX_NUM_OF_MATCHED_KEYPOINTS in *; lia).
    exact Hd.
Qed.

Lemma shift_in_agree (arr arr' : list F) (c l : nat) (v : F) :
  length arr = MAR_MAX_NUM_OF_MATCHED_KEYPOINTS ->
  length arr' = MAR_MAX_NUM_OF_MATCHED_KEYPOINTS ->
  l < MAR_MAX_NUM_OF_MATCHED_KEYPOINTS ->
  (c < MAR_MAX_NUM_OF_MATCHED_KEYPOINTS -> l <= c) ->
  (forall k, k < c -> k < MAR_MAX_NUM_OF_MATCHED_KEYPOINTS ->
     nth k arr f0 = nth k arr' f0) ->
  forall k, k < S c -> k < MAR_MAX_NUM_OF_MATCHED_KEYPOINTS ->
    nth k (shift_in arr l v) f0 = nth k (shift_in arr' l v) f0.
Proof.
  intros Hlen Hlen' Hl Hlc Hag k Hk Hk'.
  rewrite !shift_in_nth by lia. rewrite Hlen, Hlen'.
  destruct (k <? l) eqn:E1.
  - apply Nat.ltb_lt in E1. apply Hag; lia.
  - destruct (k =? l) eqn:E2; [reflexivity|].
    apply Nat.ltb_ge in E1. apply Nat.eqb_neq in E2.
    replace (k <? MAR_MAX_NUM_OF_MATCHED_KEYPOINTS) with true
      by (symmetry; apply Nat.ltb_lt; exact Hk').
    apply Hag; lia.
Qed.

Lemma record_match_agree (b b' : match_arrays (F := F)) (c g : nat) ref q (d : F) :
  arrays_wf b -> arrays_wf b' ->
  buffer_invariant (differences b) c g ->
  arrays_agree c b b' ->
  snd (record_match b' c ref q d) = snd (record_match b c ref q d)
  /\ arrays_agree (snd (record_match b c ref q d))
       (fst (record_match b c ref q d)) (fst (record_match b' c ref q d)).
Proof.
  intros (Wx & Wy & Wu & Wv & Wd) (Wx' & Wy' & Wu' & Wv' & Wd') Hinv [Hd Hxy].
  unfold record_match. rewrite <- Hd.
  destruct (fltb d (nth (MAR_MAX_NUM_OF_MATCHED_KEYPOINTS - 1) (differences b) f0))
    eqn:Ecount; cbn [fst snd]; [|split; [reflexivity|now split]].
  split; [reflexivity|].
  pose proof (counted_slot_bound _ _ _ d Hinv Ecount) as Hslot.
  destruct (find_slot d (differences b) 0) as [l|].
  - destruct Hslot as [Hl Hlc]. split.
    + cbn [place_match differences]. now rewrite Hd.
    + intros k Hk Hk'. cbn [place_match arr_x arr_y arr_u arr_v].
      repeat split; apply (shift_in_agree _ _ c); try assumption;
        intros k0 Hk0 Hk0'; now apply Hxy.
  - split; [exact Hd|]. intros k Hk Hk'. apply Hxy; lia.
Qed.

Lemma match_contained_agree (contained : list (mar_sift_keypoint (F := F))) :
  forall b b' c a g,
    arrays_wf b -> arrays_wf b' ->
    buffer_invariant (differences b) c g ->
    arrays_agree c b b' ->
    snd (fst (match_contained contained b' c a))
    = snd (fst (match_contained contained b c a))
    /\ snd (match_contained contained b' c a)
       = snd (match_contained contained b c a)
    /\ arrays_agree (snd (fst (match_contained contained b c a)))
         (fst (fst (match_contained contained b c a)))
         (fst (fst (match_contained contained b' c a))).
Proof.
  induction contained as [|q rest IH]; intros b b' c a g Hb Hb' Hinv Hag;
    cbn [match_contained].
  - cbn [fst snd]. split; [reflexivity|]. split; [reflexivity|exact Hag].
  - destruct (get_best_keypoint_match q (initial_keypoints a)
                (num_initial_keypoints a)) as [k bd].
    destruct (k =? -1)%Z; [now apply (IH _ _ _ _ g)|].
    pose proof (record_match_agree b b' c g
                  (keypoint_at (initial_keypoints a) (Z.to_nat k)) q bd
                  Hb Hb' Hinv Hag) as [Hc Hag1].
    pose proof (record_match_invariant b c g
                  (keypoint_at (initial_keypoints a) (Z.to_nat k)) q bd Hinv) as Hinv1.
    pose proof (record_match_wf b c
                  (keypoint_at (initial_keypoints a) (Z.to_nat k)) q bd Hb) as Hw1.
    pose proof (record_match_wf b' c
                  (keypoint_at (initial_keypoints a) (Z.to_nat k)) q bd Hb') as Hw1'.
    destruct (record_match b c (keypoint_at (initial_keypoints a) (Z.to_nat k)) q bd)
      as [b1 c1].
    destruct (record_match b' c (keypoint_at (initial_keypoints a) (Z.to_nat k)) q bd)
      as [b1' c1'].
    cbn [fst snd] in *. subst c1'.
    exact (IH _ _ _ _ _ Hw1 Hw1' Hinv1 Hag1).
Qed.

Lemma match_whole_frame_agree (frame : list (mar_sift_keypoint (F := F))) :
  forall b b' c a g,
    arrays_wf b -> arrays_wf b' ->
    buffer_invariant (differences b) c g ->
    arrays_agree c b b' ->
    snd (match_whole_frame frame b' c a) = snd (match_whole_frame frame b c a)
    /\ arrays_agree (snd (match_whole_frame frame b c a))
         (fst (match_whole_frame frame b c a))
         (fst (match_whole_frame frame b' c a)).
Proof.
  induction frame as [|q rest IH]; intros b b' c a g Hb Hb' Hinv Hag;
    cbn [match_whole_frame].
  - cbn [fst snd]. split; [reflexivity|exact Hag].
  - destruct (get_best_keypoint_match q (initial_keypoints a)
                (num_initial_keypoints a)) as [k bd].
    destruct (k =? -1)%Z; [now apply (IH _ _ _ _ g)|].
    pose proof (record_match_agree b b' c g
                  (keypoint_at (initial_keypoints a) (Z.to_nat k)) q bd
                  Hb Hb' Hinv Hag) as [Hc Hag1].
    pose proof (record_match_invariant b c g
                  (keypoint_at (initial_keypoints a) (Z.to_nat k)) q bd Hinv) as Hinv1.
    pose proof (record_match_wf b c
                  (keypoint_at (initial_keypoints a) (Z.to_nat k)) q bd Hb) as Hw1.
    pose proof (record_match_wf b' c
                  (keypoint_at (initial_keypoints a) (Z.to_nat k)) q bd Hb') as Hw1'.
    destruct (record_match b c (keypoint_at (initial_keypoints a) (Z.to_nat k)) q bd)
      as [b1 c1].
    destruct (record_match b' c (keypoint_at (initial_keypoints a) (Z.to_nat k)) q bd)
      as [b1' c1'].
    cbn [fst snd] in *. subst c1'.
    exact (IH _ _ _ _ _ Hw1 Hw1' Hinv1 Hag1).
Qed.

Lemma reset_differences_agree (b b' : match_arrays (F := F)) :
  arrays_agree 0 (reset_differences b) (reset_differences b').
Proof. split; [reflexivity|]. intros l Hl. lia. Qed.

(** Whatever the arrays hold on entry, [find_matches] counts the same
    matches, leaves the same references and writes the same
    correspondences. *)
Lemma find_matches_agree (frame : list (mar_sift_keypoint (F := F))) b b' a :
  arrays_wf b -> arrays_wf b' ->
  snd (fst (find_matches frame b' a)) = snd (fst (find_matches frame b a))
  /\ snd (find_matches frame b' a) = snd (find_matches frame b a)
  /\ arrays_agree (snd (fst (find_matches frame b a)))
       (fst (fst (find_matches frame b a))) (fst (fst (find_matches frame b' a))).
Proof.
  intros Hb Hb'. unfold find_matches.
  pose proof (match_contained_agree (gather_contained a frame)
                (reset_differences b) (reset_differences b') 0 a 0
                (reset_differences_wf b Hb) (reset_differences_wf b' Hb')
                (buffer_invariant_reset b) (reset_differences_agree b b'))
    as (Hm & Ha & Hag).
  pose proof (match_contained_spec (gather_contained a frame)
                (reset_differences b) 0 a (reset_differences_wf b Hb)) as Hs.
  pose proof (match_contained_spec (gather_contained a frame)
                (reset_differences b') 0 a (reset_differences_wf b' Hb')) as Hs'.
  destruct (match_contained (gather_contained a frame) (reset_differences b) 0 a)
    as [[b1 m1] a1].
  destruct (match_contained (gather_contained a frame) (reset_differences b') 0 a)
    as [[b1' m1'] a1'].
  cbn [fst snd] in Hm, Ha, Hag. subst m1' a1'.
  destruct Hs as [Hw1 _], Hs' as [Hw1' _].
  destruct (m1 <? MAR_MIN_NUM_OF_MATCHED_KEYPOINTS).
  - pose proof (match_whole_frame_agree frame (reset_differences b1)
                  (reset_differences b1') 0 a1 0
                  (reset_differences_wf b1 Hw1) (reset_differences_wf b1' Hw1')
                  (buffer_invariant_reset b1) (reset_differences_agree b1 b1'))
      as (Hm2 & Hag2).
    destruct (match_whole_frame frame (reset_differences b1) 0 a1) as [b2 m2].
    destruct (match_whole_frame frame (reset_differences b1') 0 a1) as [b2' m2'].
    cbn [fst snd] in *. split; [exact Hm2|]. split; [reflexivity|exact Hag2].
  - cbn [fst snd]. split; [reflexivity|]. split; [reflexivity|exact Hag].
Qed.

End BufferFacts.

(** ** The tracker: status, fallback, drift, growth *)

Section TrackerFacts.

Context {F : Type} {FO : FloatOps F} {FOrd : FloatOrder F}.
Variable pinv : fmat (F := F) -> fmat (F := F).

Lemma bounds_strict : bounds_are_strict (F := F).
Proof.
  intros T. unfold skew_exceeded, scale_ratio_exceeded.
  split; intros ->; apply fltb_irrefl.
Qed.

(** The status rule for one call of the loop body, in a frame with at most
    256 strong matches. *)
Lemma update_augmentation_status_rule (frame : list mar_sift_keypoint)
    (b : match_arrays) (a : mar_augmentation) :
  arrays_wf b ->
  strong_matches frame a <= MAR_MAX_NUM_OF_MATCHED_KEYPOINTS ->
  status_rule_as_implemented pinv frame b a.
Proof.
  intros Hb Hstrong.
  destruct (find_matches_counts frame b a) as (_ & Hiff & Heq).
  specialize (Heq Hstrong). rewrite <- Heq in Hstrong.
  unfold status_rule_as_implemented, status_rule_holds, update_augmentation,
    fit_rejected, fit_parameters, counted_matches in *.
  pose proof (find_matches_spec frame b a Hb) as Hfm.
  destruct (find_matches frame b a) as [[b1 m] a1].
  destruct Hfm as [Hb1 (_ & Ht & Hti & _)]. cbn [fst snd] in *.
  destruct (MAR_MIN_NUM_OF_MATCHED_KEYPOINTS <=? m) eqn:Em.
  - apply Nat.leb_le in Em.
    assert (Hg : MAR_MIN_NUM_OF_MATCHED_KEYPOINTS <= strong_matches frame a)
      by (apply Nat.le_ngt; intros Hlt; apply Hiff in Hlt; lia).
    destruct (build_system_in_bounds b1 Hb1 m 0) as (A & rhs & ->); [lia|].
    destruct (skew_exceeded (solve_transform pinv A rhs)) eqn:Esk.
    { split; [|split].
      - split; [intros _; now right|reflexivity].
      - intros _. now split.
      - intros H. now elim H. }
    destruct (scale_ratio_exceeded (solve_transform pinv A rhs)) eqn:Esc.
    { split; [|split].
      - split; [intros _; now right|reflexivity].
      - intros _. now split.
      - intros H. now elim H. }
    destruct (grow_references frame
                (set_transform a1 (transform_of (solve_transform pinv A rhs))))
      as [a2|name i sz] eqn:Eg.
    + apply grow_references_fields in Eg. destruct Eg as (_ & Ht2 & _ & _).
      cbn [transform set_transform] in Ht2.
      split; [|split].
      * split; [discriminate|]. intros [H|H]; [lia|discriminate].
      * discriminate.
      * intros _. split; [reflexivity|]. split.
        -- exists (solve_transform pinv A rhs). now split.
        -- rewrite Ht2. reflexivity.
    + apply grow_references_fault in Eg. subst name.
      split; [reflexivity|]. split; [exact Hg|reflexivity].
  - apply Nat.leb_gt in Em. apply Hiff in Em. split; [|split].
    + split; [intros _; now left|reflexivity].
    + intros _. now split.
    + intros H. now elim H.
Qed.

(** The fit does not depend on what the arrays held on entry. *)
Lemma build_system_agree (b b' : match_arrays (F := F)) (m : nat) :
  arrays_wf b -> arrays_wf b' -> arrays_agree m b b' ->
  m <= MAR_MAX_NUM_OF_MATCHED_KEYPOINTS ->
  forall n j, j + n <= m ->
    build_system b' j n = build_system b j n.
Proof.
  intros (Wx & Wy & Wu & Wv & _) (Wx' & Wy' & Wu' & Wv' & _) [_ Hxy] Hm.
  induction n as [|n IH]; intros j Hj; [reflexivity|].
  cbn [build_system]. unfold correspondence.
  destruct (Hxy j) as (Ex & Ey & Eu & Ev); [lia|lia|].
  rewrite (nth_error_nth' (arr_x b) f0), (nth_error_nth' (arr_y b) f0),
    (nth_error_nth' (arr_u b) f0), (nth_error_nth' (arr_v b) f0),
    (nth_error_nth' (arr_x b') f0), (nth_error_nth' (arr_y b') f0),
    (nth_error_nth' (arr_u b') f0), (nth_error_nth' (arr_v b') f0) by lia.
  rewrite Ex, Ey, Eu, Ev, IH by lia. reflexivity.
Qed.

Lemma fit_parameters_agree (frame : list mar_sift_keypoint)
    (b b' : match_arrays) (a : mar_augmentation) :
  arrays_wf b -> arrays_wf b' ->
  strong_matches frame a <= MAR_MAX_NUM_OF_MATCHED_KEYPOINTS ->
  fit_parameters pinv frame b' a = fit_parameters pinv frame b a.
Proof.
  intros Hb Hb' Hstrong. unfold fit_parameters.
  destruct (find_matches_counts frame b a) as (_ & _ & Heq).
  specialize (Heq Hstrong). unfold counted_matches in Heq.
  destruct (find_matches_agree frame b b' a Hb Hb') as (Hm & _ & Hag).
  pose proof (find_matches_spec frame b a Hb) as Hs.
  pose proof (find_matches_spec frame b' a Hb') as Hs'.
  destruct (find_matches frame b a) as [[b1 m] a1].
  destruct (find_matches frame b' a) as [[b1' m'] a1'].
  cbn [fst snd] in *. subst m'. destruct Hs as [Hw _], Hs' as [Hw' _].
  destruct (MAR_MIN_NUM_OF_MATCHED_KEYPOINTS <=? m); [|reflexivity].
  rewrite (build_system_agree b1 b1' m Hw Hw' Hag) by lia. reflexivity.
Qed.

Lemma status_rule_holds_agree (frame : list mar_sift_keypoint)
    (b b' : match_arrays) (a a' : mar_augmentation) status :
  arrays_wf b -> arrays_wf b' ->
  strong_matches frame a <= MAR_MAX_NUM_OF_MATCHED_KEYPOINTS ->
  status_rule_holds pinv frame b' a a' status ->
  status_rule_holds pinv frame b a a' status.
Proof.
  intros Hb Hb' Hstrong. unfold status_rule_holds, fit_rejected.
  now rewrite (fit_parameters_agree frame b b' a Hb Hb' Hstrong).
Qed.

(** With more than 256 counted matches the run stops at [x[256]]. *)
Lemma update_faults_when_overfull (frame : list mar_sift_keypoint)
    (b : match_arrays) (a : mar_augmentation) :
  arrays_wf b ->
  MAR_MAX_NUM_OF_MATCHED_KEYPOINTS < counted_matches frame b a ->
  update_augmentation pinv frame b a
  = OutOfBounds CorrespondenceArrays MAR_MAX_NUM_OF_MATCHED_KEYPOINTS
      MAR_MAX_NUM_OF_MATCHED_KEYPOINTS.
Proof.
  intros Hb Hc. unfold update_augmentation, counted_matches in *.
  pose proof (find_matches_spec frame b a Hb) as Hfm.
  destruct (find_matches frame b a) as [[b1 m] a1]. destruct Hfm as [Hb1 _].
  cbn [fst snd] in Hc.
  replace (MAR_MIN_NUM_OF_MATCHED_KEYPOINTS <=? m) with true
    by (symmetry; apply Nat.leb_le;
        unfold MAR_MIN_NUM_OF_MATCHED_KEYPOINTS,
          MAR_MAX_NUM_OF_MATCHED_KEYPOINTS in *; lia).
  rewrite (build_system_past_end b1 Hb1 m 0) by lia. reflexivity.
Qed.

Lemma update_keeps_the_count (frame : list mar_sift_keypoint)
    (b : match_arrays) (a : mar_augmentation) :
  match update_augmentation pinv frame b a with
  | Done (_, a', _) => num_initial_keypoints a' = num_initial_keypoints a
  | OutOfBounds _ _ _ => True
  end.
Proof.
  unfold update_augmentation.
  pose proof (find_matches_fields frame b a) as Hf.
  destruct (find_matches frame b a) as [[b1 m] a1]. cbn [snd] in Hf.
  destruct Hf as (_ & _ & _ & Hn & _).
  destruct (MAR_MIN_NUM_OF_MATCHED_KEYPOINTS <=? m); [|exact Hn].
  destruct (build_system b1 0 m) as [[A rhs]|name i sz]; [|exact I].
  destruct (skew_exceeded _); [exact Hn|].
  destruct (scale_ratio_exceeded _); [exact Hn|].
  destruct (grow_references frame _) as [a2|name i sz] eqn:Eg; [|exact I].
  apply grow_references_fields in Eg. destruct Eg as (_ & _ & _ & Hn2).
  rewrite Hn2. exact Hn.
Qed.

End TrackerFacts.

(** ** The registry *)

Section RegistryFacts.

Context {F : Type} {FO : FloatOps F}.
Variable pinv : fmat (F := F) -> fmat (F := F).

Lemma array_set_length {A : Type} (arr : list A) (i : nat) (v : A) :
  length (array_set arr i v) = length arr.
Proof.
  revert i. induction arr as [|a rest IH]; intros [|i]; cbn; try reflexivity.
  now rewrite IH.
Qed.

Lemma array_set_nth_same {A : Type} (arr : list A) (i : nat) (v d : A) :
  i < length arr -> nth i (array_set arr i v) d = v.
Proof.
  revert i. induction arr as [|a rest IH]; intros [|i] Hi; cbn in *;
    try lia; [reflexivity|]. apply IH. lia.
Qed.

Lemma array_set_nth_other {A : Type} (arr : list A) (i j : nat) (v d : A) :
  i <> j -> nth j (array_set arr i v) d = nth j arr d.
Proof.
  revert i j. induction arr as [|a rest IH]; intros [|i] [|j] Hne; cbn;
    try reflexivity; try lia. apply IH. lia.
Qed.

(** The seeding loop counts the keypoints inside the ellipse, up to 512. *)
Lemma seed_loop_count (keypoints : list (mar_sift_keypoint (F := F))) region :
  forall a n,
    n <= MAR_MAX_NUMBER_OF_AUGMENTATION_KEYPOINTS ->
    snd (seed_loop keypoints region a n)
    = Nat.min (n + count_in_ellipse keypoints region)
        MAR_MAX_NUMBER_OF_AUGMENTATION_KEYPOINTS.
Proof.
  unfold count_in_ellipse.
  induction keypoints as [|kp rest IH]; intros a n Hn; cbn [seed_loop filter].
  - cbn [length snd]. lia.
  - destruct (is_point_in_ellipse (kp_x kp) (kp_y kp) (ellipse_x region)
                (ellipse_y region) (ellipse_a region) (ellipse_b region)
                (ellipse_angle region)).
    + rewrite IH.
      * cbn [length].
        destruct (MAR_MAX_NUMBER_OF_AUGMENTATION_KEYPOINTS <=? n) eqn:E;
          [apply Nat.leb_le in E|apply Nat.leb_gt in E]; lia.
      * destruct (MAR_MAX_NUMBER_OF_AUGMENTATION_KEYPOINTS <=? n) eqn:E;
          [apply Nat.leb_le in E|apply Nat.leb_gt in E]; lia.
    + now apply IH.
Qed.

Lemma get_keypoints_effect detector (st : mar_state (F := F)) :
  mar_augment_initialized st = true ->
  mar_sift_keypoints (fst (mar_augment_get_keypoints detector st))
  = frame_keypoints detector st
  /\ mar_augmentations (fst (mar_augment_get_keypoints detector st))
     = mar_augmentations st
  /\ mar_augmentation_initialized (fst (mar_augment_get_keypoints detector st))
     = mar_augmentation_initialized st.
Proof.
  intros Hinit. unfold mar_augment_get_keypoints, frame_keypoints.
  rewrite Hinit. cbn [negb].
  destruct (mar_sift_calculated_this_frame st); [repeat split|].
  destruct (fst detector =? MAR_ERROR_NONE)%Z; repeat split.
Qed.

(** What seeding slot [i] does. *)
Lemma seed_slot_result detector region (st : mar_state (F := F)) (i : nat) :
  mar_augment_initialized st = true ->
  registry_wf st ->
  i < MAR_MAX_NUMBER_OF_AUGMENTATIONS ->
  let inside := count_in_ellipse (frame_keypoints detector st) region in
  let '(st', code, id) := seed_slot pinv detector region st i in
  (inside < MAR_MINIMUM_AUGMENTATION_KEYPOINTS ->
   code = MAR_ERROR_TOO_FEW_KEYPOINTS /\ id = None
   /\ slot_initialized st' i = slot_initialized st i)
  /\ (MAR_MINIMUM_AUGMENTATION_KEYPOINTS <= inside ->
      code = MAR_ERROR_NONE /\ id = Some i /\ slot_initialized st' i = true).
Proof.
  intros Hinit (Hlf & Hla & _) Hi inside. unfold seed_slot.
  set (a1 := {| mser := region;
                transform := transform (augmentation_at st i);
                transform_inverse := transform_inverse (augmentation_at st i);
                initial_keypoints := initial_keypoints (augmentation_at st i);
                num_initial_keypoints := num_initial_keypoints (augmentation_at st i);
                new_keypoint_cursor := 0;
                potential_keypoints := potential_keypoints (augmentation_at st i);
                num_potential_keypoints :=
                  num_potential_keypoints (augmentation_at st i) |}).
  destruct (get_keypoints_effect detector (set_augmentation st i a1) Hinit)
    as (Hk & Ha & Hf).
  set (st1 := fst (mar_augment_get_keypoints detector (set_augmentation st i a1))) in *.
  change (frame_keypoints detector (set_augmentation st i a1))
    with (frame_keypoints detector st) in Hk.
  cbn [set_augmentation mar_augmentations mar_augmentation_initialized] in Ha, Hf.
  pose proof (seed_loop_count (mar_sift_keypoints st1) region
                (augmentation_at st1 i) 0 (Nat.le_0_l _)) as Hcount.
  cbn [Nat.add] in Hcount.
  replace (count_in_ellipse (mar_sift_keypoints st1) region) with inside in Hcount
    by (unfold inside; now rewrite Hk).
  destruct (seed_loop (mar_sift_keypoints st1) region (augmentation_at st1 i) 0)
    as [a2 num]. cbn [snd] in Hcount.
  destruct (num <? MAR_MINIMUM_AUGMENTATION_KEYPOINTS) eqn:E;
    [apply Nat.ltb_lt in E|apply Nat.ltb_ge in E].
  - split.
    + intros _. split; [reflexivity|]. split; [reflexivity|].
      unfold slot_initialized. cbn [set_augmentation mar_augmentation_initialized].
      now rewrite Hf.
    + intros Hc. exfalso. unfold MAR_MINIMUM_AUGMENTATION_KEYPOINTS,
        MAR_MAX_NUMBER_OF_AUGMENTATION_KEYPOINTS in *. lia.
  - split.
    + intros Hc. exfalso. unfold MAR_MINIMUM_AUGMENTATION_KEYPOINTS,
        MAR_MAX_NUMBER_OF_AUGMENTATION_KEYPOINTS in *. lia.
    + intros _. split; [reflexivity|]. split; [reflexivity|].
      unfold slot_initialized.
      cbn [set_augmentation set_slot_initialized mar_augmentation_initialized].
      rewrite Hf. apply array_set_nth_same.
      rewrite Hlf. exact Hi.
Qed.

Lemma find_slot_first_free detector region (st : mar_state (F := F)) (i : nat) :
  slot_initialized st i = false ->
  forall n j,
    j <= i < j + n ->
    (forall k, j <= k < i -> slot_initialized st k = true) ->
    find_slot_and_seed pinv n j detector region st
    = seed_slot pinv detector region st i.
Proof.
  intros Hfree. induction n as [|n IH]; intros j Hj Hbelow; [lia|].
  cbn [find_slot_and_seed].
  destruct (Nat.eq_dec j i) as [->|Hne].
  - now rewrite Hfree.
  - rewrite (Hbelow j) by lia. cbn [negb]. apply IH; [lia|].
    intros k Hk. apply Hbelow. lia.
Qed.

Lemma find_slot_none_free detector region (st : mar_state (F := F)) :
  forall n j,
    (forall k, j <= k < j + n -> slot_initialized st k = true) ->
    find_slot_and_seed pinv n j detector region st
    = (st, MAR_ERROR_NO_AUGMENTATION_RESOURCES_AVAILABLE, None).
Proof.
  induction n as [|n IH]; intros j Hall; [reflexivity|].
  cbn [find_slot_and_seed]. rewrite (Hall j) by lia. cbn [negb].
  apply IH. intros k Hk. apply Hall. lia.
Qed.

(** C8.  In an initialised module, with [i] the first free slot of the
    32-slot registry, [mar_augment_new_augmentation] returns
    [TooFewKeypoints] exactly when fewer than 10 keypoints of the current
    frame lie inside the ellipse, and otherwise returns [Ok], writes the id
    [i] and marks the slot; when all 32 slots are taken it returns
    [NoResources] and changes nothing. *)
Theorem registration_needs_ten_keypoints
    (detector : mar_error_code * list mar_sift_keypoint)
    (region : mar_mser) (st : mar_state) :
  mar_augment_initialized st = true ->
  registry_wf st ->
  registration_rule pinv detector region st.
Proof.
  intros Hinit Hwf. unfold registration_rule, mar_augment_new_augmentation.
  rewrite Hinit. cbn [negb].
  destruct (find_slot_and_seed pinv MAR_MAX_NUMBER_OF_AUGMENTATIONS 0 detector
              region st) as [[st' code] id] eqn:E.
  split.
  - intros i (Hi & Hfree & Hbelow).
    rewrite (find_slot_first_free detector region st i Hfree) in E;
      [|lia|intros k Hk; apply Hbelow; lia].
    pose proof (seed_slot_result detector region st i Hinit Hwf Hi) as Hs.
    rewrite E in Hs. cbv zeta in Hs. destruct Hs as [Hfew Henough].
    split; [|split].
    + split.
      * intros ->.
        destruct (Nat.lt_ge_cases
                    (count_in_ellipse (frame_keypoints detector st) region)
                    MAR_MINIMUM_AUGMENTATION_KEYPOINTS) as [H|H]; [exact H|].
        destruct (Henough H) as [Hc _]. discriminate.
      * intros H. now destruct (Hfew H).
    + intros H. destruct (Hfew H) as (_ & -> & ->). now split.
    + exact Henough.
  - intros Hall.
    rewrite find_slot_none_free in E by (intros k Hk; apply Hall; lia).
    injection E as <- <- <-. repeat split.
Qed.

(** The three accessors that check the slot answer [UnknownId] on an empty
    slot of an initialised module, and write nothing. *)
Lemma checked_accessors_reject_empty_slot (st : mar_state (F := F)) (id : nat) (x y : F) :
  mar_augment_initialized st = true ->
  slot_initialized st id = false ->
  mar_augment_get_transformation st id
  = (MAR_ERROR_AUGMENTATION_ID_DOES_NOT_EXIST, None)
  /\ mar_augment_transform_point st id x y
     = (MAR_ERROR_AUGMENTATION_ID_DOES_NOT_EXIST, None)
  /\ mar_augment_untransform_point st id x y
     = (MAR_ERROR_AUGMENTATION_ID_DOES_NOT_EXIST, None).
Proof.
  intros Hinit Hslot.
  unfold mar_augment_get_transformation, mar_augment_transform_point,
    mar_augment_untransform_point.
  rewrite Hinit, Hslot. repeat split.
Qed.

Lemma free_augmentation_empties_slot (st : mar_state (F := F)) (id : nat) :
  registry_wf st -> id < MAR_MAX_NUMBER_OF_AUGMENTATIONS ->
  slot_initialized (mar_augment_free_augmentation st id) id = false.
Proof.
  intros (Hlf & _) Hid. unfold mar_augment_free_augmentation.
  destruct (slot_initialized st id) eqn:E; [|exact E].
  unfold slot_initialized. cbn [set_slot_initialized mar_augmentation_initialized].
  apply array_set_nth_same. rewrite Hlf. exact Hid.
Qed.

Lemma get_error_after_free (st : mar_state (F := F)) (id : nat) :
  mar_augmentation_get_error (mar_augment_free_augmentation st id) id
  = mar_augmentation_get_error st id.
Proof.
  unfold mar_augmentation_get_error, mar_augment_free_augmentation.
  destruct (slot_initialized st id); reflexivity.
Qed.

End RegistryFacts.

(** ** mar_augment_update, slot by slot *)

Section FrameFacts.

Context {F : Type} {FO : FloatOps F} {FOrd : FloatOrder F}.
Variable pinv : fmat (F := F) -> fmat (F := F).

(** Inside the loop both flags are set, and
    [mar_augment_untransform_point] is the matrix-vector product. *)
Lemma untransform_in_loop (st : mar_state (F := F)) (i : nat) (x y : F) :
  mar_augment_initialized st = true ->
  slot_initialized st i = true ->
  mar_augment_untransform_point st i x y
  = (MAR_ERROR_NONE,
     Some (apply_matrix (transform_inverse (augmentation_at st i)) x y)).
Proof.
  intros Hinit Hslot. unfold mar_augment_untransform_point.
  now rewrite Hinit, Hslot.
Qed.

Lemma update_augmentation_wf (frame : list mar_sift_keypoint) b a b' a' status :
  arrays_wf b ->
  update_augmentation pinv frame b a = Done (b', a', status) ->
  arrays_wf b'.
Proof.
  intros Hb. unfold update_augmentation.
  pose proof (find_matches_spec frame b a Hb) as Hfm.
  destruct (find_matches frame b a) as [[b1 m] a1]. destruct Hfm as [Hb1 _].
  destruct (MAR_MIN_NUM_OF_MATCHED_KEYPOINTS <=? m).
  - destruct (build_system b1 0 m) as [[A rhs]|name i sz]; [|discriminate].
    destruct (skew_exceeded _); [intros H; now injection H as <- _ _|].
    destruct (scale_ratio_exceeded _); [intros H; now injection H as <- _ _|].
    destruct (grow_references frame _) as [a2|name i sz]; [|discriminate].
    intros H. now injection H as <- _ _.
  - intros H. now injection H as <- _ _.
Qed.

(** A completed run of the loop over the slots: the flags and the frame are
    untouched, the slots already visited are untouched, and every
    initialised slot still to visit is updated by [update_augmentation] on
    its own augmentation. *)
Lemma update_slots_per_slot :
  forall n j b (st : mar_state (F := F)) b' st',
    arrays_wf b -> registry_wf st ->
    j + n <= MAR_MAX_NUMBER_OF_AUGMENTATIONS ->
    update_slots pinv n j b st = Done (b', st') ->
    registry_wf st'
    /\ mar_augmentation_initialized st' = mar_augmentation_initialized st
    /\ mar_sift_keypoints st' = mar_sift_keypoints st
    /\ (forall i, i < j ->
          augmentation_at st' i = augmentation_at st i
          /\ successful_at st' i = successful_at st i)
    /\ (forall i, j <= i < j + n -> slot_initialized st i = true ->
          exists b_i b_i',
            arrays_wf b_i
            /\ update_augmentation pinv (mar_sift_keypoints st) b_i
                 (augmentation_at st i)
               = Done (b_i', augmentation_at st' i, successful_at st' i)).
Proof.
  induction n as [|n IH]; intros j b st b' st' Hb Hwf Hj H; cbn [update_slots] in H.
  - injection H as <- <-. repeat split; try apply Hwf. intros i Hi. lia.
  - destruct (slot_initialized st j) eqn:Ej.
    + destruct (update_augmentation pinv (mar_sift_keypoints st) b
                  (augmentation_at st j)) as [[[b1 a1] c1]|name ix sz] eqn:Eu;
        [|discriminate].
      pose proof (update_augmentation_wf _ _ _ _ _ _ Hb Eu) as Hb1.
      set (st1 := set_successful (set_augmentation st j a1) j c1) in *.
      assert (Hwf1 : registry_wf st1).
      { destruct Hwf as (W1 & W2 & W3). repeat split; cbn;
          rewrite ?array_set_length; assumption. }
      destruct (IH (S j) b1 st1 b' st' Hb1 Hwf1 ltac:(lia) H)
        as (Hwf' & Hflags & Hkps & Hbefore & Hafter).
      split; [exact Hwf'|]. split; [exact Hflags|]. split; [exact Hkps|].
      destruct Hwf as (W1 & W2 & W3).
      split.
      * intros i Hi. destruct (Hbefore i ltac:(lia)) as [-> ->].
        unfold augmentation_at, successful_at, st1. cbn.
        rewrite !array_set_nth_other by lia. now split.
      * intros i Hi Hslot. destruct (Nat.eq_dec i j) as [->|Hne].
        -- exists b, b1. split; [exact Hb|].
           destruct (Hbefore j ltac:(lia)) as [-> ->].
           unfold augmentation_at at 2, successful_at, st1. cbn.
           rewrite !array_set_nth_same by lia. exact Eu.
        -- destruct (Hafter i ltac:(lia) Hslot) as (b_i & b_i' & Hbi & Hui).
           exists b_i, b_i'. split; [exact Hbi|].
           unfold augmentation_at at 1, st1 in Hui. cbn in Hui.
           rewrite array_set_nth_other in Hui by lia. exact Hui.
    + destruct (IH (S j) b st b' st' Hb Hwf ltac:(lia) H)
        as (Hwf' & Hflags & Hkps & Hbefore & Hafter).
      split; [exact Hwf'|]. split; [exact Hflags|]. split; [exact Hkps|].
      split.
      * intros i Hi. apply Hbefore. lia.
      * intros i Hi Hslot. destruct (Nat.eq_dec i j) as [->|Hne]; [congruence|].
        apply Hafter; [lia|exact Hslot].
Qed.

(** [mar_augment_update] on a running, initialised module whose camera and
    detector succeed: every initialised slot is updated by
    [update_augmentation] on its own augmentation and on the detector's
    keypoints, and what it returns is what is recorded for the slot. *)
Lemma mar_augment_update_per_slot camera_update detector b
    (st st' : mar_state (F := F)) rc :
  arrays_wf b -> registry_wf st ->
  mar_augment_initialized st = true ->
  mar_run_augmentation st = true ->
  camera_update = MAR_ERROR_NONE ->
  fst detector = MAR_ERROR_NONE ->
  mar_augment_update pinv camera_update detector b st = Done (st', rc) ->
  rc = MAR_ERROR_NONE
  /\ forall i, i < MAR_MAX_NUMBER_OF_AUGMENTATIONS ->
       slot_initialized st i = true ->
       exists b_i b_i',
         arrays_wf b_i
         /\ update_augmentation pinv (snd detector) b_i (augmentation_at st i)
            = Done (b_i', augmentation_at st' i, successful_at st' i).
Proof.
  intros Hb Hwf Hinit Hrun -> Hdet. unfold mar_augment_update.
  rewrite Hinit, Hdet. cbn [negb Z.eqb MAR_ERROR_NONE set_frame_flags
    mar_run_augmentation]. rewrite Hrun. cbn [negb].
  set (st3 := set_frame_flags _ false true).
  destruct (update_slots pinv MAR_MAX_NUMBER_OF_AUGMENTATIONS 0 b st3)
    as [[b4 st4]|name ix sz] eqn:E; [|discriminate].
  intros H. injection H as <- <-. split; [reflexivity|].
  assert (Hwf3 : registry_wf st3) by exact Hwf.
  destruct (update_slots_per_slot MAR_MAX_NUMBER_OF_AUGMENTATIONS 0 b st3 b4 st4
              Hb Hwf3 (Nat.le_refl _) E)
    as (_ & _ & _ & _ & Hafter).
  intros i Hi Hslot. exact (Hafter i ltac:(lia) Hslot).
Qed.

(** C1 (amended).  When [mar_augment_update] completes on a running,
    initialised module, every initialised slot whose augmentation finds at
    most 256 strong matches (accepted matches at a distance below
    [MAR_MAX_KEYPOINT_DIFFERENCE = 2]) has the recorded status
    [InsufficientMatches] exactly when it finds fewer than five strong
    matches (those of the full-frame pass, when it is taken) or the fitted
    parameters fail a validation bound, both bounds being strict; in that
    case both transforms are unchanged, and otherwise the status is [Ok]
    and the transform is the fitted one, with bottom row [0 0 1]. *)
Theorem recorded_status_rule camera_update detector b (st : mar_state (F := F)) :
  arrays_wf b -> registry_wf st ->
  mar_augment_initialized st = true ->
  mar_run_augmentation st = true ->
  camera_update = MAR_ERROR_NONE ->
  fst detector = MAR_ERROR_NONE ->
  frame_status_rule pinv camera_update detector b st
  /\ bounds_are_strict (F := F).
Proof.
  intros Hb Hwf Hinit Hrun Hcam Hdet. split; [|exact bounds_strict].
  unfold frame_status_rule.
  destruct (mar_augment_update pinv camera_update detector b st)
    as [[st' rc]|name ix sz] eqn:E; [|exact I].
  destruct (mar_augment_update_per_slot camera_update detector b st st' rc
              Hb Hwf Hinit Hrun Hcam Hdet E) as [Hrc Hslots].
  split; [exact Hrc|]. intros i Hi Hslot Hstrong.
  destruct (Hslots i Hi Hslot) as (b_i & b_i' & Hbi & Hupd).
  pose proof (update_augmentation_status_rule pinv (snd detector) b_i
                (augmentation_at st i) Hbi Hstrong) as Hrule.
  unfold status_rule_as_implemented in Hrule. rewrite Hupd in Hrule.
  exact (status_rule_holds_agree pinv (snd detector) b b_i _ _ _
           Hb Hbi Hstrong Hrule).
Qed.

End FrameFacts.

(** C1 (as stated) fails on [frame_weak]: slot 0 accepts five matches in the
    full-frame pass, none at a distance below 2; no fit is made and the
    recorded status is [InsufficientMatches]. *)
Lemma status_rule_not_as_specified :
  slot_initialized Frames.running_far_state 0 = true
  /\ match mar_augment_update Frames.pinv_stub MAR_ERROR_NONE
            (MAR_ERROR_NONE, Frames.frame_weak) Frames.stale_arrays
            Frames.running_far_state with
     | Done (st', _) =>
         successful_at st' 0 = MAR_ERROR_TOO_FEW_MATCHING_KEYPOINTS
         /\ accepted_matches Frames.frame_weak Frames.stale_arrays
              (augmentation_at Frames.running_far_state 0) = 5
         /\ ~ status_rule_as_specified Frames.pinv_stub Frames.frame_weak
                Frames.stale_arrays (augmentation_at Frames.running_far_state 0)
                (successful_at st' 0)
     | OutOfBounds _ _ _ => False
     end.
Proof.
  split; [reflexivity|].
  destruct (mar_augment_update Frames.pinv_stub MAR_ERROR_NONE
              (MAR_ERROR_NONE, Frames.frame_weak) Frames.stale_arrays
              Frames.running_far_state) as [[st' rc]|name ix sz] eqn:E.
  - assert (Hs : successful_at st' 0 = MAR_ERROR_TOO_FEW_MATCHING_KEYPOINTS).
    { revert E. vm_compute. intros E. injection E as <- _. reflexivity. }
    assert (Ha : accepted_matches Frames.frame_weak Frames.stale_arrays
                   (augmentation_at Frames.running_far_state 0) = 5)
      by (vm_compute; reflexivity).
    split; [exact Hs|]. split; [exact Ha|].
    unfold status_rule_as_specified. rewrite Hs, Ha. intros [H _].
    destruct (H eq_refl) as [Hacc|Hrej].
    + unfold MAR_MIN_NUM_OF_MATCHED_KEYPOINTS in Hacc. lia.
    + revert Hrej. vm_compute. discriminate.
  - revert E. vm_compute. discriminate.
Qed.

Lemma recorded_status_rule_witness :
  arrays_wf Frames.stale_arrays
  /\ registry_wf Frames.running_far_state
  /\ mar_augment_initialized Frames.running_far_state = true
  /\ mar_run_augmentation Frames.running_far_state = true
  /\ MAR_ERROR_NONE = MAR_ERROR_NONE
  /\ fst (MAR_ERROR_NONE, Frames.frame_weak) = MAR_ERROR_NONE
  /\ frame_status_rule Frames.pinv_stub MAR_ERROR_NONE
       (MAR_ERROR_NONE, Frames.frame_weak) Frames.stale_arrays
       Frames.running_far_state
  /\ bounds_are_strict (F := Q).
Proof.
  assert (H1 : arrays_wf Frames.stale_arrays) by (repeat split).
  assert (H2 : registry_wf Frames.running_far_state) by (repeat split).
  assert (H3 : mar_augment_initialized Frames.running_far_state = true)
    by reflexivity.
  assert (H4 : mar_run_augmentation Frames.running_far_state = true)
    by reflexivity.
  pose proof (recorded_status_rule Frames.pinv_stub MAR_ERROR_NONE
                (MAR_ERROR_NONE, Frames.frame_weak) Frames.stale_arrays
                Frames.running_far_state H1 H2 H3 H4 eq_refl eq_refl) as [H5 H6].
  repeat (split; [assumption || reflexivity|]). exact H6.
Defined.

(** On [frame_weak] the run completes: slot 0 records
    [InsufficientMatches] and keeps its transforms. *)
Lemma frame_weak_outcome :
  match mar_augment_update Frames.pinv_stub MAR_ERROR_NONE
          (MAR_ERROR_NONE, Frames.frame_weak) Frames.stale_arrays
          Frames.running_far_state with
  | Done (st', rc) =>
      rc = MAR_ERROR_NONE
      /\ successful_at st' 0 = MAR_ERROR_TOO_FEW_MATCHING_KEYPOINTS
      /\ transform (augmentation_at st' 0)
         = transform (augmentation_at Frames.running_far_state 0)
      /\ transform_inverse (augmentation_at st' 0)
         = transform_inverse (augmentation_at Frames.running_far_state 0)
  | OutOfBounds _ _ _ => False
  end.
Proof. vm_compute. repeat split. Qed.

(** ** The defects of the per-frame code, on concrete frames *)

Section DefectFacts.

Context {F : Type} {FO : FloatOps F}.

(** Line 488 replaces the first 32 floats of the descriptor and keeps the
    other 96. *)
Lemma update_descriptor_entry (ref q : mar_sift_keypoint (F := F)) (i : nat) :
  i < MAR_SIFT_NBO * MAR_SIFT_NBP * MAR_SIFT_NBP ->
  nth i (descriptor (update_descriptor ref q)) f0
  = if i <? 32 then nth i (descriptor q) f0 else nth i (descriptor ref) f0.
Proof.
  intros Hi. unfold update_descriptor, memcpy_descriptor. cbn [descriptor].
  set (f := fun i0 : nat => if i0 <? 128 / sizeof_float
                            then nth i0 (descriptor q) f0
                            else nth i0 (descriptor ref) f0).
  rewrite (nth_indep _ f0 (f 0)) by (rewrite length_map, length_seq; exact Hi).
  rewrite (map_nth f), seq_nth by exact Hi.
  reflexivity.
Qed.

End DefectFacts.

(** C3.  On [frame_257] the full-frame pass counts 257 matches and the loop
    that fills the least-squares system reads [x[256]], past the end of the
    256-cell arrays, whatever [pinv] is. *)
Theorem fit_reads_past_the_arrays :
  counted_matches Frames.frame_257 Frames.stale_arrays Frames.registered_far = 257
  /\ forall pinv,
       update_augmentation pinv Frames.frame_257 Frames.stale_arrays
         Frames.registered_far
       = OutOfBounds CorrespondenceArrays 256 MAR_MAX_NUM_OF_MATCHED_KEYPOINTS.
Proof.
  split; [vm_compute; reflexivity|].
  intros pinv. vm_compute. reflexivity.
Qed.

(** C4.  [probe_drift] is accepted as a match of reference 0 in the pass over
    the keypoints inside the ellipse; afterwards entry 5 of the descriptor of
    reference 0 is the probe's (1), entry 40 is not (0 instead of 1): 128
    bytes, that is 32 floats, were copied. *)
Theorem descriptor_update_copies_32_floats :
  forall pinv,
    let r := update_augmentation pinv [Frames.probe_drift] Frames.stale_arrays
               Frames.registered_near in
    gather_contained Frames.registered_near [Frames.probe_drift]
    = [Frames.probe_drift]
    /\ get_best_keypoint_match Frames.probe_drift
         (initial_keypoints Frames.registered_near)
         (num_initial_keypoints Frames.registered_near) = (0%Z, 2%Q)
    /\ nth 5 (descriptor Frames.probe_drift) 0%Q = 1%Q
    /\ nth 40 (descriptor Frames.probe_drift) 0%Q = 1%Q
    /\ reference_descriptor_entry r 0 5 = Some 1%Q
    /\ reference_descriptor_entry r 0 40 = Some 0%Q.
Proof.
  intros pinv r. subst r.
  repeat split; vm_compute; reflexivity.
Qed.

(** The registered augmentations are those that any pseudo-inverse mapping
    the zero matrix to itself produces. *)
Lemma registration_with_any_pinv (pinv : fmat (F := Q) -> fmat (F := Q)) :
  pinv zero33 = zero33 ->
  mar_augment_new_augmentation pinv (MAR_ERROR_NONE, Frames.seeds_far)
    Frames.region_far state_after_init
  = (Frames.registered_far_state, MAR_ERROR_NONE, Some 0)
  /\ augmentation_at
       (fst (fst (mar_augment_new_augmentation pinv
                    (MAR_ERROR_NONE, Frames.seeds_near) Frames.region_near
                    state_after_init))) 0
     = Frames.registered_near.
Proof.
  intros H. vm_compute in H. split; vm_compute; rewrite H; reflexivity.
Qed.

(** [frame_first] leads from [registered_near] to [tracked_near]: the six
    matches are counted, and when the fit passes validation its transform
    is committed and the six keypoints become the potential keypoints. *)
Lemma first_frame_reaches_tracked_near (pinv : fmat (F := Q) -> fmat (F := Q)) :
  match update_augmentation pinv Frames.frame_first Frames.stale_arrays
          Frames.registered_near with
  | Done (b, a, status) =>
      status = MAR_ERROR_TOO_FEW_MATCHING_KEYPOINTS
      \/ (status = MAR_ERROR_NONE /\ b = Frames.arrays_after_first
          /\ a = Frames.tracked_near (transform a))
  | OutOfBounds _ _ _ => False
  end.
Proof.
  unfold update_augmentation.
  assert (Hm : snd (fst (find_matches Frames.frame_first Frames.stale_arrays
                           Frames.registered_near)) = 6)
    by (vm_compute; reflexivity).
  assert (Hb : fst (fst (find_matches Frames.frame_first Frames.stale_arrays
                           Frames.registered_near)) = Frames.arrays_after_first)
    by (vm_compute; reflexivity).
  assert (Hs : exists A rhs,
             build_system
               (fst (fst (find_matches Frames.frame_first Frames.stale_arrays
                            Frames.registered_near))) 0 6 = Done (A, rhs))
    by (vm_compute; eexists; eexists; reflexivity).
  assert (Hg : forall T,
             grow_references Frames.frame_first
               (set_transform
                  (snd (find_matches Frames.frame_first Frames.stale_arrays
                          Frames.registered_near)) T)
             = Done (Frames.tracked_near T))
    by (intros T; vm_compute; reflexivity).
  destruct (find_matches Frames.frame_first Frames.stale_arrays
              Frames.registered_near) as [[b1 m] a1].
  cbn [fst snd] in Hm, Hb, Hs, Hg. subst m b1.
  change (MAR_MIN_NUM_OF_MATCHED_KEYPOINTS <=? 6) with true. cbv iota.
  destruct Hs as (A & rhs & ->).
  destruct (skew_exceeded _); [now left|].
  destruct (scale_ratio_exceeded _); [now left|].
  rewrite Hg. right. split; [reflexivity|]. split; [reflexivity|].
  reflexivity.
Qed.

(** What the second frame computes before and after the fit. *)
Lemma second_frame_counts (t : fmat (F := Q)) :
  snd (fst (find_matches Frames.frame_second Frames.arrays_after_first
              (Frames.tracked_near t))) = 5.
Proof. vm_compute. reflexivity. Qed.

Lemma second_frame_system (t : fmat (F := Q)) :
  build_system
    (fst (fst (find_matches Frames.frame_second Frames.arrays_after_first
                 (Frames.tracked_near t)))) 0 5
  = Done Frames.system_second.
Proof. vm_compute. reflexivity. Qed.

Lemma second_frame_growth (t T : fmat (F := Q)) :
  grow_references Frames.frame_second
    (set_transform
       (snd (find_matches Frames.frame_second Frames.arrays_after_first
               (Frames.tracked_near t)))
       (transform_of T))
  = OutOfBounds ContainedKeypoints 6 6.
Proof. vm_compute. reflexivity. Qed.

(** C10.  On [frame_second], six keypoints are copied into
    [contained_keypoints]; the first is promoted, which raises the loop
    bound to 7, and once the fit is accepted the loop reads
    [contained_keypoints[6]]. *)
Theorem growth_loop_reads_past_the_buffer :
  forall pinv t,
    let T := solve_transform pinv (fst Frames.system_second)
               (snd Frames.system_second) in
    let r := update_augmentation pinv Frames.frame_second
               Frames.arrays_after_first (Frames.tracked_near t) in
    length (gather_contained (Frames.tracked_near t) Frames.frame_second) = 6
    /\ promotion_condition (Frames.tracked_near t) Frames.candidate = true
    /\ snd (promote (Frames.tracked_near t) Frames.candidate 6) = 7
    /\ if skew_exceeded T || scale_ratio_exceeded T
       then outcome_status r = Some MAR_ERROR_TOO_FEW_MATCHING_KEYPOINTS
       else r = OutOfBounds ContainedKeypoints 6 6.
Proof.
  intros pinv t T r.
  split; [vm_compute; reflexivity|].
  split; [vm_compute; reflexivity|].
  split; [vm_compute; reflexivity|].
  subst r. unfold update_augmentation.
  pose proof (second_frame_counts t) as Hm.
  pose proof (second_frame_system t) as Hs.
  pose proof (second_frame_growth t T) as Hg.
  destruct (find_matches Frames.frame_second Frames.arrays_after_first
              (Frames.tracked_near t)) as [[b1 m] a1].
  cbn [fst snd] in Hm, Hs, Hg. subst m.
  change (MAR_MIN_NUM_OF_MATCHED_KEYPOINTS <=? 5) with true. cbv iota.
  rewrite Hs, (surjective_pairing Frames.system_second).
  cbv iota beta. cbn [fst snd]. fold T.
  destruct (skew_exceeded T); [reflexivity|].
  destruct (scale_ratio_exceeded T); [reflexivity|].
  cbn [orb]. rewrite Hg. reflexivity.
Qed.

Lemma registration_needs_ten_keypoints_witness :
  mar_augment_initialized (state_after_init (F := Q)) = true
  /\ registry_wf (state_after_init (F := Q))
  /\ registration_rule Frames.pinv_stub (MAR_ERROR_NONE, Frames.seeds_far)
       Frames.region_far state_after_init.
Proof.
  assert (Hi : mar_augment_initialized (state_after_init (F := Q)) = true)
    by reflexivity.
  assert (Hw : registry_wf (state_after_init (F := Q))) by (repeat split).
  exact (conj Hi (conj Hw
           (registration_needs_ten_keypoints Frames.pinv_stub
              (MAR_ERROR_NONE, Frames.seeds_far) Frames.region_far
              state_after_init Hi Hw))).
Defined.

(** Ten keypoints inside the ellipse register, nine do not. *)
Lemma registration_boundary :
  count_in_ellipse Frames.seeds_far Frames.region_far = 10
  /\ snd (fst (mar_augment_new_augmentation Frames.pinv_stub
                 (MAR_ERROR_NONE, Frames.seeds_far) Frames.region_far
                 state_after_init)) = MAR_ERROR_NONE
  /\ snd (fst (mar_augment_new_augmentation Frames.pinv_stub
                 (MAR_ERROR_NONE, tl Frames.seeds_far) Frames.region_far
                 state_after_init)) = MAR_ERROR_TOO_FEW_KEYPOINTS.
Proof. repeat split; vm_compute; reflexivity. Qed.

(** C5.  A promotion writes the candidate at [initial_keypoints[cursor]]
    and advances the cursor modulo 512, but it is the loop bound
    [num_keypoints], not [num_initial_keypoints], that it increments up to
    512: no frame ever changes the number of confirmed references.  On
    [frame_second] the candidate is promoted into cell 10, the cursor moves
    to 11 and the count stays 10. *)
Theorem promotion_keeps_the_count :
  (forall (F : Type) (FO : FloatOps F) (a : mar_augmentation (F := F))
          (q : mar_sift_keypoint) (num_keypoints : nat),
      num_initial_keypoints (fst (promote a q num_keypoints))
      = num_initial_keypoints a
      /\ new_keypoint_cursor (fst (promote a q num_keypoints))
         = (new_keypoint_cursor a + 1) mod MAR_MAX_NUMBER_OF_AUGMENTATION_KEYPOINTS
      /\ snd (promote a q num_keypoints)
         = if MAR_MAX_NUMBER_OF_AUGMENTATION_KEYPOINTS <=? num_keypoints
           then MAR_MAX_NUMBER_OF_AUGMENTATION_KEYPOINTS
           else S num_keypoints)
  /\ (forall (F : Type) (FO : FloatOps F) pinv frame b (a : mar_augmentation (F := F)),
        match update_augmentation pinv frame b a with
        | Done (_, a', _) => num_initial_keypoints a' = num_initial_keypoints a
        | OutOfBounds _ _ _ => True
        end)
  /\ (forall t,
        promotion_condition (Frames.tracked_near t) Frames.candidate = true
        /\ num_initial_keypoints (Frames.tracked_near t) = 10
        /\ new_keypoint_cursor (Frames.tracked_near t) = 10
        /\ descriptor
             (keypoint_at
                (initial_keypoints (fst (promote (Frames.tracked_near t)
                                           Frames.candidate 6))) 10)
           = descriptor Frames.candidate
        /\ new_keypoint_cursor (fst (promote (Frames.tracked_near t)
                                       Frames.candidate 6)) = 11
        /\ num_initial_keypoints (fst (promote (Frames.tracked_near t)
                                         Frames.candidate 6)) = 10).
Proof.
  split; [|split].
  - intros F FO a q n. unfold promote.
    destruct (apply_matrix _ _ _) as [ox oy]. repeat split.
  - intros F FO pinv frame b a. apply update_keeps_the_count.
  - intros t. repeat split; vm_compute; reflexivity.
Qed.

(** C9.  [mar_augmentation_get_error] never looks at the slot flag: on the
    empty slot 0 of a freshly initialised module it answers [Ok], not
    [UnknownId], and freeing a slot does not change its answer. *)
Theorem get_error_skips_the_slot_check :
  (forall (F : Type) (FO : FloatOps F) (st : mar_state (F := F)) (id : nat),
      mar_augmentation_get_error (mar_augment_free_augmentation st id) id
      = mar_augmentation_get_error st id)
  /\ slot_initialized (state_after_init (F := Q)) 0 = false
  /\ mar_augmentation_get_error (state_after_init (F := Q)) 0 = MAR_ERROR_NONE
  /\ slot_initialized
       (mar_augment_free_augmentation Frames.registered_far_state 0) 0 = false
  /\ mar_augmentation_get_error
       (mar_augment_free_augmentation Frames.registered_far_state 0) 0
     = MAR_ERROR_NONE
  /\ MAR_ERROR_NONE <> MAR_ERROR_AUGMENTATION_ID_DOES_NOT_EXIST.
Proof.
  split; [intros F FO st id; apply get_error_after_free|].
  repeat split; try (vm_compute; reflexivity). discriminate.
Qed.

(** * Further properties *)

(** ** The descriptor distance *)

Section DistanceFacts.

Local Open Scope R_scope.

Lemma difference_loop_nonneg (d1 d2 : list R) :
  forall n i diff, 0 <= diff -> 0 <= keypoint_difference_loop d1 d2 i n diff.
Proof.
  induction n as [|n IH]; intros i diff Hd; cbn [keypoint_difference_loop];
    [exact Hd|].
  apply IH. cbn [fadd fsub fabs R_ops].
  pose proof (Rabs_pos (nth i d1 f0 - nth i d2 f0)). lra.
Qed.

Lemma difference_loop_same (d : list R) :
  forall n i diff, keypoint_difference_loop d d i n diff = diff.
Proof.
  induction n as [|n IH]; intros i diff; cbn [keypoint_difference_loop];
    [reflexivity|].
  rewrite IH. cbn [fadd fsub fabs R_ops].
  replace (nth i d f0 - nth i d f0) with 0 by lra. rewrite Rabs_R0. lra.
Qed.

Lemma difference_loop_sym (d1 d2 : list R) :
  forall n i diff,
    keypoint_difference_loop d1 d2 i n diff
    = keypoint_difference_loop d2 d1 i n diff.
Proof.
  induction n as [|n IH]; intros i diff; cbn [keypoint_difference_loop];
    [reflexivity|].
  rewrite IH. cbn [fadd fsub fabs R_ops].
  now rewrite (Rabs_minus_sym (nth i d1 f0) (nth i d2 f0)).
Qed.

Lemma difference_loop_triangle (d1 d2 d3 : list R) :
  forall n i a b c,
    a <= b + c ->
    keypoint_difference_loop d1 d3 i n a
    <= keypoint_difference_loop d1 d2 i n b
       + keypoint_difference_loop d2 d3 i n c.
Proof.
  induction n as [|n IH]; intros i a b c H; cbn [keypoint_difference_loop];
    [exact H|].
  apply IH. cbn [fadd fsub fabs R_ops].
  pose proof (Rabs_triang (nth i d1 f0 - nth i d2 f0) (nth i d2 f0 - nth i d3 f0))
    as Ht.
  replace (nth i d1 f0 - nth i d2 f0 + (nth i d2 f0 - nth i d3 f0))
    with (nth i d1 f0 - nth i d3 f0) in Ht by lra.
  lra.
Qed.

(** X1.  Over the reals, [get_keypoint_difference] is a distance on
    descriptors: it is never negative, it is zero between a keypoint and
    itself, it does not depend on the order of its two arguments, and it
    obeys the triangle inequality. *)
Theorem keypoint_difference_is_a_distance
    (k1 k2 k3 : mar_sift_keypoint (F := R)) :
  0 <= get_keypoint_difference k1 k2
  /\ get_keypoint_difference k1 k1 = 0
  /\ get_keypoint_difference k1 k2 = get_keypoint_difference k2 k1
  /\ get_keypoint_difference k1 k3
     <= get_keypoint_difference k1 k2 + get_keypoint_difference k2 k3.
Proof.
  unfold get_keypoint_difference.
  assert (H0 : (f0 : R) = 0) by reflexivity.
  split; [apply difference_loop_nonneg; rewrite H0; lra|].
  split; [rewrite difference_loop_same; exact H0|].
  split; [apply difference_loop_sym|].
  apply difference_loop_triangle. rewrite H0. lra.
Qed.

End DistanceFacts.

(** ** The index returned by the matcher *)

Section IndexFacts.

Context {F : Type} {FO : FloatOps F}.

Lemma best_match_loop_index (k : mar_sift_keypoint (F := F)) :
  forall keypoints i best_i b s,
    (best_i = -1 \/ 0 <= best_i < Z.of_nat i)%Z ->
    let r := fst (fst (best_match_loop k keypoints i best_i b s)) in
    (r = -1 \/ 0 <= r < Z.of_nat (i + length keypoints))%Z.
Proof.
  induction keypoints as [|kp rest IH]; intros i best_i b s H;
    cbn [best_match_loop length].
  - cbn [fst]. rewrite Nat.add_0_r. exact H.
  - replace (i + S (length rest)) with (S i + length rest) by lia.
    destruct (fltb (get_keypoint_difference k kp) b).
    + apply IH. right. lia.
    + destruct (fltb (get_keypoint_difference k kp) s); apply IH;
        (destruct H as [H|H]; [now left|right; lia]).
Qed.

(** X2.  The index that [get_best_keypoint_match] returns is [-1] or the
    index of one of the [num_keypoints] keypoints it was given: the callers'
    reads of [initial_keypoints[k]] after [k != -1] stay inside the part of
    the array that was searched. *)
Theorem best_match_index_in_range (k : mar_sift_keypoint (F := F))
    (keypoints : list mar_sift_keypoint) (num_keypoints : nat) :
  let r := fst (get_best_keypoint_match k keypoints num_keypoints) in
  (r = -1 \/ 0 <= r < Z.of_nat (Nat.min num_keypoints (length keypoints)))%Z.
Proof.
  unfold get_best_keypoint_match.
  pose proof (best_match_loop_index k (firstn num_keypoints keypoints) 0 (-1)%Z
                FLT_MAX f0 (or_introl eq_refl)) as H.
  cbv zeta in H. rewrite length_firstn in H. cbn [Nat.add] in H.
  destruct (best_match_loop k (firstn num_keypoints keypoints) 0 (-1)%Z FLT_MAX f0)
    as [[best_i best_diff] second]. cbn [fst] in H.
  cbv zeta.
  destruct (fleb _ _); cbn [fst]; [exact H|now left].
Qed.

End IndexFacts.

(** ** The ellipse of a circular region *)

Section CircleFacts.

Local Open Scope R_scope.

(** X3.  Over the reals, for a region with equal axes [a = b <> 0] the test
    is that of the disc of radius [2a] around the centre, whatever the
    angle of the region. *)
Theorem is_point_in_ellipse_circle (px py cx cy a theta : R) :
  a <> 0 ->
  is_point_in_ellipse px py cx cy a a theta = true
  <-> (px - cx) * (px - cx) + (py - cy) * (py - cy) < (2 * a) * (2 * a).
Proof.
  intros Ha. rewrite is_point_in_ellipse_real.
  unfold Ellipse.inside_after_rotation, Ellipse.rotate.
  set (phi := Ellipse.axis_factor a a * theta).
  set (x := px - cx). set (y := py - cy).
  assert (Hsc : sin phi * sin phi + cos phi * cos phi = 1).
  { pose proof (sin2_cos2 phi) as H. unfold Rsqr in H. exact H. }
  assert (Hpos : 0 < (2 * a) * (2 * a)) by nra.
  assert (Hr : (cos phi * x - sin phi * y) * (cos phi * x - sin phi * y)
               + (sin phi * x + cos phi * y) * (sin phi * x + cos phi * y)
               = x * x + y * y).
  { transitivity ((sin phi * sin phi + cos phi * cos phi) * (x * x + y * y));
      [ring|rewrite Hsc; ring]. }
  rewrite <- Hr.
  set (rx := cos phi * x - sin phi * y) in *.
  set (ry := sin phi * x + cos phi * y) in *.
  replace (rx * rx / (2 * a * (2 * a)) + ry * ry / (2 * a * (2 * a)))
    with ((rx * rx + ry * ry) / (2 * a * (2 * a))) by (field; lra).
  split; intros H.
  - apply (Rmult_lt_compat_r _ _ _ Hpos) in H.
    unfold Rdiv in H. rewrite Rmult_assoc, Rinv_l, Rmult_1_r, Rmult_1_l in H by lra.
    exact H.
  - apply (Rmult_lt_reg_r ((2 * a) * (2 * a))); [exact Hpos|].
    unfold Rdiv. rewrite Rmult_assoc, Rinv_l, Rmult_1_r, Rmult_1_l by lra.
    exact H.
Qed.

End CircleFacts.

Lemma is_point_in_ellipse_circle_witness :
  (1 <> 0)%R
  /\ (is_point_in_ellipse 3%R 4%R 2%R 3%R 1%R 1%R 5%R = true
      <-> ((3 - 2) * (3 - 2) + (4 - 3) * (4 - 3) < (2 * 1) * (2 * 1))%R).
Proof.
  assert (H : (1 <> 0)%R) by lra.
  exact (conj H (is_point_in_ellipse_circle 3%R 4%R 2%R 3%R 1%R 5%R H)).
Defined.

(** ** The buffer of best matches stays sorted *)

Section SortedFacts.

Context {F : Type} {FO : FloatOps F} {FOrd : FloatOrder F}.

Lemma ascending_repeat (d : F) (n : nat) : ascending (repeat d n).
Proof.
  intros l l' Hl Hl'. rewrite repeat_length in Hl'.
  rewrite !nth_repeat_lt by lia. apply fleb_refl.
Qed.

(** [find_slot] answers the first cell that the new difference is below. *)
Lemma find_slot_first (d : F) (ds : list F) :
  forall l0 l,
    find_slot d ds l0 = Some l ->
    fltb d (nth (l - l0) ds f0) = true
    /\ forall j, j < l - l0 -> fltb d (nth j ds f0) = false.
Proof.
  induction ds as [|x rest IH]; intros l0 l H; cbn [find_slot] in H;
    [discriminate|].
  destruct (l0 <? MAR_MAX_NUM_OF_MATCHED_KEYPOINTS); [|discriminate].
  destruct (fltb d x) eqn:E.
  - injection H as <-. rewrite Nat.sub_diag. cbn [nth]. split; [exact E|].
    intros j Hj. lia.
  - pose proof (find_slot_some _ _ _ _ H) as [Hle _].
    destruct (IH _ _ H) as [H1 H2].
    replace (l - l0) with (S (l - S l0)) by lia. cbn [nth]. split; [exact H1|].
    intros [|j] Hj; [exact E|]. cbn [nth]. apply H2. lia.
Qed.

Lemma shift_in_ascending (ds : list F) (l : nat) (d : F) :
  ascending ds ->
  l < length ds ->
  fltb d (nth l ds f0) = true ->
  (forall j, j < l -> fltb d (nth j ds f0) = false) ->
  ascending (shift_in ds l d).
Proof.
  intros Hasc Hl Hd Hbefore p q Hpq Hq.
  rewrite shift_in_length in Hq.
  rewrite !shift_in_nth by exact Hl.
  replace (q <? length ds) with true by (symmetry; apply Nat.ltb_lt; lia).
  replace (p <? length ds) with true by (symmetry; apply Nat.ltb_lt; lia).
  destruct (p <? l) eqn:Ep; [apply Nat.ltb_lt in Ep|apply Nat.ltb_ge in Ep].
  - destruct (q <? l) eqn:Eq; [apply Nat.ltb_lt in Eq|apply Nat.ltb_ge in Eq].
    + apply Hasc; lia.
    + assert (Hpd : fleb (nth p ds f0) d = true).
      { rewrite fleb_fltb, (Hbefore p Ep). reflexivity. }
      destruct (q =? l) eqn:Eql; [exact Hpd|apply Nat.eqb_neq in Eql].
      apply (fleb_trans _ d); [exact Hpd|].
      apply (fleb_trans _ (nth l ds f0)); [now apply fltb_fleb|].
      apply Hasc; lia.
  - destruct (p =? l) eqn:Epl; [apply Nat.eqb_eq in Epl|apply Nat.eqb_neq in Epl].
    + subst p. replace (q <? l) with false by (symmetry; apply Nat.ltb_ge; lia).
      destruct (q =? l) eqn:Eql; [apply fleb_refl|apply Nat.eqb_neq in Eql].
      apply (fleb_trans _ (nth l ds f0)); [now apply fltb_fleb|].
      apply Hasc; lia.
    + replace (q <? l) with false by (symmetry; apply Nat.ltb_ge; lia).
      replace (q =? l) with false by (symmetry; apply Nat.eqb_neq; lia).
      apply Hasc; lia.
Qed.

Lemma record_match_ascending (b : match_arrays (F := F)) c ref q (d : F) :
  ascending (differences b) ->
  ascending (differences (fst (record_match b c ref q d))).
Proof.
  intros Hasc. unfold record_match.
  destruct (fltb d _); [|exact Hasc]. cbn [fst].
  destruct (find_slot d (differences b) 0) as [l|] eqn:E; [|exact Hasc].
  pose proof (find_slot_some _ _ _ _ E) as [_ Hlen].
  pose proof (find_slot_first _ _ _ _ E) as [Hd Hbefore].
  rewrite Nat.sub_0_r in Hlen, Hd, Hbefore.
  cbn [place_match differences]. now apply shift_in_ascending.
Qed.

Lemma match_contained_ascending (contained : list (mar_sift_keypoint (F := F))) :
  forall b c a,
    ascending (differences b) ->
    ascending (differences (fst (fst (match_contained contained b c a)))).
Proof.
  induction contained as [|q rest IH]; intros b c a Hasc; cbn [match_contained];
    [exact Hasc|].
  destruct (get_best_keypoint_match q (initial_keypoints a)
              (num_initial_keypoints a)) as [k bd].
  destruct (k =? -1)%Z; [now apply IH|].
  pose proof (record_match_ascending b c
                (keypoint_at (initial_keypoints a) (Z.to_nat k)) q bd Hasc) as Hr.
  destruct (record_match b c (keypoint_at (initial_keypoints a) (Z.to_nat k)) q bd)
    as [b1 c1]. cbn [fst] in Hr. now apply IH.
Qed.

Lemma match_whole_frame_ascending (frame : list (mar_sift_keypoint (F := F))) :
  forall b c a,
    ascending (differences b) ->
    ascending (differences (fst (match_whole_frame frame b c a))).
Proof.
  induction frame as [|q rest IH]; intros b c a Hasc; cbn [match_whole_frame];
    [exact Hasc|].
  destruct (get_best_keypoint_match q (initial_keypoints a)
              (num_initial_keypoints a)) as [k bd].
  destruct (k =? -1)%Z; [now apply IH|].
  pose proof (record_match_ascending b c
                (keypoint_at (initial_keypoints a) (Z.to_nat k)) q bd Hasc) as Hr.
  destruct (record_match b c (keypoint_at (initial_keypoints a) (Z.to_nat k)) q bd)
    as [b1 c1]. cbn [fst] in Hr. now apply IH.
Qed.

(** X4.  The differences of the best matches are kept in ascending order:
    whatever the local arrays held on entry, after the matching passes of a
    frame no cell of [differences] is smaller than an earlier one, so the
    first correspondences handed to the fit are the closest matches. *)
Theorem best_matches_are_kept_ascending
    (frame : list (mar_sift_keypoint (F := F))) (b : match_arrays)
    (a : mar_augmentation) :
  ascending (differences (fst (fst (find_matches frame b a)))).
Proof.
  unfold find_matches.
  pose proof (match_contained_ascending (gather_contained a frame)
                (reset_differences b) 0 a (ascending_repeat _ _)) as H1.
  destruct (match_contained (gather_contained a frame) (reset_differences b) 0 a)
    as [[b1 m1] a1]. cbn [fst] in H1.
  destruct (m1 <? MAR_MIN_NUM_OF_MATCHED_KEYPOINTS); [|exact H1].
  pose proof (match_whole_frame_ascending frame (reset_differences b1) 0 a1
                (ascending_repeat _ _)) as H2.
  destruct (match_whole_frame frame (reset_differences b1) 0 a1) as [b2 m2].
  exact H2.
Qed.

End SortedFacts.

Lemma best_matches_are_kept_ascending_witness :
  ascending
    (differences
       (fst (fst (find_matches Frames.frame_first Frames.stale_arrays
                    Frames.registered_near)))).
Proof.
  exact (best_matches_are_kept_ascending (FOrd := Q_order) Frames.frame_first
           Frames.stale_arrays Frames.registered_near).
Defined.

(** ** What a frame leaves alone *)

Section FrameKeeps.

Context {F : Type} {FO : FloatOps F}.
Variable pinv : fmat (F := F) -> fmat (F := F).

Lemma array_set_nth {A : Type} (arr : list A) (i j : nat) (v d : A) :
  nth j (array_set arr i v) d
  = if ((j =? i) && (i <? length arr))%bool then v else nth j arr d.
Proof.
  destruct (j =? i) eqn:E; [apply Nat.eqb_eq in E|apply Nat.eqb_neq in E].
  - subst j. cbn [andb].
    destruct (i <? length arr) eqn:El;
      [apply Nat.ltb_lt in El|apply Nat.ltb_ge in El].
    + now apply array_set_nth_same.
    + rewrite !nth_overflow; [reflexivity|lia|rewrite array_set_length; lia].
  - cbn [andb]. apply array_set_nth_other. lia.
Qed.

Lemma update_augmentation_keeps (frame : list (mar_sift_keypoint (F := F)))
    b a b' a' status :
  update_augmentation pinv frame b a = Done (b', a', status) ->
  mser a' = mser a
  /\ transform_inverse a' = transform_inverse a
  /\ num_initial_keypoints a' = num_initial_keypoints a.
Proof.
  unfold update_augmentation.
  pose proof (find_matches_fields frame b a) as Hf.
  destruct (find_matches frame b a) as [[b1 m] a1]. cbn [snd] in Hf.
  destruct Hf as (Hm & _ & Hi & Hn & _).
  destruct (MAR_MIN_NUM_OF_MATCHED_KEYPOINTS <=? m).
  - destruct (build_system b1 0 m) as [[A rhs]|]; [|discriminate].
    destruct (skew_exceeded _); [intros [= _ <- _]; auto|].
    destruct (scale_ratio_exceeded _); [intros [= _ <- _]; auto|].
    destruct (grow_references frame _) as [a2|] eqn:Eg; [|discriminate].
    intros [= _ <- _].
    apply grow_references_fields in Eg. cbn [set_transform mser transform_inverse
      num_initial_keypoints] in Eg.
    destruct Eg as (Hm2 & _ & Hi2 & Hn2).
    rewrite Hm2, Hi2, Hn2. auto.
  - intros [= _ <- _]. auto.
Qed.

(** A frame accepted with [Ok] committed the six parameters of its fit. *)
Lemma update_augmentation_committed (frame : list (mar_sift_keypoint (F := F)))
    b a b' a' :
  update_augmentation pinv frame b a = Done (b', a', MAR_ERROR_NONE) ->
  exists T, fit_parameters pinv frame b a = Some T
            /\ transform a' = transform_of T.
Proof.
  unfold update_augmentation, fit_parameters.
  destruct (find_matches frame b a) as [[b1 m] a1].
  destruct (MAR_MIN_NUM_OF_MATCHED_KEYPOINTS <=? m); [|discriminate].
  destruct (build_system b1 0 m) as [[A rhs]|]; [|discriminate].
  destruct (skew_exceeded _); [discriminate|].
  destruct (scale_ratio_exceeded _); [discriminate|].
  destruct (grow_references frame _) as [a2|] eqn:Eg; [|discriminate].
  intros [= _ <-].
  apply grow_references_fields in Eg. destruct Eg as (_ & Ht & _).
  eexists. split; [reflexivity|]. rewrite Ht. reflexivity.
Qed.

Lemma frame_keeps_refl (st : mar_state (F := F)) : frame_keeps st st.
Proof. unfold frame_keeps. repeat split; reflexivity. Qed.

Lemma frame_keeps_trans (st1 st2 st3 : mar_state (F := F)) :
  frame_keeps st1 st2 -> frame_keeps st2 st3 -> frame_keeps st1 st3.
Proof.
  intros (A1 & A2 & A3 & A4 & A5) (B1 & B2 & B3 & B4 & B5).
  unfold frame_keeps.
  split; [congruence|]. split; [congruence|]. split; [congruence|].
  split; [congruence|]. intros i.
  destruct (A5 i) as (C1 & C2 & C3 & C4). destruct (B5 i) as (D1 & D2 & D3 & D4).
  split; [congruence|]. split; [congruence|]. split; [congruence|].
  intros Hfree.
  assert (Hfree2 : slot_initialized st2 i = false)
    by (unfold slot_initialized in *; rewrite A3; exact Hfree).
  destruct (C4 Hfree) as [E1 E2]. destruct (D4 Hfree2) as [E3 E4].
  split; congruence.
Qed.

Lemma update_slots_keeps :
  forall n j b (st : mar_state (F := F)) b' st',
    update_slots pinv n j b st = Done (b', st') ->
    frame_keeps st st' /\ same_frame_data st st'.
Proof.
  induction n as [|n IH]; intros j b st b' st' H; cbn [update_slots] in H.
  - injection H as _ <-. split; [apply frame_keeps_refl|repeat split].
  - destruct (slot_initialized st j) eqn:Ej; [|exact (IH _ _ _ _ _ H)].
    destruct (update_augmentation pinv (mar_sift_keypoints st) b
                (augmentation_at st j)) as [[[b1 a1] code]|] eqn:Eu;
      [|discriminate].
    apply update_augmentation_keeps in Eu. destruct Eu as (Hm & Hi & Hn).
    destruct (IH _ _ _ _ _ H) as [Hk Hd].
    split.
    + refine (frame_keeps_trans _ _ _ _ Hk).
      unfold frame_keeps. cbn [set_successful set_augmentation
        mar_augment_initialized mar_run_augmentation
        mar_augmentation_initialized mar_number_of_augmentations].
      repeat (split; [reflexivity|]). intros i.
      unfold augmentation_at, successful_at, slot_initialized.
      cbn [set_successful set_augmentation mar_augmentations
        mar_augmentation_successful mar_augmentation_initialized].
      rewrite !array_set_nth.
      destruct (i =? j) eqn:Eij; [apply Nat.eqb_eq in Eij; subst i|].
      * cbn [andb]. unfold augmentation_at in Hm, Hi, Hn.
        destruct (j <? length (mar_augmentations st));
          (split; [assumption || reflexivity|]);
          (split; [assumption || reflexivity|]);
          (split; [assumption || reflexivity|]);
          intros Hfree; unfold slot_initialized in Ej; congruence.
      * cbn [andb]. repeat split; reflexivity.
    + destruct Hd as (D1 & D2 & D3). unfold same_frame_data.
      cbn [set_successful set_augmentation mar_mser_calculated_this_frame
        mar_sift_calculated_this_frame mar_sift_keypoints] in D1, D2, D3.
      auto.
Qed.

Lemma mar_augment_update_keeps camera_update detector b
    (st st' : mar_state (F := F)) rc :
  mar_augment_update pinv camera_update detector b st = Done (st', rc) ->
  frame_keeps st st'.
Proof.
  unfold mar_augment_update.
  destruct (negb (mar_augment_initialized st));
    [intros [= <- _]; apply frame_keeps_refl|].
  destruct (negb (camera_update =? MAR_ERROR_NONE)%Z).
  { intros [= <- _]. unfold frame_keeps. repeat split; reflexivity. }
  cbn [set_frame_flags mar_run_augmentation].
  destruct (mar_run_augmentation st).
  - destruct (negb (fst detector =? MAR_ERROR_NONE)%Z).
    { intros [= <- _]. unfold frame_keeps. repeat split; reflexivity. }
    destruct (update_slots _ _ _ _ _) as [[b4 st4]|] eqn:Eu; [|discriminate].
    intros [= <- _]. apply update_slots_keeps in Eu. destruct Eu as [Hk _].
    refine (frame_keeps_trans _ _ _ _ Hk).
    unfold frame_keeps. repeat split; reflexivity.
  - intros [= <- _]. unfold frame_keeps. repeat split; reflexivity.
Qed.

(** X5.  A frame never recomputes the inverse transform: whatever
    [mar_augment_update] does, when it returns, every slot still has the
    region, the inverse transform and the number of references it had
    before the call, the slot flags and their count are unchanged, and a
    slot that is not in use keeps its augmentation and its status. *)
Theorem frame_never_refreshes_the_inverse camera_update detector b
    (st st' : mar_state (F := F)) rc :
  mar_augment_update pinv camera_update detector b st = Done (st', rc) ->
  frame_keeps st st'.
Proof. apply mar_augment_update_keeps. Qed.

(** X6.  The keypoints of a tracked frame are served from the cache: after
    a frame that [mar_augment_update] processed with the augmentation
    running, the module holds the keypoints that the detector returned for
    that frame, and [mar_augment_get_keypoints] answers [Ok] without
    consulting the detector again and without changing the state. *)
Theorem tracked_keypoints_are_served_from_the_cache camera_update detector b
    (st st' : mar_state (F := F)) :
  mar_augment_initialized st = true ->
  mar_run_augmentation st = true ->
  mar_augment_update pinv camera_update detector b st
  = Done (st', MAR_ERROR_NONE) ->
  mar_sift_keypoints st' = snd detector
  /\ forall detector',
       mar_augment_get_keypoints detector' st' = (st', MAR_ERROR_NONE).
Proof.
  intros Hinit Hrun. unfold mar_augment_update. rewrite Hinit. cbn [negb].
  destruct (camera_update =? MAR_ERROR_NONE)%Z eqn:Ec; cbn [negb].
  2:{ intros [= _ E]. apply Z.eqb_neq in Ec. congruence. }
  cbn [set_frame_flags mar_run_augmentation]. rewrite Hrun.
  destruct (fst detector =? MAR_ERROR_NONE)%Z eqn:Ed; cbn [negb].
  2:{ intros [= _ E]. apply Z.eqb_neq in Ed. congruence. }
  destruct (update_slots _ _ _ _ _) as [[b4 st4]|] eqn:Eu; [|discriminate].
  intros [= <-]. apply update_slots_keeps in Eu.
  destruct Eu as [(K1 & _) (_ & D2 & D3)].
  cbn [set_frame_flags set_sift_keypoints mar_augment_initialized
    mar_sift_calculated_this_frame mar_sift_keypoints] in K1, D2, D3.
  split; [exact D3|]. intros detector'. unfold mar_augment_get_keypoints.
  rewrite K1, Hinit, D2. reflexivity.
Qed.

End FrameKeeps.

Lemma frame_never_refreshes_the_inverse_witness :
  frame_keeps Sessions.running_near_state Sessions.after_first_state.
Proof.
  apply (frame_never_refreshes_the_inverse Frames.pinv_stub MAR_ERROR_NONE
           (MAR_ERROR_NONE, Frames.frame_first) Frames.stale_arrays
           Sessions.running_near_state Sessions.after_first_state MAR_ERROR_NONE).
  vm_compute. reflexivity.
Defined.

Lemma tracked_keypoints_are_served_from_the_cache_witness :
  mar_sift_keypoints Sessions.after_first_state
  = snd (MAR_ERROR_NONE, Frames.frame_first)
  /\ forall detector',
       mar_augment_get_keypoints detector' Sessions.after_first_state
       = (Sessions.after_first_state, MAR_ERROR_NONE).
Proof.
  apply (tracked_keypoints_are_served_from_the_cache Frames.pinv_stub
           MAR_ERROR_NONE (MAR_ERROR_NONE, Frames.frame_first)
           Frames.stale_arrays Sessions.running_near_state
           Sessions.after_first_state).
  - reflexivity.
  - reflexivity.
  - vm_compute. reflexivity.
Defined.

(** ** The registry seen from its callers *)

Section RegistryUse.

Context {F : Type} {FO : FloatOps F}.
Variable pinv : fmat (F := F) -> fmat (F := F).

(** What [seed_slot] does to a slot that it registers. *)
Lemma seed_slot_success detector region (st st' : mar_state (F := F)) (i id : nat) :
  registry_wf st -> i < MAR_MAX_NUMBER_OF_AUGMENTATIONS ->
  seed_slot pinv detector region st i = (st', MAR_ERROR_NONE, Some id) ->
  id = i
  /\ mar_augment_initialized st' = mar_augment_initialized st
  /\ slot_initialized st' i = true
  /\ transform (augmentation_at st' i) = zero33
  /\ transform_inverse (augmentation_at st' i) = pinv zero33.
Proof.
  intros (W1 & W2 & W3) Hi. unfold seed_slot.
  set (a1 := {| mser := region; transform := _ |}).
  set (st1 := fst (mar_augment_get_keypoints detector (set_augmentation st i a1))).
  assert (Hst1 : mar_augment_initialized st1 = mar_augment_initialized st
                 /\ length (mar_augmentations st1) = MAR_MAX_NUMBER_OF_AUGMENTATIONS
                 /\ length (mar_augmentation_initialized st1)
                    = MAR_MAX_NUMBER_OF_AUGMENTATIONS).
  { unfold st1, mar_augment_get_keypoints.
    cbn [set_augmentation mar_augment_initialized mar_sift_calculated_this_frame].
    destruct (negb (mar_augment_initialized st));
      [cbn; rewrite array_set_length; auto|].
    destruct (mar_sift_calculated_this_frame st);
      [cbn; rewrite array_set_length; auto|].
    destruct (fst detector =? MAR_ERROR_NONE)%Z; cbn; rewrite array_set_length;
      auto. }
  destruct Hst1 as (I1 & L1 & L2).
  destruct (seed_loop (mar_sift_keypoints st1) region (augmentation_at st1 i) 0)
    as [a2 num].
  destruct (num <? MAR_MINIMUM_AUGMENTATION_KEYPOINTS); [discriminate|].
  intros [= <- <-]. split; [reflexivity|].
  unfold augmentation_at, slot_initialized.
  cbn [set_augmentation set_slot_initialized mar_augment_initialized
    mar_augmentations mar_augmentation_initialized].
  rewrite !array_set_nth, !array_set_length, Nat.eqb_refl, L1, L2.
  replace (i <? MAR_MAX_NUMBER_OF_AUGMENTATIONS) with true
    by (symmetry; apply Nat.ltb_lt; exact Hi).
  cbn [andb transform transform_inverse]. auto.
Qed.

Lemma find_slot_and_seed_success detector region (st st' : mar_state (F := F)) id :
  forall n i,
    find_slot_and_seed pinv n i detector region st
    = (st', MAR_ERROR_NONE, Some id) ->
    i <= id < i + n
    /\ slot_initialized st id = false
    /\ seed_slot pinv detector region st id = (st', MAR_ERROR_NONE, Some id).
Proof.
  induction n as [|n IH]; intros i H; cbn [find_slot_and_seed] in H;
    [discriminate|].
  destruct (slot_initialized st i) eqn:Ei; cbn [negb] in H.
  - destruct (IH _ H) as (Hr & Hf & Hs). split; [lia|]. now split.
  - assert (Hid : id = i).
    { revert H. unfold seed_slot.
      destruct (seed_loop _ _ _ _) as [a2 num].
      destruct (num <? MAR_MINIMUM_AUGMENTATION_KEYPOINTS); [discriminate|].
      now intros [= _ <-]. }
    subst id. split; [lia|]. now split.
Qed.

Lemma new_augmentation_success detector region (st st' : mar_state (F := F)) id :
  mar_augment_new_augmentation pinv detector region st
  = (st', MAR_ERROR_NONE, Some id) ->
  mar_augment_initialized st = true
  /\ id < MAR_MAX_NUMBER_OF_AUGMENTATIONS
  /\ slot_initialized st id = false
  /\ seed_slot pinv detector region st id = (st', MAR_ERROR_NONE, Some id).
Proof.
  unfold mar_augment_new_augmentation.
  destruct (mar_augment_initialized st); cbn [negb]; [|discriminate].
  intros H. apply find_slot_and_seed_success in H.
  destruct H as (Hr & Hf & Hs). split; [reflexivity|]. split; [lia|]. now split.
Qed.

(** X7.  A new augmentation starts with the zero transform: right after a
    successful [mar_augment_new_augmentation], the matrix that
    [mar_augment_get_transformation] hands out for the new id is zero
    everywhere but at index 10, [mar_augment_transform_point] applies the
    zero matrix and [mar_augment_untransform_point] applies [pinv] of the
    zero matrix. *)
Theorem new_augmentation_starts_at_zero detector region
    (st st' : mar_state (F := F)) (id : nat) :
  registry_wf st ->
  mar_augment_new_augmentation pinv detector region st
  = (st', MAR_ERROR_NONE, Some id) ->
  mar_augment_get_transformation st' id = (MAR_ERROR_NONE, Some zero_4x4)
  /\ (forall x y,
        mar_augment_transform_point st' id x y
        = (MAR_ERROR_NONE, Some (apply_matrix zero33 x y)))
  /\ (forall x y,
        mar_augment_untransform_point st' id x y
        = (MAR_ERROR_NONE, Some (apply_matrix (pinv zero33) x y))).
Proof.
  intros Hwf H. apply new_augmentation_success in H.
  destruct H as (Hinit & Hid & _ & Hs).
  apply seed_slot_success in Hs; [|exact Hwf|exact Hid].
  destruct Hs as (_ & I1 & S1 & T1 & T2).
  unfold mar_augment_get_transformation, mar_augment_transform_point,
    mar_augment_untransform_point.
  rewrite I1, Hinit, S1, T1, T2. cbn [negb]. repeat split.
Qed.


(** *** The count of the slots in use *)

Lemma count_after_set (flags : list bool) (i : nat) (v : bool) :
  i < length flags ->
  length (filter (fun flag : bool => flag) (array_set flags i v))
  + (if nth i flags false then 1 else 0)
  = length (filter (fun flag : bool => flag) flags) + (if v then 1 else 0).
Proof.
  revert i. induction flags as [|f rest IH]; intros [|i] Hi; cbn [length] in Hi;
    try lia.
  - cbn [array_set filter nth]. destruct f, v; cbn [length]; lia.
  - cbn [array_set filter nth]. specialize (IH i ltac:(lia)).
    destruct f; cbn [length]; lia.
Qed.

Lemma free_augmentation_count (st : mar_state (F := F)) (id : nat) :
  count_invariant st -> count_invariant (mar_augment_free_augmentation st id).
Proof.
  unfold count_invariant, initialised_slots, mar_augment_free_augmentation.
  intros H. destruct (slot_initialized st id) eqn:E; [|exact H].
  unfold slot_initialized in E.
  assert (Hlt : id < length (mar_augmentation_initialized st)).
  { destruct (Nat.lt_ge_cases id (length (mar_augmentation_initialized st)))
      as [Hl|Hl]; [exact Hl|]. rewrite nth_overflow in E by exact Hl.
    discriminate. }
  pose proof (count_after_set _ id false Hlt) as Hc. rewrite E in Hc.
  cbn [set_slot_initialized mar_number_of_augmentations
    mar_augmentation_initialized]. rewrite H. lia.
Qed.

Lemma seed_slot_count detector region (st : mar_state (F := F)) (i : nat) :
  registry_wf st -> i < MAR_MAX_NUMBER_OF_AUGMENTATIONS ->
  slot_initialized st i = false ->
  count_invariant st ->
  count_invariant (fst (fst (seed_slot pinv detector region st i))).
Proof.
  intros (W1 & _) Hi Hfree H. unfold seed_slot.
  set (a1 := {| mser := region; transform := _ |}).
  set (st1 := fst (mar_augment_get_keypoints detector (set_augmentation st i a1))).
  assert (Hst1 : mar_augmentation_initialized st1 = mar_augmentation_initialized st
                 /\ mar_number_of_augmentations st1
                    = mar_number_of_augmentations st).
  { unfold st1, mar_augment_get_keypoints.
    destruct (negb _); [split; reflexivity|].
    destruct (mar_sift_calculated_this_frame _); [split; reflexivity|].
    destruct (_ =? _)%Z; split; reflexivity. }
  destruct Hst1 as (E1 & E2).
  destruct (seed_loop _ _ _ _) as [a2 num].
  unfold count_invariant, initialised_slots in *.
  destruct (num <? MAR_MINIMUM_AUGMENTATION_KEYPOINTS); cbn [fst].
  - cbn [set_augmentation mar_number_of_augmentations
      mar_augmentation_initialized]. rewrite E1, E2. exact H.
  - cbn [set_augmentation set_slot_initialized mar_number_of_augmentations
      mar_augmentation_initialized]. rewrite E1, E2.
    pose proof (count_after_set (mar_augmentation_initialized st) i true
                  ltac:(rewrite W1; exact Hi)) as Hc.
    unfold slot_initialized in Hfree. rewrite Hfree in Hc. rewrite H. lia.
Qed.

Lemma find_slot_and_seed_count detector region (st : mar_state (F := F)) :
  registry_wf st -> count_invariant st ->
  forall n i,
    i + n <= MAR_MAX_NUMBER_OF_AUGMENTATIONS ->
    count_invariant (fst (fst (find_slot_and_seed pinv n i detector region st))).
Proof.
  intros Hwf H. induction n as [|n IH]; intros i Hi; cbn [find_slot_and_seed];
    [exact H|].
  destruct (slot_initialized st i) eqn:E; cbn [negb].
  - apply IH. lia.
  - apply seed_slot_count; try assumption. lia.
Qed.

(** X10.  [mar_number_of_augmentations] counts the slots in use: if it
    equals the number of slots whose flag is set, it still does after
    [mar_augment_new_augmentation], after [mar_augment_free_augmentation]
    and after a frame of [mar_augment_update], and it lies between 0 and
    [MAR_MAX_NUMBER_OF_AUGMENTATIONS]. *)
Theorem registry_count_is_kept detector region (st : mar_state (F := F))
    (id : nat) :
  registry_wf st ->
  count_invariant st ->
  id < MAR_MAX_NUMBER_OF_AUGMENTATIONS ->
  count_invariant
    (fst (fst (mar_augment_new_augmentation pinv detector region st)))
  /\ count_invariant (mar_augment_free_augmentation st id)
  /\ (forall camera_update frame b st' rc,
        mar_augment_update pinv camera_update frame b st = Done (st', rc) ->
        count_invariant st')
  /\ (0 <= mar_number_of_augmentations st
      <= Z.of_nat MAR_MAX_NUMBER_OF_AUGMENTATIONS)%Z.
Proof.
  intros Hwf H Hid.
  split.
  { unfold mar_augment_new_augmentation.
    destruct (negb (mar_augment_initialized st)); [exact H|].
    apply find_slot_and_seed_count; try assumption. lia. }
  split; [now apply free_augmentation_count|].
  split.
  { intros camera_update frame b st' rc Hu.
    apply mar_augment_update_keeps in Hu.
    destruct Hu as (_ & _ & Hflags & Hcount & _).
    unfold count_invariant, initialised_slots in *. rewrite Hflags, Hcount.
    exact H. }
  unfold count_invariant, initialised_slots in H. rewrite H.
  destruct Hwf as (W1 & _).
  pose proof (filter_length_le (fun flag : bool => flag)
                (mar_augmentation_initialized st)) as Hle.
  rewrite W1 in Hle. lia.
Qed.

(** *** The references of a new augmentation *)

Lemma seed_loop_entries (region : mar_mser (F := F)) :
  forall keypoints (a : mar_augmentation (F := F)) n,
    mser a = region ->
    new_keypoint_cursor a = n mod MAR_MAX_NUMBER_OF_AUGMENTATION_KEYPOINTS ->
    n + length (filter (in_region region) keypoints)
    <= MAR_MAX_NUMBER_OF_AUGMENTATION_KEYPOINTS ->
    length (initial_keypoints a) = MAR_MAX_NUMBER_OF_AUGMENTATION_KEYPOINTS ->
    snd (seed_loop keypoints region a n)
    = n + length (filter (in_region region) keypoints)
    /\ new_keypoint_cursor (fst (seed_loop keypoints region a n))
       = snd (seed_loop keypoints region a n)
         mod MAR_MAX_NUMBER_OF_AUGMENTATION_KEYPOINTS
    /\ mser (fst (seed_loop keypoints region a n)) = region
    /\ (forall k, k < n ->
          nth k (initial_keypoints (fst (seed_loop keypoints region a n)))
            zero_keypoint
          = nth k (initial_keypoints a) zero_keypoint)
    /\ (forall k, k < length (filter (in_region region) keypoints) ->
          nth (n + k) (initial_keypoints (fst (seed_loop keypoints region a n)))
            zero_keypoint
          = seeded_reference region
              (nth k (filter (in_region region) keypoints) zero_keypoint)).
Proof.
  induction keypoints as [|kp rest IH]; intros a n Hm Hc Hn Hl;
    cbn [seed_loop filter].
  - cbn [fst snd length]. rewrite Nat.add_0_r.
    repeat split; try assumption; try reflexivity. intros k Hk. cbn in Hk. lia.
  - change (is_point_in_ellipse (kp_x kp) (kp_y kp) (ellipse_x region)
              (ellipse_y region) (ellipse_a region) (ellipse_b region)
              (ellipse_angle region)) with (in_region region kp).
    cbn [filter] in Hn.
    destruct (in_region region kp) eqn:Ein; [|now apply IH].
    cbn [length] in Hn |- *.
    assert (Hlt : n < MAR_MAX_NUMBER_OF_AUGMENTATION_KEYPOINTS) by lia.
    replace (MAR_MAX_NUMBER_OF_AUGMENTATION_KEYPOINTS <=? n) with false
      by (symmetry; apply Nat.leb_gt; exact Hlt).
    rewrite Nat.mod_small in Hc by exact Hlt.
    set (seeded := {| kp_x := _; kp_y := _; kp_radius := kp_radius kp;
                      kp_angle := kp_angle kp; descriptor := descriptor kp |}).
    assert (Hseeded : seeded = seeded_reference region kp)
      by (unfold seeded, seeded_reference; rewrite Hm; reflexivity).
    set (a1 := set_new_keypoint_cursor _ _).
    assert (Hm1 : mser a1 = region) by exact Hm.
    assert (Hc1 : new_keypoint_cursor a1
                  = S n mod MAR_MAX_NUMBER_OF_AUGMENTATION_KEYPOINTS).
    { unfold a1. cbn [set_new_keypoint_cursor new_keypoint_cursor].
      rewrite Hc. f_equal. lia. }
    assert (Hl1 : length (initial_keypoints a1)
                  = MAR_MAX_NUMBER_OF_AUGMENTATION_KEYPOINTS).
    { unfold a1. cbn [set_new_keypoint_cursor set_initial_keypoints
        initial_keypoints]. rewrite array_set_length. exact Hl. }
    assert (Hi1 : initial_keypoints a1
                  = array_set (initial_keypoints a) n seeded).
    { unfold a1. cbn [set_new_keypoint_cursor set_initial_keypoints
        initial_keypoints]. rewrite Hc. reflexivity. }
    destruct (IH a1 (S n) Hm1 Hc1 ltac:(lia) Hl1) as (R1 & R2 & R3 & R4 & R5).
    split; [rewrite R1; lia|]. split; [exact R2|]. split; [exact R3|].
    split.
    + intros k Hk. rewrite R4 by lia. rewrite Hi1.
      apply array_set_nth_other. lia.
    + intros [|k] Hk.
      * rewrite Nat.add_0_r. rewrite R4 by lia. rewrite Hi1. cbn [nth].
        rewrite <- Hseeded. apply array_set_nth_same. rewrite Hl. exact Hlt.
      * cbn [nth]. replace (n + S k) with (S n + k) by lia. apply R5. lia.
Qed.

(** X11.  A new augmentation holds the keypoints of the frame that lie in
    the ellipse, in the order of the frame, each moved by the centre of the
    ellipse and divided by the mean of its two axes, with its descriptor
    unchanged: when at most 512 keypoints lie inside, reference [k] is the
    [k]-th of them, [num_initial_keypoints] is their number and the cursor
    is that number modulo 512. *)
Theorem registration_stores_the_normalised_keypoints detector region
    (st st' : mar_state (F := F)) (id : nat) :
  registry_wf st ->
  slots_wf st ->
  length (inside_keypoints detector region st)
  <= MAR_MAX_NUMBER_OF_AUGMENTATION_KEYPOINTS ->
  mar_augment_new_augmentation pinv detector region st
  = (st', MAR_ERROR_NONE, Some id) ->
  mser (augmentation_at st' id) = region
  /\ num_initial_keypoints (augmentation_at st' id)
     = length (inside_keypoints detector region st)
  /\ new_keypoint_cursor (augmentation_at st' id)
     = length (inside_keypoints detector region st)
       mod MAR_MAX_NUMBER_OF_AUGMENTATION_KEYPOINTS
  /\ forall k, k < length (inside_keypoints detector region st) ->
       keypoint_at (initial_keypoints (augmentation_at st' id)) k
       = seeded_reference region
           (nth k (inside_keypoints detector region st) zero_keypoint).
Proof.
  intros Hwf Hslots Hlen H. apply new_augmentation_success in H.
  destruct H as (Hinit & Hid & _ & Hs).
  destruct Hwf as (W1 & W2 & W3).
  revert Hs. unfold seed_slot.
  set (a1 := {| mser := region; transform := _ |}).
  pose proof (get_keypoints_effect detector (set_augmentation st id a1) Hinit)
    as (K1 & K2 & _).
  set (st1 := fst (mar_augment_get_keypoints detector (set_augmentation st id a1)))
    in *.
  assert (Ha1 : augmentation_at st1 id = a1).
  { unfold augmentation_at. rewrite K2. cbn [set_augmentation mar_augmentations].
    apply array_set_nth_same. rewrite W2. exact Hid. }
  assert (Hkp : mar_sift_keypoints st1 = frame_keypoints detector st)
    by (rewrite K1; reflexivity).
  rewrite Ha1, Hkp.
  pose proof (seed_loop_entries region (frame_keypoints detector st) a1 0
                eq_refl eq_refl Hlen (proj1 (Hslots id)))
    as (R1 & R2 & R3 & _ & R5).
  destruct (seed_loop (frame_keypoints detector st) region a1 0) as [a2 num].
  cbn [fst snd] in R1, R2, R3, R5. cbn [Nat.add] in R1.
  destruct (num <? MAR_MINIMUM_AUGMENTATION_KEYPOINTS); [discriminate|].
  intros [= <-].
  assert (Hlen1 : length (mar_augmentations st1) = MAR_MAX_NUMBER_OF_AUGMENTATIONS).
  { rewrite K2. cbn [set_augmentation mar_augmentations].
    rewrite array_set_length. exact W2. }
  unfold augmentation_at, keypoint_at, inside_keypoints.
  cbn [set_augmentation set_slot_initialized mar_augmentations].
  rewrite array_set_nth_same
    by (rewrite array_set_length, Hlen1; exact Hid).
  cbn [mser num_initial_keypoints new_keypoint_cursor initial_keypoints].
  split; [exact R3|]. split; [exact R1|]. split; [rewrite R2, R1; reflexivity|].
  intros k Hk. exact (R5 k Hk).
Qed.

(** X8.  After a frame that left the status [Ok] in a slot, the matrix
    that [mar_augment_get_transformation] hands out for that slot is the
    affine map of the six parameters [T] fitted in that frame: the linear
    part [T0 T1; T2 T3] and the translation [(T4, T5)] in column-major
    order, the third axis the identity and the last row [0 0 0 1]. *)
Theorem successful_frame_gives_an_affine_matrix camera_update detector b
    (st st' : mar_state (F := F)) rc (i : nat) :
  arrays_wf b -> registry_wf st ->
  mar_augment_initialized st = true ->
  mar_run_augmentation st = true ->
  camera_update = MAR_ERROR_NONE ->
  fst detector = MAR_ERROR_NONE ->
  i < MAR_MAX_NUMBER_OF_AUGMENTATIONS ->
  slot_initialized st i = true ->
  mar_augment_update pinv camera_update detector b st = Done (st', rc) ->
  mar_augmentation_get_error st' i = MAR_ERROR_NONE ->
  exists b_i T,
    arrays_wf b_i
    /\ fit_parameters pinv (snd detector) b_i (augmentation_at st i) = Some T
    /\ mar_augment_get_transformation st' i
       = (MAR_ERROR_NONE,
          Some (affine_4x4 (mat_get T 0 0) (mat_get T 1 0) (mat_get T 4 0)
                  (mat_get T 2 0) (mat_get T 3 0) (mat_get T 5 0))).
Proof.
  intros Hb Hwf Hinit Hrun Hc Hd Hi Hslot Hu Hok.
  pose proof (mar_augment_update_per_slot pinv camera_update detector b st st' rc
                Hb Hwf Hinit Hrun Hc Hd Hu) as [_ Hper].
  destruct (Hper i Hi Hslot) as (b_i & b_i' & Hbi & Hupd).
  unfold mar_augmentation_get_error in Hok. rewrite Hok in Hupd.
  apply update_augmentation_committed in Hupd. destruct Hupd as (T & HT & Htr).
  apply mar_augment_update_keeps in Hu. destruct Hu as (K1 & _ & K3 & _).
  exists b_i, T. split; [exact Hbi|]. split; [exact HT|].
  unfold mar_augment_get_transformation, slot_initialized.
  rewrite K1, Hinit, K3. unfold slot_initialized in Hslot. rewrite Hslot.
  cbn [negb]. rewrite Htr. reflexivity.
Qed.

End RegistryUse.

Lemma state_after_init_wf :
  registry_wf (state_after_init (F := Q))
  /\ slots_wf (state_after_init (F := Q))
  /\ count_invariant (state_after_init (F := Q)).
Proof.
  split; [repeat split|]. split; [|reflexivity].
  intros i. unfold augmentation_at, state_after_init. cbn [mar_augmentations].
  destruct (Nat.lt_ge_cases i MAR_MAX_NUMBER_OF_AUGMENTATIONS) as [H|H].
  - rewrite nth_repeat_lt by exact H. split; reflexivity.
  - rewrite nth_overflow by (rewrite repeat_length; exact H). split; reflexivity.
Qed.

Lemma new_augmentation_starts_at_zero_witness :
  mar_augment_get_transformation Frames.registered_far_state 0
  = (MAR_ERROR_NONE, Some zero_4x4)
  /\ (forall x y,
        mar_augment_transform_point Frames.registered_far_state 0 x y
        = (MAR_ERROR_NONE, Some (apply_matrix zero33 x y)))
  /\ (forall x y,
        mar_augment_untransform_point Frames.registered_far_state 0 x y
        = (MAR_ERROR_NONE, Some (apply_matrix (Frames.pinv_stub zero33) x y))).
Proof.
  apply (new_augmentation_starts_at_zero Frames.pinv_stub
           (MAR_ERROR_NONE, Frames.seeds_far) Frames.region_far
           state_after_init Frames.registered_far_state 0).
  - exact (proj1 state_after_init_wf).
  - vm_compute. reflexivity.
Defined.

Lemma registry_count_is_kept_witness :
  count_invariant
    (fst (fst (mar_augment_new_augmentation Frames.pinv_stub
                 (MAR_ERROR_NONE, Frames.seeds_far) Frames.region_far
                 state_after_init)))
  /\ count_invariant (mar_augment_free_augmentation state_after_init 3)
  /\ (forall camera_update frame b st' rc,
        mar_augment_update Frames.pinv_stub camera_update frame b
          state_after_init = Done (st', rc) ->
        count_invariant st')
  /\ (0 <= mar_number_of_augmentations (state_after_init (F := Q))
      <= Z.of_nat MAR_MAX_NUMBER_OF_AUGMENTATIONS)%Z.
Proof.
  apply (registry_count_is_kept Frames.pinv_stub
           (MAR_ERROR_NONE, Frames.seeds_far) Frames.region_far
           state_after_init 3).
  - exact (proj1 state_after_init_wf).
  - exact (proj2 (proj2 state_after_init_wf)).
  - unfold MAR_MAX_NUMBER_OF_AUGMENTATIONS. lia.
Defined.

Lemma registration_stores_the_normalised_keypoints_witness :
  mser (augmentation_at Frames.registered_far_state 0) = Frames.region_far
  /\ num_initial_keypoints (augmentation_at Frames.registered_far_state 0)
     = length (inside_keypoints (MAR_ERROR_NONE, Frames.seeds_far)
                 Frames.region_far state_after_init)
  /\ new_keypoint_cursor (augmentation_at Frames.registered_far_state 0)
     = length (inside_keypoints (MAR_ERROR_NONE, Frames.seeds_far)
                 Frames.region_far state_after_init)
       mod MAR_MAX_NUMBER_OF_AUGMENTATION_KEYPOINTS
  /\ forall k,
       k < length (inside_keypoints (MAR_ERROR_NONE, Frames.seeds_far)
                     Frames.region_far state_after_init) ->
       keypoint_at (initial_keypoints (augmentation_at Frames.registered_far_state 0)) k
       = seeded_reference Frames.region_far
           (nth k (inside_keypoints (MAR_ERROR_NONE, Frames.seeds_far)
                     Frames.region_far state_after_init) zero_keypoint).
Proof.
  apply (registration_stores_the_normalised_keypoints Frames.pinv_stub
           (MAR_ERROR_NONE, Frames.seeds_far) Frames.region_far
           state_after_init Frames.registered_far_state 0).
  - exact (proj1 state_after_init_wf).
  - exact (proj1 (proj2 state_after_init_wf)).
  - vm_compute. lia.
  - vm_compute. reflexivity.
Defined.

Lemma successful_frame_gives_an_affine_matrix_witness :
  exists b_i T,
    arrays_wf b_i
    /\ fit_parameters Frames.pinv_stub
         (snd (MAR_ERROR_NONE, Frames.frame_first)) b_i
         (augmentation_at Sessions.running_near_state 0) = Some T
    /\ mar_augment_get_transformation Sessions.after_first_state 0
       = (MAR_ERROR_NONE,
          Some (affine_4x4 (mat_get T 0 0) (mat_get T 1 0) (mat_get T 4 0)
                  (mat_get T 2 0) (mat_get T 3 0) (mat_get T 5 0))).
Proof.
  apply (successful_frame_gives_an_affine_matrix Frames.pinv_stub MAR_ERROR_NONE
           (MAR_ERROR_NONE, Frames.frame_first) Frames.stale_arrays
           Sessions.running_near_state Sessions.after_first_state
           MAR_ERROR_NONE 0).
  - repeat split.
  - repeat split.
  - reflexivity.
  - reflexivity.
  - reflexivity.
  - reflexivity.
  - unfold MAR_MAX_NUMBER_OF_AUGMENTATIONS. lia.
  - reflexivity.
  - vm_compute. reflexivity.
  - vm_compute. reflexivity.
Defined.

(** ** The SIFT detector *)

Section SiftFacts.

Context {F : Type} {FO : FloatOps F}.

Lemma gray_loop_returns (image : buffer) (frame_length image_length : nat) :
  forall n i,
    (n = 0 \/ (3 * (i + n) <= frame_length /\ i + n <= image_length)) ->
    gray_loop image n i frame_length image_length = Returns tt.
Proof.
  induction n as [|n IH]; intros i H; cbn [gray_loop]; [reflexivity|].
  destruct H as [H|[H1 H2]]; [discriminate|].
  replace (frame_length <? 3 * i + 3) with false
    by (symmetry; apply Nat.ltb_ge; lia).
  replace (image_length <=? i) with false by (symmetry; apply Nat.leb_gt; lia).
  apply IH. right. split; lia.
Qed.

Lemma sift_keypoint_of_full (point : VlSiftKeypoint (F := F)) (d : list F) :
  sift_keypoint_of point d
  = {| kp_x := vl_x point; kp_y := vl_y point; kp_radius := vl_s point;
       kp_angle := vl_sigma point;
       descriptor :=
         map (fun i : nat => nth i d f0)
           (seq 0 (MAR_SIFT_NBO * MAR_SIFT_NBP * MAR_SIFT_NBP)) |}.
Proof.
  unfold sift_keypoint_of, memcpy_descriptor. reflexivity.
Qed.

Lemma sift_add_orientations_fits (point : VlSiftKeypoint (F := F)) capacity :
  forall orientations written,
    length written + length orientations <= capacity ->
    sift_add_orientations point orientations capacity written
    = Returns (written ++ keypoints_of_point (point, orientations)).
Proof.
  unfold keypoints_of_point. cbn [fst snd].
  induction orientations as [|[angle d] rest IH]; intros written H;
    cbn [sift_add_orientations map length] in *.
  - now rewrite app_nil_r.
  - replace (length written <? capacity) with true
      by (symmetry; apply Nat.ltb_lt; lia).
    rewrite IH by (rewrite length_app; cbn [length]; lia).
    rewrite <- app_assoc. cbn [app snd]. now rewrite sift_keypoint_of_full.
Qed.

Lemma sift_add_orientations_returns (point : VlSiftKeypoint (F := F)) capacity :
  forall orientations written written',
    sift_add_orientations point orientations capacity written = Returns written' ->
    written' = written ++ keypoints_of_point (point, orientations).
Proof.
  unfold keypoints_of_point. cbn [fst snd].
  induction orientations as [|[angle d] rest IH]; intros written written' H;
    cbn [sift_add_orientations map] in *.
  - injection H as <-. now rewrite app_nil_r.
  - destruct (length written <? capacity); [|discriminate].
    rewrite (IH _ _ H), <- app_assoc. cbn [app snd].
    now rewrite sift_keypoint_of_full.
Qed.

Lemma sift_add_orientations_overflows (point : VlSiftKeypoint (F := F)) capacity :
  forall orientations written,
    length written <= capacity ->
    capacity < length written + length orientations ->
    sift_add_orientations point orientations capacity written
    = Faults SiftKeypoints capacity capacity.
Proof.
  induction orientations as [|[angle d] rest IH]; intros written H1 H2;
    cbn [sift_add_orientations length] in *; [lia|].
  destruct (length written <? capacity) eqn:E;
    [apply Nat.ltb_lt in E|apply Nat.ltb_ge in E].
  - apply IH; rewrite length_app; cbn [length]; lia.
  - replace (length written) with capacity by lia. reflexivity.
Qed.

Lemma keypoints_of_point_length (detection : vl_detection (F := F)) :
  length (keypoints_of_point detection) = length (snd detection).
Proof. unfold keypoints_of_point. apply length_map. Qed.

Lemma keypoints_of_points_length (points : list (vl_detection (F := F))) :
  length (flat_map keypoints_of_point points) = orientation_count points.
Proof.
  unfold orientation_count.
  induction points as [|d rest IH]; [reflexivity|]. cbn [flat_map].
  rewrite !length_app, keypoints_of_point_length, IH. reflexivity.
Qed.

Lemma sift_add_points_fits capacity :
  forall (points : list (vl_detection (F := F))) written,
    length written + orientation_count points <= capacity ->
    sift_add_points points capacity written
    = Returns (written ++ flat_map keypoints_of_point points).
Proof.
  unfold orientation_count.
  induction points as [|[point os] rest IH]; intros written H;
    cbn [sift_add_points flat_map] in *.
  - now rewrite app_nil_r.
  - rewrite length_app in H. cbn [snd] in H.
    rewrite sift_add_orientations_fits by lia.
    rewrite IH by (rewrite length_app, keypoints_of_point_length; cbn [snd]; lia).
    now rewrite app_assoc.
Qed.

Lemma sift_add_points_returns capacity :
  forall (points : list (vl_detection (F := F))) written written',
    sift_add_points points capacity written = Returns written' ->
    written' = written ++ flat_map keypoints_of_point points.
Proof.
  induction points as [|[point os] rest IH]; intros written written' H;
    cbn [sift_add_points flat_map] in *.
  - injection H as <-. now rewrite app_nil_r.
  - destruct (sift_add_orientations point os capacity written) as [w1|] eqn:E;
      [|discriminate].
    apply sift_add_orientations_returns in E. subst w1.
    rewrite (IH _ _ H). now rewrite app_assoc.
Qed.

Lemma sift_add_points_overflows capacity :
  forall (points : list (vl_detection (F := F))) written,
    length written <= capacity ->
    capacity < length written + orientation_count points ->
    sift_add_points points capacity written
    = Faults SiftKeypoints capacity capacity.
Proof.
  unfold orientation_count.
  induction points as [|[point os] rest IH]; intros written H1 H2;
    cbn [sift_add_points flat_map length] in *; [lia|].
  rewrite length_app in H2. cbn [snd] in H2.
  destruct (Nat.le_gt_cases (length written + length os) capacity) as [Hfit|Hover].
  - rewrite sift_add_orientations_fits by exact Hfit.
    apply IH; rewrite length_app, keypoints_of_point_length; cbn [snd]; lia.
  - now rewrite sift_add_orientations_overflows.
Qed.

Lemma orientation_count_bound (points : list (vl_detection (F := F))) :
  Forall (fun detection : vl_detection => length (snd detection) <= 4) points ->
  orientation_count points <= length points * 4.
Proof.
  unfold orientation_count. induction 1 as [|d rest Hd _ IH]; [cbn; lia|].
  cbn [flat_map length]. rewrite length_app. lia.
Qed.

Lemma orientation_count_exact (points : list (vl_detection (F := F))) :
  Forall (fun detection : vl_detection => length (snd detection) = 4) points ->
  orientation_count points = length points * 4.
Proof.
  unfold orientation_count. induction 1 as [|d rest Hd _ IH]; [reflexivity|].
  cbn [flat_map length]. rewrite length_app. lia.
Qed.

Lemma sift_octaves_returns (realloc : nat -> bool) :
  forall (octaves : list (list (vl_detection (F := F)))) m written m' code kps,
    sift_octaves octaves realloc m written = Returns (m', code, kps) ->
    code = MAR_ERROR_NONE ->
    kps = written ++ detected_keypoints octaves.
Proof.
  unfold detected_keypoints.
  induction octaves as [|points rest IH]; intros m written m' code kps H Hc;
    cbn [sift_octaves flat_map] in *.
  - injection H as _ _ <-. now rewrite app_nil_r.
  - destruct (sift_keypoints_size m <? length written + length points * 4).
    + destruct (realloc _); [|injection H as _ <- _; discriminate].
      destruct (sift_add_points points _ written) as [w1|] eqn:E; [|discriminate].
      apply sift_add_points_returns in E. subst w1.
      rewrite (IH _ _ _ _ _ H Hc). now rewrite app_assoc.
    + destruct (sift_add_points points _ written) as [w1|] eqn:E; [|discriminate].
      apply sift_add_points_returns in E. subst w1.
      rewrite (IH _ _ _ _ _ H Hc). now rewrite app_assoc.
Qed.

(** X12.  What [mar_sift_get_keypoints] hands out, when it answers [Ok],
    is vlfeat's detection flattened in order: octave by octave and point
    by point, one keypoint for each orientation of a point, carrying the
    position of the point, its [s] as the radius, its [sigma] (not the
    orientation) as the angle, and the 128 floats of the descriptor. *)
Theorem sift_keypoints_are_the_detections (frame_length : nat)
    (octaves : list (list (vl_detection (F := F)))) (realloc : nat -> bool)
    (m m' : sift_module) (kps : list mar_sift_keypoint) :
  mar_sift_get_keypoints frame_length octaves realloc m
  = Returns (m', MAR_ERROR_NONE, kps) ->
  kps = detected_keypoints octaves
  /\ length kps = list_sum (map orientation_count octaves).
Proof.
  unfold mar_sift_get_keypoints. destruct (gray_loop _ _ _ _ _); [|discriminate].
  destruct (sift_filter m); [|discriminate]. intros H.
  apply sift_octaves_returns in H; [|reflexivity]. cbn [app] in H. subst kps.
  split; [reflexivity|]. unfold detected_keypoints.
  induction octaves as [|points rest IH]; [reflexivity|].
  cbn [flat_map map list_sum]. rewrite length_app, keypoints_of_points_length, IH.
  reflexivity.
Qed.

Lemma sift_octaves_safe (realloc : nat -> bool) :
  (forall n, realloc n = true) ->
  forall (octaves : list (list (vl_detection (F := F)))) m written capacity,
    at_most_four_orientations octaves ->
    sift_keypoints m = Some capacity ->
    sift_keypoints_size m <= capacity ->
    length written <= sift_keypoints_size m ->
    exists m' capacity',
      sift_octaves octaves realloc m written
      = Returns (m', MAR_ERROR_NONE, written ++ detected_keypoints octaves)
      /\ sift_filter m' = sift_filter m
      /\ sift_image_buffer m' = sift_image_buffer m
      /\ sift_image_width m' = sift_image_width m
      /\ sift_image_height m' = sift_image_height m
      /\ sift_keypoints m' = Some capacity'
      /\ sift_keypoints_size m' <= capacity'
      /\ sift_keypoints_size m <= sift_keypoints_size m'.
Proof.
  intros Hre. unfold detected_keypoints, at_most_four_orientations.
  induction octaves as [|points rest IH]; intros m written capacity H4 Hk Hs Hw;
    cbn [sift_octaves flat_map].
  - exists m, capacity. rewrite app_nil_r. repeat split; try assumption; lia.
  - inversion H4 as [|? ? Hp Hrest]; subst.
    pose proof (orientation_count_bound points Hp) as Hb.
    destruct (sift_keypoints_size m <? length written + length points * 4) eqn:E;
      [apply Nat.ltb_lt in E|apply Nat.ltb_ge in E].
    + rewrite Hre. rewrite sift_add_points_fits by lia.
      set (m1 := {| sift_filter := sift_filter m; sift_keypoints_size := _ |}).
      destruct (IH m1 (written ++ flat_map keypoints_of_point points)
                  (length written + length points * 4) Hrest eq_refl
                  (Nat.le_refl _)) as (m' & c' & R & A1 & A2 & A3 & A4 & A5 & A6 & A7).
      { cbn [m1 sift_keypoints_size].
        rewrite length_app, keypoints_of_points_length. lia. }
      exists m', c'. rewrite R, <- app_assoc.
      cbn [m1 sift_keypoints_size] in A7. repeat split; try assumption; lia.
    + rewrite Hk. cbn [block_size]. rewrite sift_add_points_fits by lia.
      destruct (IH m (written ++ flat_map keypoints_of_point points) capacity
                  Hrest Hk Hs) as (m' & c' & R & A1 & A2 & A3 & A4 & A5 & A6 & A7).
      { rewrite length_app, keypoints_of_points_length. lia. }
      exists m', c'. rewrite R, <- app_assoc. repeat split; assumption.
Qed.

Lemma sift_new_ready (width height : Z) (m : sift_module) :
  sift_keypoints_size m <= MAR_SIFT_DEFAULT_NUMBER_OF_KEYPOINTS ->
  sift_ready (fst (mar_sift_new width height true true true m)).
Proof.
  intros H. unfold mar_sift_new, sift_ready. cbn.
  repeat split. exists MAR_SIFT_DEFAULT_NUMBER_OF_KEYPOINTS. split; [reflexivity|exact H].
Qed.

(** X13.  A detection stays inside its blocks: on a module as
    [mar_sift_new] creates it from the statics (filter created, keypoint
    block at least as large as its recorded size), with a frame buffer of
    three bytes for every pixel, at most four orientations for a point and
    reallocations that succeed, [mar_sift_get_keypoints] reads and writes
    no cell out of bounds, answers [Ok] with the detection, and leaves the
    module in the same condition, its buffer never smaller. *)
Theorem sift_detection_stays_in_its_blocks (frame_length : nat)
    (octaves : list (list (vl_detection (F := F)))) (realloc : nat -> bool)
    (m : sift_module) :
  sift_ready m ->
  frame_fits frame_length (sift_image_width m) (sift_image_height m) ->
  at_most_four_orientations octaves ->
  (forall n, realloc n = true) ->
  exists m',
    mar_sift_get_keypoints frame_length octaves realloc m
    = Returns (m', MAR_ERROR_NONE, detected_keypoints octaves)
    /\ sift_ready m'
    /\ sift_keypoints_size m <= sift_keypoints_size m'.
Proof.
  intros (Hf & Hi & capacity & Hk & Hs) Hfits H4 Hre.
  unfold mar_sift_get_keypoints.
  rewrite gray_loop_returns
    by (right; rewrite Hi; cbn [block_size]; unfold frame_fits in Hfits; lia).
  rewrite Hf.
  destruct (sift_octaves_safe realloc Hre octaves m [] capacity H4 Hk Hs
              ltac:(cbn; lia)) as (m' & c' & R & A1 & A2 & A3 & A4 & A5 & A6 & A7).
  exists m'. rewrite R. cbn [app]. split; [reflexivity|]. split; [|exact A7].
  unfold sift_ready. rewrite A1, A2, A3, A4. split; [exact Hf|].
  split; [exact Hi|]. exists c'. now split.
Qed.

(** X14.  [mar_sift_free] and [mar_sift_new] do not reset the recorded
    size of the keypoint buffer.  A detection of more than 256 points with
    four orientations each grows the buffer and its recorded size to four
    cells for a point; once the module is freed and created again, the new
    block holds 1024 keypoints while the recorded size is still the grown
    one, so the same detection is not given a larger block and writes cell
    1024 of a block of 1024. *)
Theorem sift_recorded_size_survives_free (width height : Z) (frame_length : nat)
    (points : list (vl_detection (F := F))) (realloc : nat -> bool) :
  frame_fits frame_length width height ->
  MAR_SIFT_DEFAULT_NUMBER_OF_KEYPOINTS < length points * 4 ->
  Forall (fun detection : vl_detection => length (snd detection) = 4) points ->
  (forall n, realloc n = true) ->
  exists grown,
    mar_sift_get_keypoints frame_length [points] realloc
      (fst (mar_sift_new width height true true true sift_static))
    = Returns (grown, MAR_ERROR_NONE, detected_keypoints [points])
    /\ sift_keypoints grown = Some (length points * 4)
    /\ sift_keypoints_size grown = length points * 4
    /\ sift_keypoints
         (fst (mar_sift_new width height true true true (mar_sift_free grown)))
       = Some MAR_SIFT_DEFAULT_NUMBER_OF_KEYPOINTS
    /\ sift_keypoints_size
         (fst (mar_sift_new width height true true true (mar_sift_free grown)))
       = length points * 4
    /\ mar_sift_get_keypoints frame_length [points] realloc
         (fst (mar_sift_new width height true true true (mar_sift_free grown)))
       = Faults SiftKeypoints MAR_SIFT_DEFAULT_NUMBER_OF_KEYPOINTS
           MAR_SIFT_DEFAULT_NUMBER_OF_KEYPOINTS.
Proof.
  intros Hfits Hmany H4 Hre.
  pose proof (orientation_count_exact points H4) as Hcount.
  assert (Hgray : forall m : sift_module,
             sift_image_width m = width -> sift_image_height m = height ->
             sift_image_buffer m = Some (Z.to_nat (width * height)) ->
             gray_loop SiftImage
               (Z.to_nat (sift_image_width m * sift_image_height m)) 0
               frame_length (block_size (sift_image_buffer m)) = Returns tt).
  { intros m -> -> ->. apply gray_loop_returns. right. cbn [block_size].
    unfold frame_fits in Hfits. lia. }
  eexists. split.
  { unfold mar_sift_get_keypoints. rewrite Hgray by reflexivity.
    cbn [mar_sift_new negb fst sift_filter sift_static sift_octaves
      sift_keypoints_size length Nat.add].
    replace (MAR_SIFT_DEFAULT_NUMBER_OF_KEYPOINTS <? length points * 4) with true
      by (symmetry; apply Nat.ltb_lt; exact Hmany).
    rewrite Hre. rewrite sift_add_points_fits by (cbn [length]; lia).
    unfold detected_keypoints. cbn [flat_map app]. rewrite app_nil_r.
    reflexivity. }
  split; [reflexivity|]. split; [reflexivity|].
  split; [reflexivity|]. split; [reflexivity|].
  unfold mar_sift_get_keypoints. rewrite Hgray by reflexivity.
  cbn [mar_sift_new mar_sift_free negb fst sift_filter sift_octaves
    sift_keypoints_size sift_keypoints length Nat.add block_size].
  rewrite Nat.ltb_irrefl.
  rewrite sift_add_points_overflows; [reflexivity|cbn [length]; lia|].
  cbn [length]. lia.
Qed.

End SiftFacts.

Lemma detections_four (n : nat) :
  Forall (fun detection : vl_detection (F := Q) => length (snd detection) = 4)
    (Detections.points n).
Proof.
  apply Forall_forall. intros d Hd. unfold Detections.points in Hd.
  apply repeat_spec in Hd. subst d. reflexivity.
Qed.

Lemma sift_keypoints_are_the_detections_witness :
  detected_keypoints [Detections.points 2]
  = detected_keypoints [Detections.points 2]
  /\ length (detected_keypoints [Detections.points 2])
     = list_sum (map orientation_count [Detections.points 2]).
Proof.
  apply (sift_keypoints_are_the_detections 12 [Detections.points 2]
           (fun _ => true) Detections.created Detections.created
           (detected_keypoints [Detections.points 2])).
  vm_compute. reflexivity.
Defined.

Lemma sift_detection_stays_in_its_blocks_witness :
  exists m',
    mar_sift_get_keypoints 12 [Detections.points 2] (fun _ => true)
      Detections.created
    = Returns (m', MAR_ERROR_NONE, detected_keypoints [Detections.points 2])
    /\ sift_ready m'
    /\ sift_keypoints_size Detections.created <= sift_keypoints_size m'.
Proof.
  apply (sift_detection_stays_in_its_blocks 12 [Detections.points 2]
           (fun _ => true) Detections.created).
  - apply sift_new_ready. apply Nat.le_refl.
  - unfold frame_fits. vm_compute. lia.
  - constructor; [|constructor]. apply Forall_forall. intros d Hd.
    unfold Detections.points in Hd. apply repeat_spec in Hd. subst d.
    cbn. lia.
  - reflexivity.
Defined.

Lemma sift_recorded_size_survives_free_witness :
  exists grown,
    mar_sift_get_keypoints 12 [Detections.points 257] (fun _ => true)
      (fst (mar_sift_new 2 2 true true true sift_static))
    = Returns (grown, MAR_ERROR_NONE, detected_keypoints [Detections.points 257])
    /\ sift_keypoints grown = Some (length (Detections.points 257) * 4)
    /\ sift_keypoints_size grown = length (Detections.points 257) * 4
    /\ sift_keypoints
         (fst (mar_sift_new 2 2 true true true (mar_sift_free grown)))
       = Some MAR_SIFT_DEFAULT_NUMBER_OF_KEYPOINTS
    /\ sift_keypoints_size
         (fst (mar_sift_new 2 2 true true true (mar_sift_free grown)))
       = length (Detections.points 257) * 4
    /\ mar_sift_get_keypoints 12 [Detections.points 257] (fun _ => true)
         (fst (mar_sift_new 2 2 true true true (mar_sift_free grown)))
       = Faults SiftKeypoints MAR_SIFT_DEFAULT_NUMBER_OF_KEYPOINTS
           MAR_SIFT_DEFAULT_NUMBER_OF_KEYPOINTS.
Proof.
  apply (sift_recorded_size_survives_free 2 2 12 (Detections.points 257)
           (fun _ => true)).
  - unfold frame_fits. vm_compute. lia.
  - unfold Detections.points. rewrite repeat_length.
    unfold MAR_SIFT_DEFAULT_NUMBER_OF_KEYPOINTS. lia.
  - apply detections_four.
  - reflexivity.
Defined.

(** ** The MSER detector *)

Section MserFacts.

Context {F : Type} {FO : FloatOps F}.
Variable fsqrt : F -> F.
Variable fatan2 : F -> F -> F.

Lemma mser_fill_fits (ellipsoids : nat -> F) (capacity : nat) :
  forall n written,
    length written + n <= capacity ->
    mser_fill fsqrt fatan2 ellipsoids capacity n written
    = Returns (written
               ++ map (region_at fsqrt fatan2 ellipsoids) (seq (length written) n)).
Proof.
  induction n as [|n IH]; intros written H; cbn [mser_fill seq map].
  - now rewrite app_nil_r.
  - replace (length written <? capacity) with true
      by (symmetry; apply Nat.ltb_lt; lia).
    rewrite IH by (rewrite length_app; cbn [length]; lia).
    rewrite length_app, <- app_assoc. cbn [length app].
    replace (length written + 1) with (S (length written)) by lia.
    reflexivity.
Qed.

Lemma mser_grow_ready (num_regions : nat) (realloc : nat -> bool) (m : mser_module) :
  (forall n, realloc n = true) ->
  mser_ready m ->
  exists m' capacity,
    mser_grow num_regions realloc m = Some m'
    /\ mser_ready m'
    /\ mser_regions m' = Some capacity
    /\ num_regions <= capacity
    /\ mser_regions_size m <= mser_regions_size m'
    /\ mser_image_width m' = mser_image_width m
    /\ mser_image_height m' = mser_image_height m.
Proof.
  intros Hre (Hf & Hi & capacity & Hk & Hs). unfold mser_grow.
  destruct (mser_regions_size m <? num_regions) eqn:E;
    [apply Nat.ltb_lt in E|apply Nat.ltb_ge in E].
  - rewrite Hre. eexists. exists num_regions. split; [reflexivity|].
    unfold mser_ready. cbn. repeat split; try assumption; try lia.
    exists num_regions. split; [reflexivity|lia].
  - exists m, capacity. split; [reflexivity|].
    split; [unfold mser_ready; split; [exact Hf|]; split; [exact Hi|];
            exists capacity; now split|].
    repeat split; try assumption; lia.
Qed.

(** X15.  What [mar_mser_get_regions] hands out: on a module as
    [mar_mser_new] creates it, with a frame buffer of three bytes for every
    pixel and reallocations that succeed, it writes no region out of bounds
    and answers [Ok] with [n1 + n2] regions.  The first [n1] are built from
    the cells [5i .. 5i+4] of vlfeat's answer for the grey image.  Region
    [n1 + k] is built from the cells [5(n1+k) .. 5(n1+k)+4] of the answer
    for the inverted image: the loop of the second pass goes on from the
    index where the first stopped, also in vlfeat's array. *)
Theorem mser_regions_follow_the_running_index (frame_length : nat)
    (n1 : nat) (ellipsoids1 : nat -> F) (n2 : nat) (ellipsoids2 : nat -> F)
    (realloc : nat -> bool) (m : mser_module) :
  mser_ready m ->
  frame_fits frame_length (mser_image_width m) (mser_image_height m) ->
  (forall n, realloc n = true) ->
  exists m',
    mar_mser_get_regions fsqrt fatan2 frame_length n1 ellipsoids1 n2 ellipsoids2
      realloc m
    = Returns (m', MAR_ERROR_NONE,
               map (region_at fsqrt fatan2 ellipsoids1) (seq 0 n1)
               ++ map (region_at fsqrt fatan2 ellipsoids2) (seq n1 n2))
    /\ mser_ready m'
    /\ mser_regions_size m <= mser_regions_size m'.
Proof.
  intros Hready Hfits Hre. unfold mar_mser_get_regions.
  pose proof Hready as (Hf & Hi & _).
  rewrite gray_loop_returns
    by (right; rewrite Hi; cbn [block_size]; unfold frame_fits in Hfits; lia).
  rewrite Hf.
  destruct (mser_grow_ready n1 realloc m Hre Hready)
    as (m1 & c1 & G1 & R1 & K1 & L1 & S1 & _).
  rewrite G1, K1. cbn [block_size].
  rewrite mser_fill_fits by (cbn [length]; lia). cbn [app length].
  destruct (mser_grow_ready (n1 + n2) realloc m1 Hre R1)
    as (m2 & c2 & G2 & R2 & K2 & L2 & S2 & _).
  rewrite G2, K2. cbn [block_size].
  rewrite mser_fill_fits by (rewrite length_map, length_seq; lia).
  rewrite length_map, length_seq.
  exists m2. split; [reflexivity|]. split; [exact R2|lia].
Qed.

End MserFacts.

Section MserAxes.

Local Open Scope R_scope.

Variable atan2 : R -> R -> R.


End MserAxes.

Lemma mser_new_ready (width height : Z) (m : mser_module) :
  (mser_regions_size m <= MAR_MSER_DEFAULT_NUMBER_OF_REGIONS)%nat ->
  mser_ready (fst (mar_mser_new width height true true true m)).
Proof.
  intros H. unfold mar_mser_new, mser_ready. cbn.
  repeat split. exists MAR_MSER_DEFAULT_NUMBER_OF_REGIONS.
  split; [reflexivity|exact H].
Qed.

Lemma mser_regions_follow_the_running_index_witness :
  exists m',
    mar_mser_get_regions (F := Q) (fun x => x) (fun x _ => x) 12
      1 (fun i => inject_Z (Z.of_nat i)) 2 (fun i => inject_Z (Z.of_nat i))
      (fun _ => true) (fst (mar_mser_new 2 2 true true true mser_static))
    = Returns (m', MAR_ERROR_NONE,
               map (region_at (fun x => x) (fun x _ => x)
                      (fun i => inject_Z (Z.of_nat i))) (seq 0 1)
               ++ map (region_at (fun x => x) (fun x _ => x)
                         (fun i => inject_Z (Z.of_nat i))) (seq 1 2))
    /\ mser_ready m'
    /\ mser_regions_size (fst (mar_mser_new 2 2 true true true mser_static))
       <= mser_regions_size m'.
Proof.
  apply (mser_regions_follow_the_running_index (F := Q) (fun x => x)
           (fun x _ => x) 12 1 (fun i => inject_Z (Z.of_nat i)) 2
           (fun i => inject_Z (Z.of_nat i)) (fun _ => true)
           (fst (mar_mser_new 2 2 true true true mser_static))).
  - apply mser_new_ready. apply Nat.le_refl.
  - unfold frame_fits. vm_compute. lia.
  - reflexivity.
Defined.

(** ** The camera registry *)

Section CameraFacts.

Variable handle : Type.

Lemma camera_search_spec (cams : list (mar_camera handle)) :
  forall n i,
    i <= camera_search cams n i <= i + n
    /\ (forall j, i <= j < camera_search cams n i ->
          occupied cams j = true)
    /\ (camera_search cams n i < i + n ->
        occupied cams (camera_search cams n i) = false).
Proof.
  induction n as [|n IH]; intros i; cbn [camera_search].
  - split; [lia|]. split; intros; lia.
  - destruct (occupied cams i) eqn:E.
    + destruct (IH (S i)) as (H1 & H2 & H3). split; [lia|]. split.
      * intros j Hj. destruct (Nat.eq_dec j i) as [->|Hne]; [exact E|].
        apply H2. lia.
      * intros Hlt. apply H3. lia.
    + split; [lia|]. split; [intros; lia|]. intros _. exact E.
Qed.

Lemma camera_search_first (cams : list (mar_camera handle)) (i : nat) :
  first_free_camera cams i ->
  camera_search cams MAR_CAM_MAX_NUM_CAMERAS 0 = i.
Proof.
  intros (Hi & Hfree & Hbefore).
  destruct (camera_search_spec cams MAR_CAM_MAX_NUM_CAMERAS 0) as (H1 & H2 & H3).
  set (r := camera_search cams MAR_CAM_MAX_NUM_CAMERAS 0) in *.
  destruct (Nat.lt_trichotomy r i) as [Hlt|[Heq|Hgt]]; [|exact Heq|].
  - rewrite Hbefore in H3 by exact Hlt. specialize (H3 ltac:(lia)). discriminate.
  - rewrite H2 in Hfree by lia. discriminate.
Qed.

Lemma camera_search_full (cams : list (mar_camera handle)) :
  (forall i, i < MAR_CAM_MAX_NUM_CAMERAS -> occupied cams i = true) ->
  camera_search cams MAR_CAM_MAX_NUM_CAMERAS 0 = MAR_CAM_MAX_NUM_CAMERAS.
Proof.
  intros Hall.
  destruct (camera_search_spec cams MAR_CAM_MAX_NUM_CAMERAS 0) as (H1 & _ & H3).
  set (r := camera_search cams MAR_CAM_MAX_NUM_CAMERAS 0) in *.
  destruct (Nat.eq_dec r MAR_CAM_MAX_NUM_CAMERAS) as [Heq|Hne]; [exact Heq|].
  rewrite Hall in H3 by lia. specialize (H3 ltac:(lia)). discriminate.
Qed.

(** X17.  [mar_camera_new] hands out the first slot that holds no camera
    and answers [MAR_ERROR_NO_CAMERAS_AVAILABLE], leaving the table and
    [*id] alone, when both slots hold one.  The slot it hands out holds a
    camera afterwards exactly when the type is the V4L2 one and the camera
    could be created: a call that fails does not use up a slot.  No other
    slot changes. *)
Theorem camera_new_takes_the_first_free_slot (type : Z)
    (backend : mar_error_code * handle) (cams : list (mar_camera handle)) :
  length cams = MAR_CAM_MAX_NUM_CAMERAS ->
  ((forall i, i < MAR_CAM_MAX_NUM_CAMERAS -> occupied cams i = true) ->
   mar_camera_new type backend cams
   = (cams, MAR_ERROR_NO_CAMERAS_AVAILABLE, None))
  /\ (forall i, first_free_camera cams i ->
        snd (mar_camera_new type backend cams) = Some i
        /\ snd (fst (mar_camera_new type backend cams))
           = (if (type =? MAR_CAM_TYPE_V4L2_MMAP)%Z then fst backend
              else MAR_ERROR_CAM_TYPE_NOT_SUPPORTED)
        /\ occupied (fst (fst (mar_camera_new type backend cams))) i
           = ((type =? MAR_CAM_TYPE_V4L2_MMAP)%Z
              && (fst backend =? MAR_ERROR_NONE)%Z)%bool
        /\ forall j, j <> i ->
             camera_at (fst (fst (mar_camera_new type backend cams))) j
             = camera_at cams j).
Proof.
  intros Hlen. split.
  - intros Hall. unfold mar_camera_new. rewrite camera_search_full by exact Hall.
    rewrite Nat.eqb_refl. reflexivity.
  - intros i Hfirst. pose proof Hfirst as (Hi & Hfree & _).
    unfold mar_camera_new. rewrite (camera_search_first cams i Hfirst).
    replace (i =? MAR_CAM_MAX_NUM_CAMERAS) with false
      by (symmetry; apply Nat.eqb_neq; lia).
    unfold occupied, camera_at in *.
    destruct (type =? MAR_CAM_TYPE_V4L2_MMAP)%Z; cbn [fst snd andb].
    + split; [reflexivity|]. split; [reflexivity|]. split.
      * rewrite array_set_nth_same by (rewrite array_set_length, Hlen; exact Hi).
        cbn [camera]. destruct (fst backend =? MAR_ERROR_NONE)%Z; reflexivity.
      * intros j Hj. rewrite !array_set_nth_other by lia. reflexivity.
    + split; [reflexivity|]. split; [reflexivity|]. split.
      * rewrite array_set_nth_same by (rewrite Hlen; exact Hi). cbn [camera].
        destruct (camera (nth i cams (free_camera handle))); [discriminate|].
        reflexivity.
      * intros j Hj. rewrite array_set_nth_other by lia. reflexivity.
Qed.

(** X18.  [mar_camera_free] empties the slot whatever the camera answers,
    and changes no other slot; its value is the answer of the V4L2 camera,
    or [MAR_ERROR_CAM_TYPE_NOT_SUPPORTED] for a slot of another type.  The
    slot can be handed out again: the next [mar_camera_new] writes an id
    not above the freed one.  Freeing the emptied slot of a V4L2 camera
    once more passes the null pointer to the camera, which reads it. *)
Theorem camera_free_empties_the_slot (id : nat) (backend_free : mar_error_code)
    (cams : list (mar_camera handle)) :
  length cams = MAR_CAM_MAX_NUM_CAMERAS ->
  id < MAR_CAM_MAX_NUM_CAMERAS ->
  occupied cams id = true ->
  exists cams',
    mar_camera_free id backend_free cams
    = Returns (cams',
               if (cam_type (camera_at cams id) =? MAR_CAM_TYPE_V4L2_MMAP)%Z
               then backend_free else MAR_ERROR_CAM_TYPE_NOT_SUPPORTED)
    /\ occupied cams' id = false
    /\ (forall j, j <> id -> camera_at cams' j = camera_at cams j)
    /\ (forall type backend,
          exists i, i <= id
                    /\ snd (mar_camera_new type backend cams') = Some i)
    /\ (cam_type (camera_at cams id) = MAR_CAM_TYPE_V4L2_MMAP ->
        forall code,
          mar_camera_free id code cams' = Faults CameraObject 0 0).
Proof.
  intros Hlen Hid Hocc.
  set (emptied := array_set cams id
                    {| cam_type := cam_type (camera_at cams id);
                       camera := None |}).
  assert (Hlen' : length emptied = MAR_CAM_MAX_NUM_CAMERAS)
    by (unfold emptied; rewrite array_set_length; exact Hlen).
  assert (Hat : camera_at emptied id
                = {| cam_type := cam_type (camera_at cams id);
                     camera := None |}).
  { unfold camera_at, emptied. apply array_set_nth_same. rewrite Hlen. exact Hid. }
  assert (Hfree : occupied emptied id = false)
    by (unfold occupied; rewrite Hat; reflexivity).
  exists emptied. split.
  { unfold mar_camera_free. rewrite Hlen.
    replace (id <? MAR_CAM_MAX_NUM_CAMERAS) with true
      by (symmetry; apply Nat.ltb_lt; exact Hid).
    rewrite Hocc. fold emptied.
    destruct (cam_type (camera_at cams id) =? MAR_CAM_TYPE_V4L2_MMAP)%Z;
      reflexivity. }
  split; [exact Hfree|]. split.
  { intros j Hj. unfold camera_at, emptied. apply array_set_nth_other. lia. }
  split.
  { intros type backend.
    destruct (camera_search_spec emptied MAR_CAM_MAX_NUM_CAMERAS 0)
      as (H1 & H2 & H3).
    set (r := camera_search emptied MAR_CAM_MAX_NUM_CAMERAS 0) in *.
    assert (Hr : r <= id).
    { destruct (Nat.le_gt_cases r id) as [Hle|Hgt]; [exact Hle|].
      rewrite H2 in Hfree by lia. discriminate. }
    exists r. split; [exact Hr|]. unfold mar_camera_new. fold r.
    replace (r =? MAR_CAM_MAX_NUM_CAMERAS) with false
      by (symmetry; apply Nat.eqb_neq; lia).
    destruct (type =? MAR_CAM_TYPE_V4L2_MMAP)%Z; reflexivity. }
  intros Htype code. unfold mar_camera_free. rewrite Hlen'.
  replace (id <? MAR_CAM_MAX_NUM_CAMERAS) with true
    by (symmetry; apply Nat.ltb_lt; exact Hid).
  rewrite Hfree, Hat. cbn [cam_type]. rewrite Htype, Z.eqb_refl. reflexivity.
Qed.

(** X25.  [mar_camera_start], [mar_camera_update] and [mar_camera_stop]
    reach a V4L2 camera exactly while the slot holds one.  For the id that
    [mar_camera_new] wrote for a V4L2 camera, they return the camera's
    answer when the camera was created; when the creation failed, the slot
    has the V4L2 type and no camera, and they pass the null pointer to the
    V4L2 camera, which reads it.  The same happens after
    [mar_camera_free], which leaves the type in the slot. *)
Theorem camera_calls_need_a_live_camera (backend : mar_error_code * handle)
    (answer backend_free : mar_error_code) (cams : list (mar_camera handle))
    (i : nat) :
  length cams = MAR_CAM_MAX_NUM_CAMERAS ->
  first_free_camera cams i ->
  exists cams1,
    mar_camera_new MAR_CAM_TYPE_V4L2_MMAP backend cams
    = (cams1, fst backend, Some i)
    /\ mar_camera_call i answer cams1
       = (if (fst backend =? MAR_ERROR_NONE)%Z then Returns answer
          else Faults CameraObject 0 0)
    /\ (fst backend = MAR_ERROR_NONE ->
        exists cams2,
          mar_camera_free i backend_free cams1 = Returns (cams2, backend_free)
          /\ mar_camera_call i answer cams2 = Faults CameraObject 0 0).
Proof.
  intros Hlen Hfirst. pose proof Hfirst as (Hi & _ & _).
  unfold mar_camera_new. rewrite (camera_search_first cams i Hfirst).
  replace (i =? MAR_CAM_MAX_NUM_CAMERAS) with false
    by (symmetry; apply Nat.eqb_neq; lia).
  rewrite Z.eqb_refl.
  set (created := {| cam_type := MAR_CAM_TYPE_V4L2_MMAP;
                     camera := if (fst backend =? MAR_ERROR_NONE)%Z
                               then Some (snd backend) else None |}).
  set (cams1 := array_set (array_set cams i _) i created).
  assert (Hlen1 : length cams1 = MAR_CAM_MAX_NUM_CAMERAS)
    by (unfold cams1; rewrite !array_set_length; exact Hlen).
  assert (Hat1 : camera_at cams1 i = created).
  { unfold camera_at, cams1. apply array_set_nth_same.
    rewrite array_set_length, Hlen. exact Hi. }
  assert (Hin : (i <? MAR_CAM_MAX_NUM_CAMERAS) = true)
    by (apply Nat.ltb_lt; exact Hi).
  exists cams1. split; [reflexivity|]. split.
  - unfold mar_camera_call, occupied. rewrite Hlen1, Hin, Hat1.
    cbn [created cam_type camera]. rewrite Z.eqb_refl.
    destruct (fst backend =? MAR_ERROR_NONE)%Z; reflexivity.
  - intros Hok.
    set (emptied := array_set cams1 i
                      {| cam_type := cam_type (camera_at cams1 i);
                         camera := None |}).
    exists emptied. split.
    + unfold mar_camera_free, occupied. rewrite Hlen1, Hin. fold emptied.
      rewrite Hat1. cbn [created cam_type camera]. rewrite Z.eqb_refl, Hok.
      reflexivity.
    + assert (Hat2 : camera_at emptied i
                     = {| cam_type := cam_type (camera_at cams1 i);
                          camera := None |}).
      { unfold camera_at, emptied. apply array_set_nth_same.
        rewrite Hlen1. exact Hi. }
      unfold mar_camera_call, occupied.
      replace (length emptied) with MAR_CAM_MAX_NUM_CAMERAS
        by (unfold emptied; rewrite array_set_length, Hlen1; reflexivity).
      rewrite Hin, Hat2, Hat1. cbn [created cam_type camera].
      rewrite Z.eqb_refl. reflexivity.
Qed.

End CameraFacts.

Lemma camera_new_takes_the_first_free_slot_witness :
  ((forall i, i < MAR_CAM_MAX_NUM_CAMERAS ->
        occupied (cameras_static nat) i = true) ->
   mar_camera_new MAR_CAM_TYPE_V4L2_MMAP (MAR_ERROR_NONE, 7%nat)
     (cameras_static nat)
   = (cameras_static nat, MAR_ERROR_NO_CAMERAS_AVAILABLE, None))
  /\ (forall i, first_free_camera (cameras_static nat) i ->
        snd (mar_camera_new MAR_CAM_TYPE_V4L2_MMAP (MAR_ERROR_NONE, 7%nat)
               (cameras_static nat)) = Some i
        /\ snd (fst (mar_camera_new MAR_CAM_TYPE_V4L2_MMAP
                       (MAR_ERROR_NONE, 7%nat) (cameras_static nat)))
           = (if (MAR_CAM_TYPE_V4L2_MMAP =? MAR_CAM_TYPE_V4L2_MMAP)%Z
              then fst (MAR_ERROR_NONE, 7%nat)
              else MAR_ERROR_CAM_TYPE_NOT_SUPPORTED)
        /\ occupied
             (fst (fst (mar_camera_new MAR_CAM_TYPE_V4L2_MMAP
                          (MAR_ERROR_NONE, 7%nat) (cameras_static nat)))) i
           = ((MAR_CAM_TYPE_V4L2_MMAP =? MAR_CAM_TYPE_V4L2_MMAP)%Z
              && (fst (MAR_ERROR_NONE, 7%nat) =? MAR_ERROR_NONE)%Z)%bool
        /\ forall j, j <> i ->
             camera_at
               (fst (fst (mar_camera_new MAR_CAM_TYPE_V4L2_MMAP
                            (MAR_ERROR_NONE, 7%nat) (cameras_static nat)))) j
             = camera_at (cameras_static nat) j).
Proof.
  apply (camera_new_takes_the_first_free_slot nat MAR_CAM_TYPE_V4L2_MMAP
           (MAR_ERROR_NONE, 7%nat) (cameras_static nat)).
  reflexivity.
Defined.

Lemma camera_free_empties_the_slot_witness :
  exists cams',
    mar_camera_free 0 MAR_ERROR_NONE
      (fst (fst (mar_camera_new MAR_CAM_TYPE_V4L2_MMAP (MAR_ERROR_NONE, 7%nat)
                   (cameras_static nat))))
    = Returns (cams',
               if (cam_type
                     (camera_at
                        (fst (fst (mar_camera_new MAR_CAM_TYPE_V4L2_MMAP
                                     (MAR_ERROR_NONE, 7%nat) (cameras_static nat)))) 0)
                   =? MAR_CAM_TYPE_V4L2_MMAP)%Z
               then MAR_ERROR_NONE else MAR_ERROR_CAM_TYPE_NOT_SUPPORTED)
    /\ occupied cams' 0 = false
    /\ (forall j, j <> 0 ->
          camera_at cams' j
          = camera_at
              (fst (fst (mar_camera_new MAR_CAM_TYPE_V4L2_MMAP
                           (MAR_ERROR_NONE, 7%nat) (cameras_static nat)))) j)
    /\ (forall type backend,
          exists i, i <= 0
                    /\ snd (mar_camera_new type backend cams') = Some i)
    /\ (cam_type
          (camera_at
             (fst (fst (mar_camera_new MAR_CAM_TYPE_V4L2_MMAP
                          (MAR_ERROR_NONE, 7%nat) (cameras_static nat)))) 0)
        = MAR_CAM_TYPE_V4L2_MMAP ->
        forall code,
          mar_camera_free 0 code cams' = Faults CameraObject 0 0).
Proof.
  apply (camera_free_empties_the_slot nat 0 MAR_ERROR_NONE
           (fst (fst (mar_camera_new MAR_CAM_TYPE_V4L2_MMAP
                        (MAR_ERROR_NONE, 7%nat) (cameras_static nat))))).
  - reflexivity.
  - unfold MAR_CAM_MAX_NUM_CAMERAS. lia.
  - reflexivity.
Defined.

(** ** The V4L2 camera *)

Section MmapFacts.

Lemma mmap_loop_grants (driver : nat -> querybuf_answer) :
  forall n num len,
    num <= MAR_V4L2_MMAP_CAMERA_MAX_MMAP_BUFFER_NUMBER ->
    (forall k, num <= k < num + n ->
       querybuf_result (driver k) <> (-1)%Z /\ mmap_failed (driver k) = false) ->
    mmap_loop driver n num len
    = if num + n <=? MAR_V4L2_MMAP_CAMERA_MAX_MMAP_BUFFER_NUMBER
      then Returns (MAR_ERROR_NONE, num + n,
                    match n with
                    | O => len
                    | S _ => querybuf_length (driver (num + n - 1))
                    end)
      else Faults MmapTable MAR_V4L2_MMAP_CAMERA_MAX_MMAP_BUFFER_NUMBER
             MAR_V4L2_MMAP_CAMERA_MAX_MMAP_BUFFER_NUMBER.
Proof.
  induction n as [|n IH]; intros num len Hnum Hok; cbn [mmap_loop].
  - rewrite Nat.add_0_r.
    replace (num <=? MAR_V4L2_MMAP_CAMERA_MAX_MMAP_BUFFER_NUMBER) with true
      by (symmetry; apply Nat.leb_le; exact Hnum).
    reflexivity.
  - destruct (Hok num ltac:(lia)) as [Hq Hm].
    replace (querybuf_result (driver num) =? -1)%Z with false
      by (symmetry; apply Z.eqb_neq; exact Hq).
    rewrite Hm.
    destruct (MAR_V4L2_MMAP_CAMERA_MAX_MMAP_BUFFER_NUMBER <=? num) eqn:E;
      [apply Nat.leb_le in E|apply Nat.leb_gt in E].
    + replace (num + S n <=? MAR_V4L2_MMAP_CAMERA_MAX_MMAP_BUFFER_NUMBER)
        with false by (symmetry; apply Nat.leb_gt; lia).
      replace num with MAR_V4L2_MMAP_CAMERA_MAX_MMAP_BUFFER_NUMBER by lia.
      reflexivity.
    + rewrite IH; [|lia|intros k Hk; apply Hok; lia].
      replace (S num + n) with (num + S n) by lia.
      destruct (num + S n <=? MAR_V4L2_MMAP_CAMERA_MAX_MMAP_BUFFER_NUMBER);
        [|reflexivity].
      destruct n as [|n]; [|reflexivity].
      replace (num + 1 - 1) with num by lia. reflexivity.
Qed.

(** X19.  [mar_v4l2_mmap_camera_mmap_init] maps as many buffers as the
    driver grants in [req.count], not as many as it asked for: when the
    request succeeds with at least two buffers and every buffer is queried
    and mapped, a grant of at most four buffers is stored in
    [mmap_buffers] with [num_mmap_buffers] the granted number and
    [mmap_buffer_length] the length of the last buffer, and a grant of
    more than four writes [mmap_buffers[4]], past the end of the table. *)
Theorem mmap_init_follows_the_grant (request : reqbufs_answer)
    (driver : nat -> querybuf_answer) (num_mmap_buffers mmap_buffer_length : nat) :
  reqbufs_result request <> (-1)%Z ->
  2 <= reqbufs_count request ->
  (forall k, k < reqbufs_count request ->
     querybuf_result (driver k) <> (-1)%Z /\ mmap_failed (driver k) = false) ->
  mar_v4l2_mmap_camera_mmap_init request driver num_mmap_buffers
    mmap_buffer_length
  = if reqbufs_count request <=? MAR_V4L2_MMAP_CAMERA_MAX_MMAP_BUFFER_NUMBER
    then Returns (MAR_ERROR_NONE, reqbufs_count request,
                  querybuf_length (driver (reqbufs_count request - 1)))
    else Faults MmapTable MAR_V4L2_MMAP_CAMERA_MAX_MMAP_BUFFER_NUMBER
           MAR_V4L2_MMAP_CAMERA_MAX_MMAP_BUFFER_NUMBER.
Proof.
  intros Hreq Hcount Hok. unfold mar_v4l2_mmap_camera_mmap_init.
  replace (reqbufs_result request =? -1)%Z with false
    by (symmetry; apply Z.eqb_neq; exact Hreq).
  replace (reqbufs_count request <? 2) with false
    by (symmetry; apply Nat.ltb_ge; exact Hcount).
  rewrite mmap_loop_grants;
    [|unfold MAR_V4L2_MMAP_CAMERA_MAX_MMAP_BUFFER_NUMBER; lia
     |intros k Hk; apply Hok; lia].
  cbn [Nat.add].
  destruct (reqbufs_count request) as [|c]; [lia|]. reflexivity.
Qed.

End MmapFacts.

Section YuyvFacts.

Context {F : Type} {FO : FloatOps F}.
Variable to_uchar : F -> Z.

Lemma read_cell_in (what : buffer) (arr : list Z) (i : nat) :
  i < length arr -> read_cell what arr i = Returns (nth i arr 0%Z).
Proof.
  intros H. unfold read_cell. now rewrite (nth_error_nth' arr 0%Z H).
Qed.

Lemma write_cell_in (what : buffer) (arr : list Z) (i : nat) (v : Z) :
  i < length arr -> write_cell what arr i v = Returns (array_set arr i v).
Proof.
  intros H. unfold write_cell.
  replace (i <? length arr) with true by (symmetry; apply Nat.ltb_lt; exact H).
  reflexivity.
Qed.

Lemma write_cell_out (what : buffer) (arr : list Z) (i : nat) (v : Z) :
  i = length arr -> write_cell what arr i v = Faults what (length arr) (length arr).
Proof.
  intros ->. unfold write_cell. now rewrite Nat.ltb_irrefl.
Qed.

Ltac resolve_sets :=
  repeat rewrite array_set_nth; repeat rewrite array_set_length;
  repeat match goal with
         | |- context [(?a =? ?b)] =>
             destruct (Nat.eqb_spec a b); try lia
         | |- context [(?a <? ?b)] =>
             destruct (Nat.ltb_spec a b); try lia
         end;
  cbn [andb]; try reflexivity.

Lemma yuyv_fill_loop_layout (mmap_buffer : list Z) :
  forall n i frame_index frame_buffer,
    i + 4 * n <= length mmap_buffer ->
    frame_index + 6 * n <= length frame_buffer ->
    exists frame',
      yuyv_fill_loop to_uchar n i frame_index mmap_buffer frame_buffer
      = Returns frame'
      /\ length frame' = length frame_buffer
      /\ (forall j, j < frame_index \/ frame_index + 6 * n <= j ->
            nth j frame' 0%Z = nth j frame_buffer 0%Z)
      /\ forall p, p < n ->
           (nth (frame_index + 6 * p) frame' 0%Z,
            nth (frame_index + 6 * p + 1) frame' 0%Z,
            nth (frame_index + 6 * p + 2) frame' 0%Z)
           = mar_v4l2_mmap_camera_yuv_to_rgb to_uchar
               (nth (i + 4 * p) mmap_buffer 0%Z)
               (nth (i + 4 * p + 1) mmap_buffer 0%Z)
               (nth (i + 4 * p + 3) mmap_buffer 0%Z)
           /\ (nth (frame_index + 6 * p + 3) frame' 0%Z,
               nth (frame_index + 6 * p + 4) frame' 0%Z,
               nth (frame_index + 6 * p + 5) frame' 0%Z)
              = mar_v4l2_mmap_camera_yuv_to_rgb to_uchar
                  (nth (i + 4 * p + 2) mmap_buffer 0%Z)
                  (nth (i + 4 * p + 1) mmap_buffer 0%Z)
                  (nth (i + 4 * p + 3) mmap_buffer 0%Z).
Proof.
  induction n as [|n IH]; intros i fi fb Hi Hf; cbn [yuyv_fill_loop].
  - exists fb. split; [reflexivity|]. split; [reflexivity|].
    split; [reflexivity|]. intros p Hp. lia.
  - rewrite !read_cell_in by lia. cbn [and_then].
    destruct (mar_v4l2_mmap_camera_yuv_to_rgb to_uchar (nth (i + 0) mmap_buffer 0%Z)
                (nth (i + 1) mmap_buffer 0%Z) (nth (i + 3) mmap_buffer 0%Z))
      as [[r1 g1] b1] eqn:E1.
    rewrite write_cell_in by lia. cbn [and_then].
    rewrite write_cell_in by (rewrite !array_set_length; lia). cbn [and_then].
    rewrite write_cell_in by (rewrite !array_set_length; lia). cbn [and_then].
    destruct (mar_v4l2_mmap_camera_yuv_to_rgb to_uchar (nth (i + 2) mmap_buffer 0%Z)
                (nth (i + 1) mmap_buffer 0%Z) (nth (i + 3) mmap_buffer 0%Z))
      as [[r2 g2] b2] eqn:E2.
    rewrite write_cell_in by (rewrite !array_set_length; lia). cbn [and_then].
    rewrite write_cell_in by (rewrite !array_set_length; lia). cbn [and_then].
    rewrite write_cell_in by (rewrite !array_set_length; lia). cbn [and_then].
    set (f6 := array_set _ (fi + 5) b2).
    assert (Hlen6 : length f6 = length fb)
      by (unfold f6; rewrite !array_set_length; reflexivity).
    destruct (IH (i + 4) (fi + 6) f6 ltac:(lia) ltac:(rewrite Hlen6; lia))
      as (frame' & R & L & Hout & Hin).
    exists frame'. split; [exact R|]. split; [congruence|]. split.
    + intros j Hj. rewrite Hout by lia. unfold f6. resolve_sets.
    + intros [|p] Hp.
      * rewrite Nat.mul_0_r, !Nat.add_0_r.
        rewrite !Hout by lia. unfold f6.
        rewrite Nat.add_0_r in E1.
        replace (i + 4 * 0) with i by lia.
        replace (i + 0) with i in E2 by lia.
        rewrite E1, E2. split; repeat f_equal; resolve_sets.
      * destruct (Hin p ltac:(lia)) as [P1 P2].
        replace (fi + 6 * S p) with (fi + 6 + 6 * p) by lia.
        replace (i + 4 * S p) with (i + 4 + 4 * p) by lia.
        split; [exact P1|exact P2].
Qed.

Ltac one_write fb :=
  match goal with
  | |- context [write_cell FrameBuffer ?arr ?ix ?v] =>
      let Hin := fresh "Hin" in
      let Hout := fresh "Hout" in
      destruct (Nat.lt_ge_cases ix (length fb)) as [Hin|Hout];
      [rewrite (write_cell_in FrameBuffer arr ix v)
         by (rewrite ?array_set_length; exact Hin);
       cbn [and_then]
      |rewrite (write_cell_out FrameBuffer arr ix v)
         by (rewrite ?array_set_length; lia);
       cbn [and_then]; rewrite ?array_set_length; reflexivity]
  end.

Lemma yuyv_fill_loop_overflows (mmap_buffer : list Z) :
  forall n i frame_index frame_buffer,
    i + 4 * n <= length mmap_buffer ->
    frame_index <= length frame_buffer ->
    length frame_buffer < frame_index + 6 * n ->
    yuyv_fill_loop to_uchar n i frame_index mmap_buffer frame_buffer
    = Faults FrameBuffer (length frame_buffer) (length frame_buffer).
Proof.
  induction n as [|n IH]; intros i fi fb Hi Hf Hover; cbn [yuyv_fill_loop];
    [lia|].
  rewrite !read_cell_in by lia. cbn [and_then].
  destruct (mar_v4l2_mmap_camera_yuv_to_rgb to_uchar (nth (i + 0) mmap_buffer 0%Z)
              (nth (i + 1) mmap_buffer 0%Z) (nth (i + 3) mmap_buffer 0%Z))
    as [[r1 g1] b1].
  destruct (mar_v4l2_mmap_camera_yuv_to_rgb to_uchar (nth (i + 2) mmap_buffer 0%Z)
              (nth (i + 1) mmap_buffer 0%Z) (nth (i + 3) mmap_buffer 0%Z))
    as [[r2 g2] b2].
  one_write fb. one_write fb. one_write fb. one_write fb. one_write fb.
  one_write fb.
  rewrite IH; rewrite ?array_set_length; try lia. reflexivity.
Qed.

(** X20.  The layout of a converted frame: for a YUYV buffer of [4k] bytes
    and a frame buffer of at least [6k] bytes,
    [mar_v4l2_mmap_camera_yuyv_fill_frame] makes no out-of-bounds access
    and turns each group [y1 u y2 v] of four bytes into two pixels, the
    first converted from [(y1, u, v)] and the second from [(y2, u, v)];
    the bytes of the frame buffer from [6k] on are left as they were. *)
Theorem yuyv_frame_layout (k : nat) (mmap_buffer frame_buffer : list Z) :
  length mmap_buffer = 4 * k ->
  6 * k <= length frame_buffer ->
  exists frame',
    mar_v4l2_mmap_camera_yuyv_fill_frame to_uchar (4 * k) mmap_buffer frame_buffer
    = Returns frame'
    /\ length frame' = length frame_buffer
    /\ (forall p, p < k ->
          pixel frame' (2 * p)
          = mar_v4l2_mmap_camera_yuv_to_rgb to_uchar
              (nth (4 * p) mmap_buffer 0%Z) (nth (4 * p + 1) mmap_buffer 0%Z)
              (nth (4 * p + 3) mmap_buffer 0%Z)
          /\ pixel frame' (2 * p + 1)
             = mar_v4l2_mmap_camera_yuv_to_rgb to_uchar
                 (nth (4 * p + 2) mmap_buffer 0%Z) (nth (4 * p + 1) mmap_buffer 0%Z)
                 (nth (4 * p + 3) mmap_buffer 0%Z))
    /\ forall j, 6 * k <= j -> nth j frame' 0%Z = nth j frame_buffer 0%Z.
Proof.
  intros Hbuf Hframe. unfold mar_v4l2_mmap_camera_yuyv_fill_frame.
  replace ((4 * k + 3) / 4) with k
    by (rewrite (Nat.mul_comm 4 k), Nat.div_add_l by discriminate;
        cbn; lia).
  destruct (yuyv_fill_loop_layout mmap_buffer k 0 0 frame_buffer
              ltac:(lia) ltac:(lia)) as (frame' & R & L & Hout & Hin).
  exists frame'. split; [exact R|]. split; [exact L|]. split.
  - intros p Hp. destruct (Hin p Hp) as [P1 P2]. cbn [Nat.add] in P1, P2.
    unfold pixel.
    replace (3 * (2 * p)) with (6 * p) by lia.
    replace (3 * (2 * p + 1)) with (6 * p + 3) by lia.
    replace (6 * p + 3 + 1) with (6 * p + 4) by lia.
    replace (6 * p + 3 + 2) with (6 * p + 5) by lia.
    split; [exact P1|exact P2].
  - intros j Hj. apply Hout. right. cbn [Nat.add]. exact Hj.
Qed.

(** X21.  The loop of the conversion is bounded by the length of the
    driver's buffer, not by the size of the frame buffer: for a YUYV
    buffer of [4k] bytes and a frame buffer of fewer than [6k] bytes (for
    the [width * height * 3] bytes that [mar_v4l2_mmap_camera_new]
    allocates: a buffer of more than [2 * width * height] bytes), it
    writes the byte just past the end of the frame buffer. *)
Theorem yuyv_frame_overflows (k : nat) (mmap_buffer frame_buffer : list Z) :
  length mmap_buffer = 4 * k ->
  length frame_buffer < 6 * k ->
  mar_v4l2_mmap_camera_yuyv_fill_frame to_uchar (4 * k) mmap_buffer frame_buffer
  = Faults FrameBuffer (length frame_buffer) (length frame_buffer).
Proof.
  intros Hbuf Hframe. unfold mar_v4l2_mmap_camera_yuyv_fill_frame.
  replace ((4 * k + 3) / 4) with k
    by (rewrite (Nat.mul_comm 4 k), Nat.div_add_l by discriminate;
        cbn; lia).
  apply yuyv_fill_loop_overflows; lia.
Qed.

End YuyvFacts.

Lemma mmap_init_follows_the_grant_witness :
  mar_v4l2_mmap_camera_mmap_init
    {| reqbufs_result := 0; reqbufs_errno := 0; reqbufs_count := 5 |}
    (fun _ => {| querybuf_result := 0; querybuf_length := 4096;
                 mmap_failed := false |}) 0 0
  = Faults MmapTable MAR_V4L2_MMAP_CAMERA_MAX_MMAP_BUFFER_NUMBER
      MAR_V4L2_MMAP_CAMERA_MAX_MMAP_BUFFER_NUMBER.
Proof.
  apply (mmap_init_follows_the_grant
           {| reqbufs_result := 0; reqbufs_errno := 0; reqbufs_count := 5 |}
           (fun _ => {| querybuf_result := 0; querybuf_length := 4096;
                        mmap_failed := false |}) 0 0).
  - cbn. discriminate.
  - cbn. lia.
  - intros k _. cbn. split; [discriminate|reflexivity].
Defined.

Lemma yuyv_frame_layout_witness :
  exists frame',
    mar_v4l2_mmap_camera_yuyv_fill_frame truncate (4 * 1)
      (16 :: 128 :: 235 :: 128 :: nil)%Z (repeat 0%Z 6)
    = Returns frame'
    /\ length frame' = length (repeat 0%Z 6)
    /\ (forall p, p < 1 ->
          pixel frame' (2 * p)
          = mar_v4l2_mmap_camera_yuv_to_rgb truncate
              (nth (4 * p) (16 :: 128 :: 235 :: 128 :: nil)%Z 0%Z)
              (nth (4 * p + 1) (16 :: 128 :: 235 :: 128 :: nil)%Z 0%Z)
              (nth (4 * p + 3) (16 :: 128 :: 235 :: 128 :: nil)%Z 0%Z)
          /\ pixel frame' (2 * p + 1)
             = mar_v4l2_mmap_camera_yuv_to_rgb truncate
                 (nth (4 * p + 2) (16 :: 128 :: 235 :: 128 :: nil)%Z 0%Z)
                 (nth (4 * p + 1) (16 :: 128 :: 235 :: 128 :: nil)%Z 0%Z)
                 (nth (4 * p + 3) (16 :: 128 :: 235 :: 128 :: nil)%Z 0%Z))
    /\ forall j, 6 * 1 <= j -> nth j frame' 0%Z = nth j (repeat 0%Z 6) 0%Z.
Proof.
  apply (yuyv_frame_layout truncate 1
           (16 :: 128 :: 235 :: 128 :: nil)%Z (repeat 0%Z 6)).
  - reflexivity.
  - cbn. lia.
Defined.

Lemma yuyv_frame_overflows_witness :
  mar_v4l2_mmap_camera_yuyv_fill_frame truncate (4 * 1)
    (16 :: 128 :: 235 :: 128 :: nil)%Z (repeat 0%Z 3)
  = Faults FrameBuffer (length (repeat 0%Z 3)) (length (repeat 0%Z 3)).
Proof.
  apply (yuyv_frame_overflows truncate 1
           (16 :: 128 :: 235 :: 128 :: nil)%Z (repeat 0%Z 3)).
  - reflexivity.
  - cbn. lia.
Defined.

(** ** The time arithmetic of the visualizer *)

Section TimevalFacts.

Local Open Scope Z_scope.

Lemma to_int_small (z : Z) : - 2 ^ 31 <= z < 2 ^ 31 -> to_int z = z.
Proof.
  intros H. unfold to_int, wrap.
  change (32 - 1) with 31. change (2 ^ 32) with (2 * 2 ^ 31).
  rewrite Z.mod_small by lia. lia.
Qed.

Lemma to_long_small (z : Z) : - 2 ^ 63 <= z < 2 ^ 63 -> to_long z = z.
Proof.
  intros H. unfold to_long, wrap.
  change (64 - 1) with 63. change (2 ^ 64) with (2 * 2 ^ 63).
  rewrite Z.mod_small by lia. lia.
Qed.

(** X22.  For two times as [gettimeofday] gives them, [timeval_subtract]
    computes the exact difference [x - y] with its microseconds between 0
    and 999999, and returns 1 exactly when [x] is the earlier time.  It
    also rewrites the caller's [y]: the time it stands for is the same,
    but its microseconds are negative whenever a carry was needed. *)
Theorem timeval_subtract_is_the_difference (x y : timeval) :
  normalised x ->
  normalised y ->
  let '(result, y', negative) := timeval_subtract x y in
  microseconds result = microseconds x - microseconds y
  /\ 0 <= tv_usec result < 1000000
  /\ negative = (if microseconds x <? microseconds y then 1 else 0)
  /\ microseconds y' = microseconds y
  /\ (tv_usec y' < 0 <-> tv_usec x < tv_usec y).
Proof.
  intros [Hxu Hxs] [Hyu Hys]. unfold timeval_subtract, microseconds.
  assert (P62 : 2 ^ 62 = 4611686018427387904) by reflexivity.
  assert (P63 : 2 ^ 63 = 9223372036854775808) by reflexivity.
  assert (P31 : 2 ^ 31 = 2147483648) by reflexivity.
  destruct (Z.ltb_spec (tv_usec x) (tv_usec y)) as [Hlt|Hge].
  - rewrite (to_long_small (tv_usec y - tv_usec x)) by lia.
    rewrite Z.quot_small by lia.
    change (0 + 1) with 1.
    rewrite (to_long_small 1) by lia. rewrite (to_int_small 1) by lia.
    change (1000000 * 1) with 1000000.
    rewrite (to_int_small 1000000) by lia.
    rewrite (to_long_small (tv_usec y - 1000000)) by lia.
    rewrite (to_long_small (tv_sec y + 1)) by lia.
    cbn [tv_usec tv_sec].
    rewrite (to_long_small (tv_usec x - (tv_usec y - 1000000))) by lia.
    destruct (Z.gtb_spec (tv_usec x - (tv_usec y - 1000000)) 1000000)
      as [Hgt|Hle]; [lia|].
    cbn [tv_usec tv_sec].
    rewrite (to_long_small (tv_sec x - (tv_sec y + 1))) by lia.
    rewrite (to_long_small (tv_usec x - (tv_usec y - 1000000))) by lia.
    repeat split; try lia.
    destruct (Z.ltb_spec (tv_sec x) (tv_sec y + 1));
      destruct (Z.ltb_spec (tv_sec x * 1000000 + tv_usec x)
                  (tv_sec y * 1000000 + tv_usec y)); lia.
  - rewrite (to_long_small (tv_usec x - tv_usec y)) by lia.
    destruct (Z.gtb_spec (tv_usec x - tv_usec y) 1000000) as [Hgt|Hle]; [lia|].
    rewrite (to_long_small (tv_sec x - tv_sec y)) by lia.
    rewrite (to_long_small (tv_usec x - tv_usec y)) by lia.
    cbn [tv_usec tv_sec].
    repeat split; try lia.
    destruct (Z.ltb_spec (tv_sec x) (tv_sec y));
      destruct (Z.ltb_spec (tv_sec x * 1000000 + tv_usec x)
                  (tv_sec y * 1000000 + tv_usec y)); lia.
Qed.

Lemma timeval_subtract_is_the_difference_witness :
  let '(result, y', negative) :=
    timeval_subtract {| tv_sec := 10; tv_usec := 200000 |}
      {| tv_sec := 8; tv_usec := 900000 |} in
  microseconds result
  = microseconds {| tv_sec := 10; tv_usec := 200000 |}
    - microseconds {| tv_sec := 8; tv_usec := 900000 |}
  /\ 0 <= tv_usec result < 1000000
  /\ negative
     = (if microseconds {| tv_sec := 10; tv_usec := 200000 |}
           <? microseconds {| tv_sec := 8; tv_usec := 900000 |}
        then 1 else 0)
  /\ microseconds y' = microseconds {| tv_sec := 8; tv_usec := 900000 |}
  /\ (tv_usec y' < 0
      <-> tv_usec {| tv_sec := 10; tv_usec := 200000 |}
          < tv_usec {| tv_sec := 8; tv_usec := 900000 |}).
Proof.
  apply (timeval_subtract_is_the_difference
           {| tv_sec := 10; tv_usec := 200000 |}
           {| tv_sec := 8; tv_usec := 900000 |}).
  - unfold normalised. cbn. lia.
  - unfold normalised. cbn. lia.
Defined.

End TimevalFacts.

(** ** Releasing the module *)

Section ReleaseFacts.

Context {F : Type} {FO : FloatOps F}.
Variable pinv : fmat (F := F) -> fmat (F := F).

Lemma free_augmentation_slot (st : mar_state (F := F)) (id j : nat) :
  slot_initialized (mar_augment_free_augmentation st id) j
  = if j =? id then false else slot_initialized st j.
Proof.
  unfold mar_augment_free_augmentation.
  destruct (slot_initialized st id) eqn:E.
  - unfold slot_initialized in *.
    cbn [set_slot_initialized mar_augmentation_initialized].
    rewrite array_set_nth.
    destruct (Nat.eqb_spec j id) as [->|Hne]; [|reflexivity].
    destruct (Nat.ltb_spec id (length (mar_augmentation_initialized st)))
      as [Hl|Hl]; [reflexivity|].
    rewrite nth_overflow in E by exact Hl. discriminate.
  - destruct (Nat.eqb_spec j id) as [->|Hne]; [exact E|reflexivity].
Qed.

Lemma free_augmentation_rest (st : mar_state (F := F)) (id : nat) :
  mar_augment_initialized (mar_augment_free_augmentation st id)
  = mar_augment_initialized st
  /\ mar_run_augmentation (mar_augment_free_augmentation st id)
     = mar_run_augmentation st
  /\ mar_augmentations (mar_augment_free_augmentation st id)
     = mar_augmentations st
  /\ mar_augmentation_successful (mar_augment_free_augmentation st id)
     = mar_augmentation_successful st
  /\ length (mar_augmentation_initialized (mar_augment_free_augmentation st id))
     = length (mar_augmentation_initialized st).
Proof.
  unfold mar_augment_free_augmentation.
  destruct (slot_initialized st id); repeat split; try reflexivity.
  cbn [set_slot_initialized mar_augmentation_initialized].
  apply array_set_length.
Qed.

Lemma free_augmentations_spec :
  forall n i (st : mar_state (F := F)),
    (forall j, slot_initialized (free_augmentations n i st) j
               = if (i <=? j) && (j <? i + n) then false
                 else slot_initialized st j)
    /\ (count_invariant st -> count_invariant (free_augmentations n i st))
    /\ mar_augment_initialized (free_augmentations n i st)
       = mar_augment_initialized st
    /\ mar_run_augmentation (free_augmentations n i st)
       = mar_run_augmentation st
    /\ mar_augmentations (free_augmentations n i st) = mar_augmentations st
    /\ mar_augmentation_successful (free_augmentations n i st)
       = mar_augmentation_successful st
    /\ length (mar_augmentation_initialized (free_augmentations n i st))
       = length (mar_augmentation_initialized st).
Proof.
  induction n as [|n IH]; intros i st; cbn [free_augmentations].
  - repeat split; try (intros H; exact H).
    intros j.
    destruct (Nat.leb_spec i j), (Nat.ltb_spec j (i + 0)); cbn [andb];
      try reflexivity; lia.
  - destruct (IH (S i) (mar_augment_free_augmentation st i))
      as (S1 & S2 & S3 & S4 & S5 & S6 & S7).
    destruct (free_augmentation_rest st i) as (R1 & R2 & R3 & R4 & R5).
    repeat split; try congruence.
    + intros j. rewrite S1, free_augmentation_slot.
      destruct (Nat.leb_spec (S i) j), (Nat.ltb_spec j (S i + n)),
        (Nat.eqb_spec j i), (Nat.leb_spec i j), (Nat.ltb_spec j (i + S n));
        cbn [andb]; try reflexivity; lia.
    + intros H. apply S2, free_augmentation_count, H.
Qed.

Lemma no_slot_in_use (flags : list bool) :
  (forall j, nth j flags false = false) ->
  length (filter (fun flag : bool => flag) flags) = 0.
Proof.
  induction flags as [|f rest IH]; intros H; [reflexivity|].
  pose proof (H 0) as H0. cbn [nth] in H0. subst f. cbn [filter].
  apply IH. intros j. exact (H (S j)).
Qed.

Lemma closed_when_not_initialised (st : mar_state (F := F)) :
  mar_augment_initialized st = false -> module_is_closed pinv st.
Proof.
  intros H. unfold module_is_closed.
  unfold mar_start_augmentation, mar_stop_augmentation, mar_augment_update,
    mar_augment_new_augmentation, mar_augment_get_keypoints,
    mar_augment_get_transformation, mar_augment_transform_point,
    mar_augment_untransform_point.
  rewrite H. cbn [negb]. repeat split; reflexivity.
Qed.

Lemma augment_free_when_initialised (camera_free : mar_error_code)
    (st : mar_state (F := F)) :
  mar_augment_initialized st = true ->
  mar_augment_free camera_free st
  = (free_augmentations MAR_MAX_NUMBER_OF_AUGMENTATIONS 0
       (set_run_augmentation (set_initialized st false) false),
     camera_free).
Proof.
  intros H. unfold mar_augment_free. rewrite H. reflexivity.
Qed.

Lemma augment_free_when_closed (camera_free : mar_error_code)
    (st : mar_state (F := F)) :
  mar_augment_initialized st = false ->
  mar_augment_free camera_free st = (st, MAR_ERROR_NONE).
Proof.
  intros H. unfold mar_augment_free. rewrite H. reflexivity.
Qed.

Lemma freed_registry (st0 st' : mar_state (F := F)) :
  length (mar_augmentation_initialized st0) = MAR_MAX_NUMBER_OF_AUGMENTATIONS ->
  count_invariant st0 ->
  st' = free_augmentations MAR_MAX_NUMBER_OF_AUGMENTATIONS 0 st0 ->
  (forall i, slot_initialized st' i = false)
  /\ mar_number_of_augmentations st' = 0%Z
  /\ mar_augment_initialized st' = mar_augment_initialized st0
  /\ mar_run_augmentation st' = mar_run_augmentation st0
  /\ mar_augmentations st' = mar_augmentations st0
  /\ mar_augmentation_successful st' = mar_augmentation_successful st0.
Proof.
  intros W1 Hcount ->.
  destruct (free_augmentations_spec MAR_MAX_NUMBER_OF_AUGMENTATIONS 0 st0)
    as (S1 & S2 & S3 & S4 & S5 & S6 & S7).
  generalize dependent (free_augmentations MAR_MAX_NUMBER_OF_AUGMENTATIONS 0 st0).
  intros st' S1 S2 S3 S4 S5 S6 S7.
  assert (Hfree : forall i, slot_initialized st' i = false).
  { intros i. rewrite S1.
    destruct (Nat.ltb_spec i (0 + MAR_MAX_NUMBER_OF_AUGMENTATIONS)) as [H|H];
      [destruct (Nat.leb_spec 0 i); [reflexivity|lia]|].
    rewrite Bool.andb_false_r.
    apply nth_overflow. rewrite W1. exact H. }
  split; [exact Hfree|]. split.
  { pose proof (S2 Hcount) as Hc. unfold count_invariant in Hc.
    rewrite Hc. unfold initialised_slots.
    rewrite no_slot_in_use; [reflexivity|exact Hfree]. }
  repeat split; assumption.
Qed.

(** X23.  [mar_augment_free] on an initialised module hands back what
    [mar_camera_free] answers and leaves no augmentation behind: every slot
    is free, the count is 0 and tracking is switched off, while the stored
    augmentations and their status are not touched.  From then on every
    entry point that checks the module flag answers
    [MAR_ERROR_AUGMENTATION_NOT_INITIALIZED] without changing the state,
    and a second [mar_augment_free] returns [MAR_ERROR_NONE] and frees
    nothing (the camera is not freed twice). *)
Theorem augment_free_closes_the_module (camera_free : mar_error_code)
    (st : mar_state (F := F)) :
  registry_wf st ->
  count_invariant st ->
  mar_augment_initialized st = true ->
  exists st',
    mar_augment_free camera_free st = (st', camera_free)
    /\ (forall i, slot_initialized st' i = false)
    /\ mar_number_of_augmentations st' = 0%Z
    /\ mar_run_augmentation st' = false
    /\ mar_augmentations st' = mar_augmentations st
    /\ mar_augmentation_successful st' = mar_augmentation_successful st
    /\ module_is_closed pinv st'
    /\ forall again, mar_augment_free again st' = (st', MAR_ERROR_NONE).
Proof.
  intros (W1 & _) Hcount Hinit.
  pose proof (augment_free_when_initialised camera_free st Hinit) as Hfree.
  remember (free_augmentations MAR_MAX_NUMBER_OF_AUGMENTATIONS 0
              (set_run_augmentation (set_initialized st false) false))
    as st' eqn:Est'.
  destruct (freed_registry
              (set_run_augmentation (set_initialized st false) false) st'
              W1 Hcount Est') as (F1 & F2 & F3 & F4 & F5 & F6).
  clear Est'.
  exists st'. split; [exact Hfree|]. split; [exact F1|].
  split; [exact F2|]. split; [exact F4|]. split; [exact F5|].
  split; [exact F6|].
  split; [apply closed_when_not_initialised; exact F3|].
  intros again. apply augment_free_when_closed. exact F3.
Qed.

End ReleaseFacts.

Lemma registered_far_state_wf :
  registry_wf Frames.registered_far_state
  /\ count_invariant Frames.registered_far_state
  /\ mar_augment_initialized Frames.registered_far_state = true.
Proof. repeat split; reflexivity. Qed.

Lemma augment_free_closes_the_module_witness :
  exists st',
    mar_augment_free MAR_ERROR_NONE Frames.registered_far_state
    = (st', MAR_ERROR_NONE)
    /\ (forall i, slot_initialized st' i = false)
    /\ mar_number_of_augmentations st' = 0%Z
    /\ mar_run_augmentation st' = false
    /\ mar_augmentations st' = mar_augmentations Frames.registered_far_state
    /\ mar_augmentation_successful st'
       = mar_augmentation_successful Frames.registered_far_state
    /\ module_is_closed Frames.pinv_stub st'
    /\ forall again, mar_augment_free again st' = (st', MAR_ERROR_NONE).
Proof.
  apply (augment_free_closes_the_module Frames.pinv_stub MAR_ERROR_NONE
           Frames.registered_far_state).
  - exact (proj1 registered_far_state_wf).
  - exact (proj1 (proj2 registered_far_state_wf)).
  - reflexivity.
Defined.

(** ** The least-squares system and the matrix it is turned into *)

Section FitFacts.

Local Open Scope R_scope.

Lemma affine_rows (x y u v t0 t1 t2 t3 t4 t5 : R) :
  let T := [[t0]; [t1]; [t2]; [t3]; [t4]; [t5]] in
  (dot [x; y; f_of_Z 0; f_of_Z 0; f_of_Z 1; f_of_Z 0] (mat_col T 0) = u
   /\ dot [f_of_Z 0; f_of_Z 0; x; y; f_of_Z 0; f_of_Z 1] (mat_col T 0) = v)
  <-> apply_matrix (transform_of T) x y = (u, v).
Proof.
  cbv [apply_matrix transform_of mat_mul mat_get mat_col dot map seq nth f0
       f_of_Z fadd fmul R_ops].
  split.
  - intros [H1 H2]. f_equal; [rewrite <- H1|rewrite <- H2]; ring.
  - intros H. injection H as H1 H2. split; [rewrite <- H1|rewrite <- H2]; ring.
Qed.

(** X24.  Over the reals, the system that [mar_augment_update] builds from
    the matched pairs (lines 549-573) is the system of the affine map that
    it later stores (lines 595-604): six numbers [T] solve [A * T = b]
    exactly if and only if the matrix that [T] is turned into sends every
    matched reference [(x[j], y[j])] to its point [(u[j], v[j])] of the
    frame, as [mar_augment_transform_point] computes it. *)
Theorem fit_system_is_the_affine_map (b : match_arrays (F := R)) (n : nat)
    (A rhs : fmat (F := R)) (t0 t1 t2 t3 t4 t5 : R) :
  build_system b 0 n = Done (A, rhs) ->
  mat_mul A [[t0]; [t1]; [t2]; [t3]; [t4]; [t5]] 1 = rhs
  <-> forall k : nat, (k < n)%nat ->
        exists x y u v : R,
          correspondence b k = Some (x, y, u, v)
          /\ apply_matrix
               (transform_of [[t0]; [t1]; [t2]; [t3]; [t4]; [t5]]) x y
             = (u, v).
Proof.
  set (T := [[t0]; [t1]; [t2]; [t3]; [t4]; [t5]]).
  assert (G : forall n j A rhs,
             build_system b j n = Done (A, rhs) ->
             mat_mul A T 1 = rhs
             <-> forall k : nat, (k < n)%nat ->
                   exists x y u v : R,
                     correspondence b (j + k) = Some (x, y, u, v)
                     /\ apply_matrix (transform_of T) x y = (u, v)).
  { clear n A rhs. induction n as [|n IH]; intros j A rhs Hb;
      cbn [build_system] in Hb.
    - injection Hb as <- <-. split; [intros _ k Hk; lia|reflexivity].
    - destruct (correspondence b j) as [[[[x y] u] v]|] eqn:Ec; [|discriminate].
      destruct (build_system b (S j) n) as [[A' rhs']|] eqn:Eb; [|discriminate].
      injection Hb as <- <-.
      specialize (IH (S j) A' rhs' Eb).
      pose proof (affine_rows x y u v t0 t1 t2 t3 t4 t5) as Hrow.
      cbv zeta in Hrow. fold T in Hrow.
      split.
      + intros H. injection H as H1 H2 H3.
        intros [|k] Hk.
        * rewrite Nat.add_0_r. exists x, y, u, v. split; [exact Ec|].
          apply Hrow. split; assumption.
        * replace (j + S k)%nat with (S j + k)%nat by lia.
          apply (proj1 IH H3). lia.
      + intros H.
        destruct (H 0%nat ltac:(lia)) as (x' & y' & u' & v' & Ec' & Hm).
        rewrite Nat.add_0_r, Ec in Ec'. injection Ec' as E1 E2 E3 E4.
        subst x' y' u' v'.
        apply Hrow in Hm. destruct Hm as [H1 H2].
        change ([dot [x; y; f_of_Z 0; f_of_Z 0; f_of_Z 1; f_of_Z 0] (mat_col T 0)]
                :: [dot [f_of_Z 0; f_of_Z 0; x; y; f_of_Z 0; f_of_Z 1] (mat_col T 0)]
                :: mat_mul A' T 1
                = [u] :: [v] :: rhs').
        rewrite H1, H2. do 2 f_equal.
        apply (proj2 IH). intros k Hk.
        replace (S j + k)%nat with (j + S k)%nat by lia.
        apply H. lia. }
  intros Hb. exact (G n 0%nat A rhs Hb).
Qed.

End FitFacts.

Lemma fit_system_is_the_affine_map_witness :
  mat_mul
    [[1%R; 2%R; f_of_Z 0; f_of_Z 0; f_of_Z 1; f_of_Z 0];
     [f_of_Z 0; f_of_Z 0; 1%R; 2%R; f_of_Z 0; f_of_Z 1]]
    [[1%R]; [0%R]; [0%R]; [1%R]; [2%R]; [2%R]] 1
  = [[3%R]; [4%R]]
  <-> forall k : nat, k < 1 ->
        exists x y u v : R,
          correspondence
            {| arr_x := [1%R]; arr_y := [2%R]; arr_u := [3%R]; arr_v := [4%R];
               differences := [] |} k
          = Some (x, y, u, v)
          /\ apply_matrix
               (transform_of [[1%R]; [0%R]; [0%R]; [1%R]; [2%R]; [2%R]]) x y
             = (u, v).
Proof.
  apply (fit_system_is_the_affine_map
           {| arr_x := [1%R]; arr_y := [2%R]; arr_u := [3%R]; arr_v := [4%R];
              differences := [] |} 1).
  reflexivity.
Defined.

Lemma camera_calls_need_a_live_camera_witness :
  exists cams1,
    mar_camera_new MAR_CAM_TYPE_V4L2_MMAP (MAR_ERROR_MALLOC, 7%nat)
      (cameras_static nat)
    = (cams1, fst (MAR_ERROR_MALLOC, 7%nat), Some 0)
    /\ mar_camera_call 0 MAR_ERROR_NONE cams1
       = (if (fst (MAR_ERROR_MALLOC, 7%nat) =? MAR_ERROR_NONE)%Z
          then Returns MAR_ERROR_NONE
          else Faults CameraObject 0 0)
    /\ (fst (MAR_ERROR_MALLOC, 7%nat) = MAR_ERROR_NONE ->
        exists cams2,
          mar_camera_free 0 MAR_ERROR_NONE cams1
          = Returns (cams2, MAR_ERROR_NONE)
          /\ mar_camera_call 0 MAR_ERROR_NONE cams2 = Faults CameraObject 0 0).
Proof.
  apply (camera_calls_need_a_live_camera nat (MAR_ERROR_MALLOC, 7%nat)
           MAR_ERROR_NONE MAR_ERROR_NONE (cameras_static nat) 0).
  - reflexivity.
  - split; [unfold MAR_CAM_MAX_NUM_CAMERAS; lia|].
    split; [reflexivity|]. intros j Hj. lia.
Defined.

(** ** Recovery by the fallback *)

Section RecoveryFacts.

Local Open Scope R_scope.

Variable pinv : fmat (F := R) -> fmat (F := R).





















End RecoveryFacts.

(** ** The fourth scenario, over the reals *)

Section SceneFacts.

Local Open Scope R_scope.












(** The references of the scenario are those that the seeding loop stores
    for the ten keypoints, which all lie in the ellipse of the region. *)
Lemma scene_references_are_seeded (i : nat) :
  (i < 10)%nat ->
  in_region Scene.region (Scene.seen i) = true
  /\ Scene.stored i = seeded_reference Scene.region (Scene.seen i).
Proof.
  intros Hi. split; [|reflexivity].
  unfold in_region. apply is_point_in_ellipse_real.
  cbv [Scene.region ellipse_x ellipse_y ellipse_a ellipse_b ellipse_angle
       Ellipse.inside_after_rotation Ellipse.rotate Ellipse.axis_factor].
  destruct (Rlt_dec 20 20) as [H|_]; [lra|].
  replace (-1 * 0) with 0 by ring. rewrite cos_0, sin_0.
  do 10 (destruct i as [|i];
         [cbv [Scene.seen Scene.positions kp_x kp_y nth fst snd]; lra|]).
  lia.
Qed.

End SceneFacts.



